(** * The chat front end of llmquerychatbot, embedded in Rocq

    The repository ships two generations of one browser script:

    - [Legacy]: [backend/static/script.js] (and its restyled copy, which has
      the same [sendQuery], [formatResults], [downloadCSV] and [escapeHtml]);
    - [Enhanced]: the mode-switching script with toasts, a processing
      indicator and the message-id-to-rows map.

    Both are event-handler wiring over [fetch], an HTML table renderer, a CSV
    serialiser and an HTML escaper.  The embedding is shallow: every
    JavaScript function is a Rocq function of the same name; the DOM and the
    network are an explicit state record threaded through a small
    state-and-exception monad; [async] handlers run to completion against a
    [world] that answers each request (no interleaving of two handlers is
    modelled).

    Conventions.
    - A JavaScript string is the sequence of its UTF-16 code units; the model
      uses [string], one [ascii] per code unit, so it covers the code units
      0..255.  Literals holding pictographs are kept as their UTF-8 bytes.
    - Values that come out of [JSON.parse] are [jsval]; numbers are integers.
    - Property reads are own-property reads: keys that name members of a
      prototype ([constructor], [toString], ...) are outside the model.
    - Every element the scripts look up with [getElementById] is assumed to
      be present in the page. *)

From Stdlib Require Import Ascii.
From stdpp Require Import gmap strings list pretty.

#[global] Set Warnings "-register-all,-clear-no-such-hyp".

(** ** JavaScript values and the string primitives the scripts call *)
Module Js.

(** The two quote characters, written by code so that no literal has to
    hold one. *)
Definition dquote : ascii := "034"%char.
Definition squote : ascii := "039"%char.
Definition DQ : string := String dquote "".
Definition SQ : string := String squote "".
Definition NL : string := String "010"%char "".

(** [xs.join(sep)] on an array of strings. *)
Fixpoint join (sep : string) (xs : list string) : string :=
  match xs with
  | [] => ""
  | [x] => x
  | x :: rest => x +:+ sep +:+ join sep rest
  end.

(** [s.replace(/c/g, by)] for a one-character pattern [c] and a replacement
    without [$] patterns. *)
Fixpoint replace_all (c : ascii) (by_ : string) (s : string) : string :=
  match s with
  | "" => ""
  | String a rest =>
      (if decide (a = c) then by_ else String a "") +:+ replace_all c by_ rest
  end.

(** White space and line terminators of ECMAScript among the code units
    0..255: TAB, LF, VT, FF, CR, SP and NBSP. *)
Definition is_whitespace (a : ascii) : bool :=
  match a with
  | "009" | "010" | "011" | "012" | "013" | " " | "160" => true
  | _ => false
  end%char.

Fixpoint trimStart (s : string) : string :=
  match s with
  | "" => ""
  | String a rest => if is_whitespace a then trimStart rest else s
  end.

Fixpoint trimEnd (s : string) : string :=
  match s with
  | "" => ""
  | String a rest =>
      match trimEnd rest with
      | "" => if is_whitespace a then "" else String a ""
      | r => String a r
      end
  end.

(** [s.trim()] *)
Definition trim (s : string) : string := trimEnd (trimStart s).

(** [s.startsWith(p)] *)
Definition startsWith (p s : string) : bool := String.prefix p s.

(** [s.includes(p)] *)
Fixpoint includes (p s : string) : bool :=
  String.prefix p s ||
  match s with
  | "" => false
  | String _ rest => includes p rest
  end.

(** [s.substring(0, n)] for [0 <= n]. *)
Fixpoint substring0 (n : nat) (s : string) : string :=
  match n, s with
  | S n', String a rest => String a (substring0 n' rest)
  | _, _ => ""
  end.

(** [s.toLowerCase()] on the code units 0..255. *)
Definition lower_char (a : ascii) : ascii :=
  let n := Ascii.N_of_ascii a in
  if ((65 <=? n) && (n <=? 90))%N then Ascii.ascii_of_N (n + 32)
  else if ((192 <=? n) && (n <=? 222) && negb (n =? 215))%N
       then Ascii.ascii_of_N (n + 32)
  else a.

Fixpoint toLowerCase (s : string) : string :=
  match s with
  | "" => ""
  | String a rest => String (lower_char a) (toLowerCase rest)
  end.

(** [[...new Set(xs)]]: insertion order, a value already present is not
    added again. *)
Definition Set_add (acc : list string) (x : string) : list string :=
  if decide (x ∈ acc) then acc else acc ++ [x].
Definition new_Set (xs : list string) : list string :=
  fold_left Set_add xs [].

(** Values produced by [JSON.parse], plus [undefined] for the result of
    reading a property that is not there.  The property list of [JObj] is
    in own-property order (the order of [Object.keys]); a runtime object
    has pairwise different keys, and a read returns the first match. *)
Inductive jsval : Type :=
| JUndefined
| JNull
| JBool (b : bool)
| JNum (n : Z)
| JStr (s : string)
| JArr (elems : list jsval)
| JObj (props : list (string * jsval)).

(** Completion of a computation that may throw; the payload of [Throw] is
    [error.message]. *)
Inductive result (A : Type) : Type :=
| Ok (a : A)
| Throw (message : string).
Arguments Ok {A} a.
Arguments Throw {A} message.

(** ToBoolean *)
Definition truthy (v : jsval) : bool :=
  match v with
  | JUndefined | JNull => false
  | JBool b => b
  | JNum n => negb (n =? 0)%Z
  | JStr s => negb (String.eqb s "")
  | JArr _ | JObj _ => true
  end.

(** [v == null] *)
Definition is_nullish (v : jsval) : bool :=
  match v with
  | JUndefined | JNull => true
  | _ => false
  end.

(** [v === ''] *)
Definition is_empty_string (v : jsval) : bool :=
  match v with
  | JStr s => String.eqb s ""
  | _ => false
  end.

(** [Array.isArray(v)] *)
Definition isArray (v : jsval) : bool :=
  match v with JArr _ => true | _ => false end.

(** [String(v)], also the conversion of a template literal. *)
Fixpoint String_ (v : jsval) : string :=
  match v with
  | JUndefined => "undefined"
  | JNull => "null"
  | JBool true => "true"
  | JBool false => "false"
  | JNum n => pretty n
  | JStr s => s
  | JArr elems =>
      join "," (map (fun e => if is_nullish e then "" else String_ e) elems)
  | JObj _ => "[object Object]"
  end.

(** [a || b] on values. *)
Definition or_else (a b : jsval) : jsval := if truthy a then a else b.

(** [a ?? b] *)
Definition nullish_else (a b : jsval) : jsval := if is_nullish a then b else a.

Fixpoint assoc (k : string) (props : list (string * jsval)) : jsval :=
  match props with
  | [] => JUndefined
  | (k', v) :: rest => if decide (k' = k) then v else assoc k rest
  end.

(** The array index a property key denotes, if it is below [len]. *)
Definition index_of_key (k : string) (len : nat) : option nat :=
  fst <$> list_find (fun i : nat => pretty i = k) (seq 0 len).

Fixpoint string_chars (s : string) : list jsval :=
  match s with
  | "" => []
  | String a rest => JStr (String a "") :: string_chars rest
  end.

Definition indexed (elems : list jsval) (k : string) : jsval :=
  match index_of_key k (length elems) with
  | Some i => default JUndefined (elems !! i)
  | None =>
      if decide (k = "length") then JNum (Z.of_nat (length elems))
      else JUndefined
  end.

(** [v[k]]: a [TypeError] on [null] and [undefined]. *)
Definition get (v : jsval) (k : string) : result jsval :=
  match v with
  | JUndefined =>
      Throw ("Cannot read properties of undefined (reading '" +:+ k +:+ "')")
  | JNull =>
      Throw ("Cannot read properties of null (reading '" +:+ k +:+ "')")
  | JBool _ | JNum _ => Ok JUndefined
  | JStr s => Ok (indexed (string_chars s) k)
  | JArr elems => Ok (indexed elems k)
  | JObj props => Ok (assoc k props)
  end.

(** [Object.keys(v)] *)
Definition Object_keys (v : jsval) : result (list string) :=
  match v with
  | JUndefined | JNull => Throw "Cannot convert undefined or null to object"
  | JBool _ | JNum _ => Ok []
  | JStr s => Ok (map pretty (seq 0 (String.length s)))
  | JArr elems => Ok (map pretty (seq 0 (length elems)))
  | JObj props => Ok (map fst props)
  end.

#[global] Instance result_ret : MRet result := @Ok.
#[global] Instance result_bind : MBind result := fun A B k r =>
  match r with
  | Ok a => k a
  | Throw e => Throw e
  end.

(** [results.flatMap(r => f(r))] for an [f] that may throw. *)
Fixpoint flatMap {A B : Type} (f : A → result (list B)) (xs : list A)
  : result (list B) :=
  match xs with
  | [] => Ok []
  | x :: rest =>
      match f x with
      | Throw m => Throw m
      | Ok ys =>
          match flatMap f rest with
          | Throw m => Throw m
          | Ok zs => Ok (ys ++ zs)
          end
      end
  end.

(** [xs.map(x => f(x))] for an [f] that may throw. *)
Fixpoint mapM {A B : Type} (f : A → result B) (xs : list A) : result (list B) :=
  match xs with
  | [] => Ok []
  | x :: rest =>
      match f x with
      | Throw m => Throw m
      | Ok y =>
          match mapM f rest with
          | Throw m => Throw m
          | Ok ys => Ok (y :: ys)
          end
      end
  end.

(** Method calls on a value whose type the scripts do not check.  The
    name of the receiver only shapes the message of the [TypeError]. *)
Definition not_a_function (receiver method : string) : string :=
  receiver +:+ "." +:+ method +:+ " is not a function".

(** [v.includes(p)]: the string method, or [Array.prototype.includes]. *)
Definition includes_method (receiver : string) (v : jsval) (p : string)
  : result bool :=
  match v with
  | JStr s => Ok (includes p s)
  | JArr elems =>
      Ok (existsb (fun e => match e with JStr s => String.eqb s p | _ => false end)
            elems)
  | _ => Throw (not_a_function receiver "includes")
  end.

(** [v.toLowerCase()] *)
Definition toLowerCase_method (receiver : string) (v : jsval) : result string :=
  match v with
  | JStr s => Ok (toLowerCase s)
  | _ => Throw (not_a_function receiver "toLowerCase")
  end.

(** [v.join(sep)] *)
Definition join_method (receiver : string) (v : jsval) (sep : string)
  : result string :=
  match v with
  | JArr elems =>
      Ok (join sep (map (fun e => if is_nullish e then "" else String_ e) elems))
  | _ => Throw (not_a_function receiver "join")
  end.

Fixpoint all_digits (s : string) : bool :=
  match s with
  | "" => true
  | String a rest => bool_decide (is_Some (Ascii.is_nat a)) && all_digits rest
  end.

(** The decimal numerals of the integers above zero. *)
Definition is_positive_decimal (s : string) : bool :=
  match s with
  | "" => false
  | String a _ => negb (bool_decide (a = "0"%char)) && all_digits s
  end.

(** [v > 0].  ToNumber is exact on numbers, booleans, [null] and
    [undefined]; of the strings only the canonical decimal integers are
    read as numbers, every other operand counts as NaN. *)
Definition gt_zero (v : jsval) : bool :=
  match v with
  | JNum n => (0 <? n)%Z
  | JBool b => b
  | JStr s => is_positive_decimal s
  | _ => false
  end.

(** [typeof v === 'object'] *)
Definition typeof_object (v : jsval) : bool :=
  match v with JNull | JArr _ | JObj _ => true | _ => false end.

(** *** [JSON.stringify(v, null, 2)] *)

Definition hex_digit (n : N) : ascii :=
  Ascii.ascii_of_N (if (n <? 10)%N then 48 + n else 87 + n).

Definition json_escape_char (a : ascii) : string :=
  match a with
  | "008"%char => "\b"
  | "009"%char => "\t"
  | "010"%char => "\n"
  | "012"%char => "\f"
  | "013"%char => "\r"
  | "034"%char => "\" +:+ DQ
  | "\"%char => "\\"
  | _ =>
      let n := Ascii.N_of_ascii a in
      if (n <? 32)%N
      then "\u00" +:+ String (hex_digit (n / 16)) (String (hex_digit (n mod 16)) "")
      else String a ""
  end.

Fixpoint json_escape (s : string) : string :=
  match s with
  | "" => ""
  | String a rest => json_escape_char a +:+ json_escape rest
  end.

Definition json_quote (s : string) : string := DQ +:+ json_escape s +:+ DQ.

(** [None] is the value [undefined], which [JSON.stringify] returns for
    [undefined] and which drops a member of an object. *)
Fixpoint JSON_serialize (indent : string) (v : jsval) : option string :=
  match v with
  | JUndefined => None
  | JNull => Some "null"
  | JBool true => Some "true"
  | JBool false => Some "false"
  | JNum n => Some (pretty n)
  | JStr s => Some (json_quote s)
  | JArr elems =>
      let inner := indent +:+ "  " in
      match elems with
      | [] => Some "[]"
      | _ =>
          Some ("[" +:+ NL +:+ inner
                +:+ join ("," +:+ NL +:+ inner)
                      (map (fun e => default "null" (JSON_serialize inner e)) elems)
                +:+ NL +:+ indent +:+ "]")
      end
  | JObj props =>
      let inner := indent +:+ "  " in
      let members :=
        omap (fun kv : string * jsval =>
                let '(k, e) := kv in
                match JSON_serialize inner e with
                | Some text => Some (json_quote k +:+ ": " +:+ text)
                | None => None
                end) props in
      match members with
      | [] => Some "{}"
      | _ =>
          Some ("{" +:+ NL +:+ inner +:+ join ("," +:+ NL +:+ inner) members
                +:+ NL +:+ indent +:+ "}")
      end
  end.

Definition JSON_stringify (v : jsval) : option string := JSON_serialize "" v.

End Js.

(** ** A reader of one CSV record

    The quoted-field grammar of RFC 4180: fields are separated by commas; a
    field that opens with a double quote runs to the next double quote that
    is not doubled, and a doubled double quote inside it stands for one.
    The scripts do not contain a reader; this one is the yardstick against
    which the writer in [downloadCSV] is measured. *)
Module Csv.

Inductive state : Type :=
| FieldStart      (* nothing of the field read yet *)
| Unquoted        (* inside a field that did not open with a quote *)
| Quoted          (* inside a quoted field *)
| QuoteSeen.      (* inside a quoted field, just after a double quote *)

(** [cur] is the text of the field read so far, [done] the fields before
    it, both in reading order. *)
Fixpoint read (st : state) (cur : string) (done : list string) (s : string)
  : option (list string) :=
  match s with
  | "" =>
      match st with
      | Quoted => None
      | _ => Some (done ++ [cur])
      end
  | String a rest =>
      match st with
      | FieldStart =>
          if decide (a = Js.dquote) then read Quoted "" done rest
          else if decide (a = ","%char) then read FieldStart "" (done ++ [""]) rest
          else read Unquoted (String a "") done rest
      | Unquoted =>
          if decide (a = ","%char) then read FieldStart "" (done ++ [cur]) rest
          else if decide (a = Js.dquote) then None
          else read Unquoted (cur +:+ String a "") done rest
      | Quoted =>
          if decide (a = Js.dquote) then read QuoteSeen cur done rest
          else read Quoted (cur +:+ String a "") done rest
      | QuoteSeen =>
          if decide (a = Js.dquote) then read Quoted (cur +:+ Js.DQ) done rest
          else if decide (a = ","%char) then read FieldStart "" (done ++ [cur]) rest
          else None
      end
  end.

Definition parse_record (line : string) : option (list string) :=
  read FieldStart "" [] line.

End Csv.

(** ** The CSV writer inside [downloadCSV]

    The loop that turns one row into one line is the same text in both
    scripts: for every header [h] the value [row[h]], or the empty string
    when that is [null] or [undefined], is converted with [String], every
    double quote in it is replaced by two, and the outcome is put between
    double quotes; the values are then joined with commas. *)
Module CsvWriter.
Import Js.

(** [String(row[h] ?? '')] *)
Definition field_text (v : jsval) : string :=
  String_ (nullish_else v (JStr "")).

(** Every double quote doubled, the whole between double quotes. *)
Definition quote_field (val : string) : string :=
  DQ +:+ replace_all dquote (DQ +:+ DQ) val +:+ DQ.

Definition row_values (headers : list string) (row : jsval) : result (list string) :=
  mapM (fun h => v ← get row h; mret (quote_field (field_text v))) headers.

Definition row_line (headers : list string) (row : jsval) : result string :=
  values ← row_values headers row;
  mret (join "," values).

(** [csvRows] after the loop over [data], started from the header line. *)
Definition csvRows (headers : list string) (data : list jsval) : result (list string) :=
  lines ← mapM (row_line headers) data;
  mret (join "," headers :: lines).

Definition file_name (now : Z) : string :=
  "query_results_" +:+ pretty now +:+ ".csv".

End CsvWriter.

(** ** The network, the clock and the state-and-exception monad *)
Module Net.
Import Js.

Inductive payload : Type :=
| NoBody
| JsonBody (v : jsval)            (* [JSON.stringify(v)] with the JSON content type *)
| FormFile (file : string).       (* a [FormData] holding the chosen file *)

Record request : Type := Request {
  method : string;
  url : string;
  body : payload
}.

(** What [await response.json()] gives: the parsed body, or the message
    of the [SyntaxError] it rejects with. *)
Record response : Type := Response {
  ok : bool;
  parsed : string + jsval
}.

(** What [await fetch(...)] gives: a response, or the message of the
    error it rejects with. *)
Inductive outcome : Type :=
| Rejected (message : string)
| Responded (r : response).

(** The page's environment: the backend, the readings of [Date.now()] and
    the strings [Math.random().toString(36).substr(2, 9)] evaluates to,
    both in the order they are asked for. *)
Record world : Type := World {
  server : request → outcome;
  Date_now : nat → Z;
  Math_random : nat → string
}.

End Net.

Module Eff.
Import Js.

(** A computation over the page state [S] that may throw. A thrown
    exception keeps the state changes made before it. *)
Definition M (S A : Type) : Type := S → result A * S.

Definition ret {S A} (a : A) : M S A := fun s => (Ok a, s).

Definition bind {S A B} (m : M S A) (k : A → M S B) : M S B :=
  fun s =>
    match m s with
    | (Ok a, s') => k a s'
    | (Throw e, s') => (Throw e, s')
    end.

Definition throw {S A} (message : string) : M S A := fun s => (Throw message, s).

(** [try { body } catch (error) { handler(error.message) }] *)
Definition try_catch {S A} (body : M S A) (handler : string → M S A) : M S A :=
  fun s =>
    match body s with
    | (Ok a, s') => (Ok a, s')
    | (Throw e, s') => handler e s'
    end.

(** A pure step that may throw. *)
Definition lift {S A} (r : result A) : M S A := fun s => (r, s).

Definition gets {S A} (f : S → A) : M S A := fun s => (Ok (f s), s).
Definition modify {S} (f : S → S) : M S unit := fun s => (Ok tt, f s).

(** The state a handler leaves behind, and whether it returned. *)
Definition exec {S A} (m : M S A) (s : S) : S := snd (m s).
Definition returns {S A} (m : M S A) (s : S) : bool :=
  match fst (m s) with Ok _ => true | Throw _ => false end.

(** The monad notations of stdpp: [x ← m; k] and [m;; k]. *)
#[global] Instance M_ret {S} : MRet (M S) := @ret S.
#[global] Instance M_bind {S} : MBind (M S) := fun A B k m => bind m k.

End Eff.

(** ** [backend/static/script.js] *)
Module Legacy.
Import Js Net Eff.

(** [setupMessage] and [importMessage]: a text and a background colour. *)
Record banner : Type := Banner {
  textContent : string;
  backgroundColor : string
}.

(** A child of [chatMessages].  [node] tells apart two elements that were
    given the same [id]. *)
Record message : Type := Message {
  node : nat;
  id : string;
  className : string;
  innerHTML : string
}.

(** What [setTimeout] has been handed: the deferred body of
    [formatResults], with the [rawData] it closes over. *)
Inductive task : Type :=
| AttachDownload (rawData : list jsval).

Record ui : Type := Ui {
  setupMessage : banner;
  importMessage : banner;
  queryDisplay : string;
  userInput : string;                        (* [userInput.value] *)
  csvFile : option string;                   (* [csvFileInput.files[0]] *)
  chatMessages : list message;
  listeners : list (nat * list jsval);       (* click listeners of download buttons *)
  timers : list (nat * task);                (* delay in ms, task *)
  alerts : list string;
  downloads : list (string * string);        (* file name, text *)
  requests : list request;                   (* every [fetch] issued so far *)
  clock : nat;                               (* readings of [Date.now()] so far *)
  nodes : nat                                (* elements created so far *)
}.

Definition initial : ui :=
  Ui (Banner "" "") (Banner "" "") "" "" None [] [] [] [] [] [] 0 0.

Definition set_setupMessage (b : banner) (s : ui) : ui :=
  Ui b (importMessage s) (queryDisplay s) (userInput s) (csvFile s)
     (chatMessages s) (listeners s) (timers s) (alerts s) (downloads s)
     (requests s) (clock s) (nodes s).
Definition set_importMessage (b : banner) (s : ui) : ui :=
  Ui (setupMessage s) b (queryDisplay s) (userInput s) (csvFile s)
     (chatMessages s) (listeners s) (timers s) (alerts s) (downloads s)
     (requests s) (clock s) (nodes s).
Definition set_queryDisplay (t : string) (s : ui) : ui :=
  Ui (setupMessage s) (importMessage s) t (userInput s) (csvFile s)
     (chatMessages s) (listeners s) (timers s) (alerts s) (downloads s)
     (requests s) (clock s) (nodes s).
Definition set_userInput (t : string) (s : ui) : ui :=
  Ui (setupMessage s) (importMessage s) (queryDisplay s) t (csvFile s)
     (chatMessages s) (listeners s) (timers s) (alerts s) (downloads s)
     (requests s) (clock s) (nodes s).
Definition set_chatMessages (ms : list message) (s : ui) : ui :=
  Ui (setupMessage s) (importMessage s) (queryDisplay s) (userInput s) (csvFile s)
     ms (listeners s) (timers s) (alerts s) (downloads s)
     (requests s) (clock s) (nodes s).
Definition set_listeners (ls : list (nat * list jsval)) (s : ui) : ui :=
  Ui (setupMessage s) (importMessage s) (queryDisplay s) (userInput s) (csvFile s)
     (chatMessages s) ls (timers s) (alerts s) (downloads s)
     (requests s) (clock s) (nodes s).
Definition set_timers (ts : list (nat * task)) (s : ui) : ui :=
  Ui (setupMessage s) (importMessage s) (queryDisplay s) (userInput s) (csvFile s)
     (chatMessages s) (listeners s) ts (alerts s) (downloads s)
     (requests s) (clock s) (nodes s).
Definition set_alerts (xs : list string) (s : ui) : ui :=
  Ui (setupMessage s) (importMessage s) (queryDisplay s) (userInput s) (csvFile s)
     (chatMessages s) (listeners s) (timers s) xs (downloads s)
     (requests s) (clock s) (nodes s).
Definition set_downloads (ds : list (string * string)) (s : ui) : ui :=
  Ui (setupMessage s) (importMessage s) (queryDisplay s) (userInput s) (csvFile s)
     (chatMessages s) (listeners s) (timers s) (alerts s) ds
     (requests s) (clock s) (nodes s).
Definition set_requests (rs : list request) (s : ui) : ui :=
  Ui (setupMessage s) (importMessage s) (queryDisplay s) (userInput s) (csvFile s)
     (chatMessages s) (listeners s) (timers s) (alerts s) (downloads s)
     rs (clock s) (nodes s).
Definition set_clock (n : nat) (s : ui) : ui :=
  Ui (setupMessage s) (importMessage s) (queryDisplay s) (userInput s) (csvFile s)
     (chatMessages s) (listeners s) (timers s) (alerts s) (downloads s)
     (requests s) n (nodes s).
Definition set_nodes (n : nat) (s : ui) : ui :=
  Ui (setupMessage s) (importMessage s) (queryDisplay s) (userInput s) (csvFile s)
     (chatMessages s) (listeners s) (timers s) (alerts s) (downloads s)
     (requests s) (clock s) n.

Section Handlers.
Variable w : world.

(** *** The platform *)

(** [await fetch(...)]: the request goes out, then the promise settles. *)
Definition fetch (r : request) : M ui response :=
  modify (fun s => set_requests (requests s ++ [r]) s);;
  match server w r with
  | Rejected e => throw e
  | Responded resp => mret resp
  end.

(** [await response.json()] *)
Definition json (r : response) : M ui jsval :=
  match parsed r with
  | inl e => throw e
  | inr v => mret v
  end.

Definition Date_now : M ui Z :=
  n ← gets clock;
  modify (set_clock (S n));;
  mret (Net.Date_now w n).

(** [document.createElement('div')] *)
Definition createElement : M ui nat :=
  n ← gets nodes;
  modify (set_nodes (S n));;
  mret n.

Definition setTimeout (t : task) (delay : nat) : M ui unit :=
  modify (fun s => set_timers (timers s ++ [(delay, t)]) s).

Definition alert (text : string) : M ui unit :=
  modify (fun s => set_alerts (alerts s ++ [text]) s).

(** Assigning to [textContent]: [null] and [undefined] clear the text. *)
Definition text_of (v : jsval) : string :=
  if is_nullish v then "" else String_ v.

(** [el.querySelector('.download-csv')] finds a button: read off the
    markup that [innerHTML] was given. *)
Definition has_download_button (m : message) : bool :=
  includes ("class=" +:+ DQ +:+ "download-csv" +:+ DQ) (innerHTML m).

(** *** Prevent HTML injection *)
Definition escapeHtml (value : jsval) : string :=
  if is_nullish value then ""
  else
    replace_all squote "&#39;"
      (replace_all dquote "&quot;"
         (replace_all ">" "&gt;"
            (replace_all "<" "&lt;"
               (replace_all "&" "&amp;" (String_ value))))).

(** *** Safe message rendering *)
Definition summary_open : string :=
  "<div class=" +:+ DQ +:+ "result-summary" +:+ DQ +:+ ">".

Definition addMessage (text : jsval) (type : string) : M ui string :=
  msg ← createElement;
  now ← Date_now;
  let id := pretty now in
  text ← match text with
         | JStr t => mret t
         | v =>
             match JSON_stringify v with
             | Some t => mret t
             | None => throw "Cannot read properties of undefined (reading 'startsWith')"
             end
         end;
  let html :=
    if startsWith summary_open text || startsWith "<table" text then text
    else "<pre>" +:+ escapeHtml (JStr text) +:+ "</pre>" in
  modify (fun s =>
            set_chatMessages
              (chatMessages s ++ [Message msg id ("message " +:+ type) html]) s);;
  mret id.

(** [document.getElementById(id)] is the first element carrying [id]. *)
Fixpoint remove_first (i : string) (ms : list message) : list message :=
  match ms with
  | [] => []
  | m :: rest => if decide (id m = i) then rest else m :: remove_first i rest
  end.

Definition removeMessage (i : string) : M ui unit :=
  modify (fun s => set_chatMessages (remove_first i (chatMessages s)) s).

(** *** Format tabular results + summary + Download button *)
Definition download_button : string :=
  NL +:+ "      <div style=" +:+ DQ +:+ "margin-top:10px; text-align:right;" +:+ DQ
  +:+ ">" +:+ NL +:+ "        <button class=" +:+ DQ +:+ "download-csv" +:+ DQ
  +:+ " style=" +:+ DQ +:+ NL +:+ "          background:#5e81f4;" +:+ NL
  +:+ "          color:#fff;" +:+ NL +:+ "          border:none;" +:+ NL
  +:+ "          border-radius:8px;" +:+ NL +:+ "          padding:6px 12px;" +:+ NL
  +:+ "          font-size:0.85rem;" +:+ NL +:+ "          cursor:pointer;" +:+ NL
  +:+ "          transition:all 0.2s ease;" +:+ NL +:+ "        " +:+ DQ
  +:+ ">⬇️ Download as CSV</button>" +:+ NL +:+ "      </div>".

(** [[...new Set(results.flatMap(r => Object.keys(r)))]] *)
Definition table_keys (results : list jsval) : result (list string) :=
  all ← flatMap Object_keys results;
  mret (new_Set all).

Definition header_cell (k : string) : string :=
  "<th>" +:+ escapeHtml (JStr k) +:+ "</th>".

Definition data_cell (r : jsval) (k : string) : result string :=
  v ← get r k;
  mret ("<td>" +:+ escapeHtml v +:+ "</td>").

(** The [forEach] that appends one [<tr>] per row to [table]. *)
Fixpoint append_rows (keys : list string) (results : list jsval) (table : string)
  : result string :=
  match results with
  | [] => mret table
  | r :: rest =>
      cells ← mapM (data_cell r) keys;
      append_rows keys rest (table +:+ "<tr>" +:+ join "" cells +:+ "</tr>")
  end.

Definition table_html (results : list jsval) (summary : jsval) : result string :=
  keys ← table_keys results;
  let table := summary_open +:+ escapeHtml summary +:+ "</div>" in
  let table :=
    table +:+ "<table><tr>" +:+ join "" (map header_cell keys) +:+ "</tr>" in
  table ← append_rows keys results table;
  let table := table +:+ "</table>" in
  mret (table +:+ download_button).

Definition formatResults (results : list jsval) (summary : jsval)
  (rawData : list jsval) : M ui string :=
  if bool_decide (length results = 0) then mret "No results found."
  else
    table ← lift (table_html results summary);
    setTimeout (AttachDownload rawData) 50;;
    mret table.

(** *** Convert JSON to CSV and trigger download *)
Definition downloadCSV (data : list jsval) : M ui unit :=
  match data with
  | [] => alert "No data to export."
  | first :: _ =>
      headers ← lift (Object_keys first);
      csvRows ← lift (CsvWriter.csvRows headers data);
      let blob := join NL csvRows in
      _ ← createElement;
      now ← Date_now;
      modify (fun s =>
                set_downloads (downloads s ++ [(CsvWriter.file_name now, blob)]) s)
  end.

(** The body [formatResults] defers by 50 ms. *)
Definition run_task (t : task) : M ui unit :=
  match t with
  | AttachDownload rawData =>
      ms ← gets chatMessages;
      match last ms with
      | None => mret tt
      | Some lastMsg =>
          if has_download_button lastMsg
          then modify (fun s => set_listeners (listeners s ++ [(node lastMsg, rawData)]) s)
          else mret tt
      end
  end.

(** *** Setup sample database *)
Definition setup_click : M ui unit :=
  modify (set_setupMessage (Banner "Setting up sample database..." "#e0f7fa"));;
  try_catch
    (response ← fetch (Request "POST" "/api/setup" NoBody);
     data ← json response;
     (if negb (ok response)
      then e ← lift (get data "error");
           throw (String_ (or_else e (JStr "Setup failed")))
      else mret tt);;
     m ← lift (get data "message");
     modify (set_setupMessage (Banner (text_of m) "#e8f5e9")))
    (fun error =>
       modify (set_setupMessage
                 (Banner ("Failed to setup database: " +:+ error) "#ffebee"))).

(** *** Handle CSV upload and import *)
Definition import_click : M ui unit :=
  file ← gets csvFile;
  match file with
  | None =>
      modify (set_importMessage (Banner "Please select a CSV file first." "#fff3e0"))
  | Some file =>
      modify (set_importMessage (Banner "Uploading and importing CSV..." "#e0f7fa"));;
      try_catch
        (response ← fetch (Request "POST" "/api/import-csv" (FormFile file));
         data ← json response;
         (if negb (ok response)
          then e ← lift (get data "error");
               throw (String_ (or_else e (JStr "CSV import failed")))
          else mret tt);;
         c ← lift (get data "collection");
         modify (set_importMessage
                   (Banner ("✅ CSV imported successfully into collection: "
                            +:+ String_ c) "#e8f5e9")))
        (fun error =>
           modify (set_importMessage
                     (Banner ("❌ Failed to import CSV: " +:+ error) "#ffebee")))
  end.

(** *** Send user query *)
Definition show_results (data : jsval) : M ui unit :=
  q ← lift (get data "query");
  (if truthy q
   then match JSON_stringify q with
        | Some t => modify (set_queryDisplay t)
        | None => modify (set_queryDisplay "")
        end
   else mret tt);;
  r ← lift (get data "result");
  sr ← lift (get data "sample_result");
  let results := or_else r (or_else sr (JArr [])) in
  rs ← lift (get data "result_summary");
  let summary := or_else rs (JStr "") in
  resultMessage ←
    match results with
    | JArr rows =>
        if bool_decide (length rows = 0)
        then mret (JStr "No results found for your query.")
        else table ← formatResults rows summary rows; mret (JStr table)
    | JNum n => mret (JStr ("Result: " +:+ String_ results))
    | _ => mret (from_option JStr JUndefined (JSON_stringify results))
    end;
  _ ← addMessage resultMessage "system";
  mret tt.

Definition sendQuery : M ui unit :=
  v ← gets userInput;
  let question := trim v in
  if bool_decide (question = "") then mret tt
  else
    _ ← addMessage (JStr question) "user";
    modify (set_userInput "");;
    loadingMsgId ← addMessage (JStr "Processing your question...") "system";
    try_catch
      (response ← fetch (Request "POST" "/api/query"
                           (JsonBody (JObj [("question", JStr question)])));
       data ← json response;
       removeMessage loadingMsgId;;
       failed ← (if negb (ok response) then mret true
                 else e ← lift (get data "error"); mret (truthy e));
       if failed : bool
       then e ← lift (get data "error");
            _ ← addMessage (JStr ("Error: " +:+ String_ e)) "error";
            mret tt
       else show_results data)
      (fun error =>
         removeMessage loadingMsgId;;
         _ ← addMessage (JStr ("Error processing your query: " +:+ error)) "error";
         mret tt).

(** *** The listeners of the page *)
Inductive event : Type :=
| ClickSetup
| ClickImport
| ClickUploadLabel
| ClickSend
| KeyPress (key : string)
| ClickDownload (n : nat).      (* the download button inside message [n] *)

(** Every listener of the button runs; what one throws is reported to the
    console and does not stop the next. *)
Fixpoint run_listeners (n : nat) (ls : list (nat * list jsval)) : M ui unit :=
  match ls with
  | [] => mret tt
  | (n', rawData) :: rest =>
      (if decide (n' = n)
       then try_catch (downloadCSV rawData) (fun _ => mret tt)
       else mret tt);;
      run_listeners n rest
  end.

Definition handle (e : event) : M ui unit :=
  match e with
  | ClickSetup => setup_click
  | ClickImport => import_click
  | ClickUploadLabel => mret tt          (* opens the file picker *)
  | ClickSend => sendQuery
  | KeyPress key => if bool_decide (key = "Enter") then sendQuery else mret tt
  | ClickDownload n => ls ← gets listeners; run_listeners n ls
  end.

End Handlers.
End Legacy.


(** ** The enhanced script: modes, toasts, processing indicator *)
Module Enhanced.
Import Js Net Eff.

Inductive mode : Type :=
| Database      (* ['database'] *)
| Serpapi.      (* ['serpapi'] *)

(** What a message shows: markup assigned to [innerHTML], or a text
    assigned to [textContent]. *)
Inductive content : Type :=
| Html (markup : string)
| Text (text : string).

Record message : Type := Message {
  node : nat;
  id : string;
  className : string;
  shown : content
}.

Record toast_box : Type := Toast {
  toast_text : string;
  toast_type : string;          (* [className] is [toast <type>] *)
  toast_hidden : bool
}.

(** What [setTimeout] has been handed. *)
Inductive task : Type :=
| AttachDownload (messageDiv : message)    (* 100 ms after [addMessage] *)
| HideToast                                (* 3000 ms after [showToast] *)
| LoadCollections.                         (* 500 ms after an import *)

Record ui : Type := Ui {
  currentMode : mode;   (* [currentMode] *)
  collections : jsval;   (* [collections] *)
  userInput : string;   (* [userInput.value] *)
  sendBtn_disabled : bool;   (* [sendBtn.disabled] *)
  csvFile : option string;   (* the file chosen in [csvFileInput] *)
  messagesWrapper : list message;   (* children of [messagesWrapper] *)
  welcome_hidden : bool;   (* [welcomeScreen] carries the class [hidden] *)
  processing_hidden : bool;   (* [processingIndicator] carries [hidden] *)
  toast : toast_box;
  collectionsList : string;   (* [collectionsList.innerHTML] *)
  messageDownloadData : gmap string (list jsval);   (* message id to raw rows *)
  listeners : list (nat * string);   (* click listeners of download buttons *)
  timers : list (nat * task);   (* delay in ms, task *)
  downloads : list (string * string);   (* file name, text *)
  requests : list request;   (* every [fetch] issued so far *)
  clock : nat;   (* readings of [Date.now()] so far *)
  dice : nat;   (* readings of [Math.random()] so far *)
  nodes : nat   (* elements created so far *)
}.

Definition set_currentMode (x : mode) (s : ui) : ui :=
  Ui x (collections s) (userInput s) (sendBtn_disabled s) (csvFile s)
     (messagesWrapper s) (welcome_hidden s) (processing_hidden s) (toast s)
     (collectionsList s) (messageDownloadData s) (listeners s) (timers s)
     (downloads s) (requests s) (clock s) (dice s) (nodes s).
Definition set_collections (x : jsval) (s : ui) : ui :=
  Ui (currentMode s) x (userInput s) (sendBtn_disabled s) (csvFile s)
     (messagesWrapper s) (welcome_hidden s) (processing_hidden s) (toast s)
     (collectionsList s) (messageDownloadData s) (listeners s) (timers s)
     (downloads s) (requests s) (clock s) (dice s) (nodes s).
Definition set_userInput (x : string) (s : ui) : ui :=
  Ui (currentMode s) (collections s) x (sendBtn_disabled s) (csvFile s)
     (messagesWrapper s) (welcome_hidden s) (processing_hidden s) (toast s)
     (collectionsList s) (messageDownloadData s) (listeners s) (timers s)
     (downloads s) (requests s) (clock s) (dice s) (nodes s).
Definition set_sendBtn_disabled (x : bool) (s : ui) : ui :=
  Ui (currentMode s) (collections s) (userInput s) x (csvFile s)
     (messagesWrapper s) (welcome_hidden s) (processing_hidden s) (toast s)
     (collectionsList s) (messageDownloadData s) (listeners s) (timers s)
     (downloads s) (requests s) (clock s) (dice s) (nodes s).
Definition set_csvFile (x : option string) (s : ui) : ui :=
  Ui (currentMode s) (collections s) (userInput s) (sendBtn_disabled s) x
     (messagesWrapper s) (welcome_hidden s) (processing_hidden s) (toast s)
     (collectionsList s) (messageDownloadData s) (listeners s) (timers s)
     (downloads s) (requests s) (clock s) (dice s) (nodes s).
Definition set_messagesWrapper (x : list message) (s : ui) : ui :=
  Ui (currentMode s) (collections s) (userInput s) (sendBtn_disabled s)
     (csvFile s) x (welcome_hidden s) (processing_hidden s) (toast s)
     (collectionsList s) (messageDownloadData s) (listeners s) (timers s)
     (downloads s) (requests s) (clock s) (dice s) (nodes s).
Definition set_welcome_hidden (x : bool) (s : ui) : ui :=
  Ui (currentMode s) (collections s) (userInput s) (sendBtn_disabled s)
     (csvFile s) (messagesWrapper s) x (processing_hidden s) (toast s)
     (collectionsList s) (messageDownloadData s) (listeners s) (timers s)
     (downloads s) (requests s) (clock s) (dice s) (nodes s).
Definition set_processing_hidden (x : bool) (s : ui) : ui :=
  Ui (currentMode s) (collections s) (userInput s) (sendBtn_disabled s)
     (csvFile s) (messagesWrapper s) (welcome_hidden s) x (toast s)
     (collectionsList s) (messageDownloadData s) (listeners s) (timers s)
     (downloads s) (requests s) (clock s) (dice s) (nodes s).
Definition set_toast (x : toast_box) (s : ui) : ui :=
  Ui (currentMode s) (collections s) (userInput s) (sendBtn_disabled s)
     (csvFile s) (messagesWrapper s) (welcome_hidden s) (processing_hidden s)
     x (collectionsList s) (messageDownloadData s) (listeners s) (timers s)
     (downloads s) (requests s) (clock s) (dice s) (nodes s).
Definition set_collectionsList (x : string) (s : ui) : ui :=
  Ui (currentMode s) (collections s) (userInput s) (sendBtn_disabled s)
     (csvFile s) (messagesWrapper s) (welcome_hidden s) (processing_hidden s)
     (toast s) x (messageDownloadData s) (listeners s) (timers s)
     (downloads s) (requests s) (clock s) (dice s) (nodes s).
Definition set_messageDownloadData (x : gmap string (list jsval)) (s : ui) : ui :=
  Ui (currentMode s) (collections s) (userInput s) (sendBtn_disabled s)
     (csvFile s) (messagesWrapper s) (welcome_hidden s) (processing_hidden s)
     (toast s) (collectionsList s) x (listeners s) (timers s) (downloads s)
     (requests s) (clock s) (dice s) (nodes s).
Definition set_listeners (x : list (nat * string)) (s : ui) : ui :=
  Ui (currentMode s) (collections s) (userInput s) (sendBtn_disabled s)
     (csvFile s) (messagesWrapper s) (welcome_hidden s) (processing_hidden s)
     (toast s) (collectionsList s) (messageDownloadData s) x (timers s)
     (downloads s) (requests s) (clock s) (dice s) (nodes s).
Definition set_timers (x : list (nat * task)) (s : ui) : ui :=
  Ui (currentMode s) (collections s) (userInput s) (sendBtn_disabled s)
     (csvFile s) (messagesWrapper s) (welcome_hidden s) (processing_hidden s)
     (toast s) (collectionsList s) (messageDownloadData s) (listeners s) x
     (downloads s) (requests s) (clock s) (dice s) (nodes s).
Definition set_downloads (x : list (string * string)) (s : ui) : ui :=
  Ui (currentMode s) (collections s) (userInput s) (sendBtn_disabled s)
     (csvFile s) (messagesWrapper s) (welcome_hidden s) (processing_hidden s)
     (toast s) (collectionsList s) (messageDownloadData s) (listeners s)
     (timers s) x (requests s) (clock s) (dice s) (nodes s).
Definition set_requests (x : list request) (s : ui) : ui :=
  Ui (currentMode s) (collections s) (userInput s) (sendBtn_disabled s)
     (csvFile s) (messagesWrapper s) (welcome_hidden s) (processing_hidden s)
     (toast s) (collectionsList s) (messageDownloadData s) (listeners s)
     (timers s) (downloads s) x (clock s) (dice s) (nodes s).
Definition set_clock (x : nat) (s : ui) : ui :=
  Ui (currentMode s) (collections s) (userInput s) (sendBtn_disabled s)
     (csvFile s) (messagesWrapper s) (welcome_hidden s) (processing_hidden s)
     (toast s) (collectionsList s) (messageDownloadData s) (listeners s)
     (timers s) (downloads s) (requests s) x (dice s) (nodes s).
Definition set_dice (x : nat) (s : ui) : ui :=
  Ui (currentMode s) (collections s) (userInput s) (sendBtn_disabled s)
     (csvFile s) (messagesWrapper s) (welcome_hidden s) (processing_hidden s)
     (toast s) (collectionsList s) (messageDownloadData s) (listeners s)
     (timers s) (downloads s) (requests s) (clock s) x (nodes s).
Definition set_nodes (x : nat) (s : ui) : ui :=
  Ui (currentMode s) (collections s) (userInput s) (sendBtn_disabled s)
     (csvFile s) (messagesWrapper s) (welcome_hidden s) (processing_hidden s)
     (toast s) (collectionsList s) (messageDownloadData s) (listeners s)
     (timers s) (downloads s) (requests s) (clock s) (dice s) x.

Definition initial : ui :=
  Ui Database (JArr []) "" false None [] false true (Toast "" "" true) ""
     ∅ [] [] [] [] 0 0 0.

Section Handlers.
Variable w : world.

(** *** The platform *)
Definition fetch (r : request) : M ui response :=
  modify (fun s => set_requests (requests s ++ [r]) s);;
  match server w r with
  | Rejected e => throw e
  | Responded resp => mret resp
  end.

Definition json (r : response) : M ui jsval :=
  match parsed r with
  | inl e => throw e
  | inr v => mret v
  end.

Definition Date_now : M ui Z :=
  n ← gets clock;
  modify (set_clock (S n));;
  mret (Net.Date_now w n).

(** [Math.random().toString(36).substr(2, 9)] *)
Definition random_suffix : M ui string :=
  n ← gets dice;
  modify (set_dice (S n));;
  mret (Net.Math_random w n).

Definition createElement : M ui nat :=
  n ← gets nodes;
  modify (set_nodes (S n));;
  mret n.

Definition setTimeout (t : task) (delay : nat) : M ui unit :=
  modify (fun s => set_timers (timers s ++ [(delay, t)]) s).

(** Assigning to [textContent]: [null] and [undefined] clear the text. *)
Definition text_of (v : jsval) : string :=
  if is_nullish v then "" else String_ v.

(** [messageDiv.querySelector('.download-csv')] finds a button: read off
    the markup that [innerHTML] was given. *)
Definition has_download_button (m : message) : bool :=
  match shown m with
  | Html markup => includes ("class=" +:+ DQ +:+ "download-csv" +:+ DQ) markup
  | Text _ => false
  end.

(** *** Utility functions *)

(** The markup of a text node, as [innerHTML] serialises it. *)
Definition text_node_char (a : ascii) : string :=
  match a with
  | "&"%char => "&amp;"
  | "<"%char => "&lt;"
  | ">"%char => "&gt;"
  | "160"%char => "&nbsp;"
  | _ => String a ""
  end.

Fixpoint text_node_markup (s : string) : string :=
  match s with
  | "" => ""
  | String a rest => text_node_char a +:+ text_node_markup rest
  end.

(** [div.textContent = String(text); return div.innerHTML] *)
Definition escapeHtml (text : jsval) : string :=
  if is_nullish text then "" else text_node_markup (String_ text).

(** *** Toast notifications *)
Definition showToast (message type : string) : M ui unit :=
  modify (set_toast (Toast message type false));;
  setTimeout HideToast 3000.

(** *** Send button state *)
Definition updateSendButton : M ui unit :=
  v ← gets userInput;
  let hasText := bool_decide (0 < String.length (trim v)) in
  modify (set_sendBtn_disabled (negb hasText)).

(** *** Mode switching *)
Definition switchMode (m : mode) : M ui unit :=
  modify (set_currentMode m);;
  modify (set_userInput "");;
  updateSendButton.

(** *** Message handling *)
Definition is_markup (text : string) : bool :=
  includes "<table" text
  || includes ("<div class=" +:+ DQ +:+ "result-summary" +:+ DQ +:+ ">") text.

Definition addMessage (text : jsval) (type : string) (downloadData : jsval)
  : M ui message :=
  modify (set_welcome_hidden true);;
  n ← createElement;
  now ← Date_now;
  suffix ← random_suffix;
  let messageId := "msg-" +:+ pretty now +:+ "-" +:+ suffix in
  let body :=
    match text with
    | JStr t => if is_markup t then Html t else Text t
    | v => Text (text_of v)
    end in
  let messageDiv := Message n messageId ("message " +:+ type) body in
  modify (fun s => set_messagesWrapper (messagesWrapper s ++ [messageDiv]) s);;
  match downloadData with
  | JArr rows =>
      modify (fun s =>
                set_messageDownloadData (<[messageId := rows]> (messageDownloadData s)) s)
  | _ => mret tt
  end;;
  setTimeout (AttachDownload messageDiv) 100;;
  mret messageDiv.

Definition showProcessing : M ui unit := modify (set_processing_hidden false).
Definition hideProcessing : M ui unit := modify (set_processing_hidden true).

(** *** Format results *)
Definition excludeKeys : list string := ["_id"; "_source"].

(** [[...new Set(results.flatMap(r => Object.keys(r).filter(k => !excludeKeys.includes(k))))]] *)
Definition table_keys (results : list jsval) : result (list string) :=
  all ← flatMap (fun r => ks ← Object_keys r;
                          mret (filter (fun k => k ∉ excludeKeys) ks)) results;
  mret (new_Set all).

(** Order keys: [_collection] first, then others, [ai_summary] and [Link]
    last. *)
Definition order_keys (keys : list string) : list string :=
  let orderedKeys :=
    filter (fun k => k ≠ "_source" ∧ k ≠ "ai_summary" ∧ k ≠ "Link" ∧ k ≠ "_id")
      keys in
  let orderedKeys :=
    if bool_decide ("_collection" ∈ keys)
    then "_collection" :: filter (fun k => k ≠ "_collection") orderedKeys
    else orderedKeys in
  let orderedKeys :=
    if bool_decide ("ai_summary" ∈ keys) then orderedKeys ++ ["ai_summary"]
    else orderedKeys in
  if bool_decide ("Link" ∈ keys) then orderedKeys ++ ["Link"] else orderedKeys.

Definition getColumnWidth (key : string) : string :=
  if bool_decide (key = "_collection") then "120px"
  else if bool_decide (key = "Link") then "150px"
  else if bool_decide (key = "Year" ∨ key = "Date") then "100px"
  else if bool_decide (key = "Title" ∨ key = "Name") then "200px"
  else if bool_decide (key = "Abstract" ∨ key = "Description" ∨ key = "ai_summary")
       then "300px"
  else if bool_decide (key = "Inventor" ∨ key = "Assignee" ∨ key = "Organization")
       then "180px"
  else "150px".

Definition header_cell (k : string) : string :=
  let headerStyle :=
    if bool_decide (k = "_collection" ∨ k = "ai_summary" ∨ k = "Link")
    then "background: var(--gradient-accent); color: white;"
    else "background: var(--input-bg);" in
  let width := getColumnWidth k in
  "<th style=" +:+ DQ +:+ headerStyle
  +:+ " padding: 0.5rem 0.75rem; border: 1px solid var(--border-color); text-"
  +:+ "align: left; font-weight: 600; font-size: 0.85rem; white-space: nowrap"
  +:+ "; width: " +:+ width +:+ "; min-width: " +:+ width +:+ "; max-width: "
  +:+ width +:+ ";" +:+ DQ +:+ ">" +:+ escapeHtml (JStr k) +:+ "</th>".

(** Helper function to truncate text. *)
Definition truncateText (text : jsval) (maxLength : nat) : string :=
  if negb (truthy text) then ""
  else
    let str := String_ text in
    if bool_decide (String.length str ≤ maxLength) then str
    else substring0 maxLength str +:+ "...".

Definition truncateText_default (text : jsval) : string := truncateText text 150.

Definition longFields : list string :=
  ["Title"; "Name"; "Inventor"; "Assignee"; "Organization"].

Definition not_available : string :=
  "<span style=" +:+ DQ +:+ "color: var(--text-secondary); font-style: italic;"
  +:+ DQ +:+ ">N/A</span>".

Definition view_link (linkText : string) : string :=
  "<a href=" +:+ DQ +:+ escapeHtml (JStr linkText) +:+ DQ +:+ " target=" +:+ DQ
  +:+ "_blank" +:+ DQ +:+ " rel=" +:+ DQ +:+ "noopener noreferrer" +:+ DQ
  +:+ " style=" +:+ DQ
  +:+ "color: var(--accent-light); text-decoration: underline; white-space: n"
  +:+ "owrap;" +:+ DQ +:+ ">View</a>".

Definition title_attr (full : string) : string :=
  "title=" +:+ DQ +:+ escapeHtml (JStr full) +:+ DQ.

(** The three variables a data cell ends up with. *)
Record cell : Type := Cell {
  cellContent : string;
  cellStyle : string;
  titleAttr : string
}.

(** The budget branch shared by four cases: truncate [text] to [maxLen],
    escape, and keep the whole text as a tooltip when it was cut. *)
Definition truncated_cell (text : string) (maxLen : nat) (style : string) : cell :=
  let truncated := truncateText (JStr text) maxLen in
  Cell (escapeHtml (JStr truncated)) style
       (if bool_decide (maxLen < String.length text) then title_attr text else "").

Definition render_cell (k : string) (value : jsval) : cell :=
  if is_nullish value || is_empty_string value then
    Cell not_available "" ""
  else if bool_decide (k = "Link") && truthy value then
    Cell (view_link (String_ value)) "" ""
  else if bool_decide (k = "_collection") then
    Cell (escapeHtml (JStr (String_ value)))
         ("background: rgba(99, 102, 241, 0.1); font-weight: 600; color: var(--ac"
          +:+ "cent-light); white-space: nowrap;") ""
  else if bool_decide (k = "ai_summary") && truthy value then
    truncated_cell (String_ value) 250
      ("font-style: italic; color: var(--text-secondary); line-height: 1.4; wh"
       +:+ "ite-space: normal; word-wrap: break-word;")
  else if bool_decide (k = "Abstract" ∨ k = "Description") then
    truncated_cell (String_ value) 250
      "line-height: 1.4; white-space: normal; word-wrap: break-word;"
  else if typeof_object value then
    match JSON_stringify value with
    | Some jsonStr =>
        truncated_cell jsonStr 150
          ("font-family: var(--font-mono); font-size: 0.8rem; white-space: normal;"
           +:+ " word-wrap: break-word;")
    | None => Cell (escapeHtml (JStr (String_ value))) "" ""
    end
  else
    let isLongField := bool_decide (k ∈ longFields) in
    let maxLen := if isLongField then 80 else 50 in
    truncated_cell (String_ value) maxLen
      (if isLongField then "white-space: normal; word-wrap: break-word;" else "").

Definition data_cell (r : jsval) (k : string) : result string :=
  value ← get r k;
  let c := render_cell k value in
  let width := getColumnWidth k in
  let wrapStyle :=
    if bool_decide (k = "Abstract" ∨ k = "Description" ∨ k = "ai_summary"
                    ∨ k ∈ longFields)
    then "white-space: normal; word-wrap: break-word;"
    else "white-space: nowrap; overflow: hidden; text-overflow: ellipsis;" in
  mret ("<td " +:+ titleAttr c +:+ " style=" +:+ DQ +:+ cellStyle c +:+ " "
        +:+ wrapStyle
        +:+ " padding: 0.5rem 0.75rem; border: 1px solid var(--border-color); width"
        +:+ ": " +:+ width +:+ "; min-width: " +:+ width +:+ "; max-width: " +:+ width
        +:+ "; vertical-align: top;" +:+ DQ +:+ ">" +:+ cellContent c +:+ "</td>").

(** The [forEach] over the rows, appending to [html]. *)
Fixpoint append_rows (orderedKeys : list string) (results : list jsval)
  (html : string) : result string :=
  match results with
  | [] => mret html
  | r :: rest =>
      cells ← mapM (data_cell r) orderedKeys;
      append_rows orderedKeys rest
        (html +:+ "<tr>" +:+ join "" cells +:+ "</tr>")
  end.

Definition summary_block (summary : jsval) : string :=
  if truthy summary
  then
    let escapedSummary := escapeHtml summary in
    let formattedSummary := replace_all "010" "<br>" escapedSummary in
    "<div class=" +:+ DQ +:+ "result-summary" +:+ DQ +:+ " style=" +:+ DQ
    +:+ "margin-bottom: 1rem; padding: 1rem; background: rgba(99, 102, 241, 0.1"
    +:+ "); border-radius: 0.5rem; border-left: 3px solid var(--accent-color); "
    +:+ "line-height: 1.6;" +:+ DQ +:+ ">" +:+ formattedSummary +:+ "</div>"
  else "".

(** Show collections searched info if available and not already in the
    summary. *)
Definition collections_block (summary data : jsval) : result string :=
  if negb (truthy data) then mret ""
  else
    cs ← get data "collections_searched";
    if negb (truthy cs) then mret ""
    else
      len ← get cs "length";
      if negb (gt_zero len) then mret ""
      else
        collectionsInfo ← join_method "data.collections_searched" cs ", ";
        mentioned ←
          (if negb (truthy summary) then mret false
           else lower ← toLowerCase_method "summary" summary;
                mret (includes "collection" lower));
        if negb mentioned
        then mret ("<div style=" +:+ DQ
                   +:+ "margin-bottom: 1rem; padding: 0.75rem; background: rgba(52, 211, 153, "
                   +:+ "0.1); border-radius: 0.5rem; font-size: 0.9rem; color: var(--text-seco"
                   +:+ "ndary);" +:+ DQ +:+ ">" +:+ NL
                   +:+ "                    <strong>Collections searched:</strong> "
                   +:+ escapeHtml (JStr collectionsInfo) +:+ NL +:+ "      </div>")
        else mret "".

Definition download_button : string :=
  NL +:+ "            <div style=" +:+ DQ +:+ "margin-top: 1rem; text-align: right;"
  +:+ DQ +:+ ">" +:+ NL +:+ "                <button class=" +:+ DQ
  +:+ "download-csv" +:+ DQ +:+ " style=" +:+ DQ +:+ NL
  +:+ "                    background: var(--gradient-accent);" +:+ NL
  +:+ "                    color: white;" +:+ NL
  +:+ "                    border: none;" +:+ NL
  +:+ "                    border-radius: 0.5rem;" +:+ NL
  +:+ "                    padding: 0.75rem 1.5rem;" +:+ NL
  +:+ "                    font-size: 0.9rem;" +:+ NL
  +:+ "                    font-weight: 600;" +:+ NL
  +:+ "                    cursor: pointer;" +:+ NL
  +:+ "                    transition: all 0.3s ease;" +:+ NL
  +:+ "                    box-shadow: 0 4px 12px rgba(99, 102, 241, 0.3);" +:+ NL
  +:+ "                " +:+ DQ +:+ ">⬇️ Download as CSV</button>" +:+ NL
  +:+ "            </div>".

Definition table_html (results : list jsval) (summary data : jsval)
  : result string :=
  keys ← table_keys results;
  let orderedKeys := order_keys keys in
  let html := "" in
  let html := html +:+ summary_block summary in
  block ← collections_block summary data;
  let html := html +:+ block in
  let html :=
    html +:+ "<div style=" +:+ DQ
    +:+ "overflow-x: auto; margin: 1rem 0; border-radius: 0.5rem;" +:+ DQ +:+ ">" in
  let html :=
    html +:+ "<table style=" +:+ DQ
    +:+ "width: 100%; border-collapse: collapse; min-width: 800px; font-size: 0"
    +:+ ".9rem;" +:+ DQ +:+ ">" in
  let html := html +:+ "<tr>" in
  let html := fold_left (fun html k => html +:+ header_cell k) orderedKeys html in
  let html := html +:+ "</tr>" in
  html ← append_rows orderedKeys results html;
  let html := html +:+ "</table>" in
  let html := html +:+ "</div>" in
  mret (html +:+ download_button).

Definition formatResults (results summary data : jsval) : result jsval :=
  match results with
  | JArr (r :: rest) => html ← table_html (r :: rest) summary data; mret (JStr html)
  | _ => mret (or_else summary (JStr "No results found."))
  end.

(** *** CSV download *)
Definition downloadCSV (data : list jsval) : M ui unit :=
  if bool_decide (length data = 0) then showToast "No data to export." "error"
  else
    all ← lift (flatMap Object_keys data);
    let headers := new_Set all in
    csvRows ← lift (CsvWriter.csvRows headers data);
    let blob := join NL csvRows in
    _ ← createElement;
    now ← Date_now;
    modify (fun s =>
              set_downloads (downloads s ++ [(CsvWriter.file_name now, blob)]) s);;
    showToast "CSV downloaded successfully!" "success".

(** *** Collections loading *)
Definition collection_item (c : jsval) : result string :=
  name ← get c "name";
  count ← get c "count";
  mret ("<div class=" +:+ DQ +:+ "collection-item" +:+ DQ +:+ ">" +:+ NL
        +:+ "                        <span>" +:+ escapeHtml name +:+ "</span>" +:+ NL
        +:+ "                        <span class=" +:+ DQ +:+ "count" +:+ DQ +:+ ">"
        +:+ String_ count +:+ "</span>" +:+ NL +:+ "                    </div>").

Definition collections_error : string :=
  "<div class=" +:+ DQ +:+ "collection-item empty" +:+ DQ
  +:+ ">Error loading collections</div>".

Definition loadCollections : M ui unit :=
  try_catch
    (response ← fetch (Request "GET" "/api/collections" NoBody);
     (if negb (ok response) then throw "Failed to fetch collections" else mret tt);;
     data ← json response;
     c ← lift (get data "collections");
     let cs := or_else c (JArr []) in
     modify (set_collections cs);;
     len ← lift (get cs "length");
     match len with
     | JNum 0 =>
         modify (set_collectionsList
                   ("<div class=" +:+ DQ +:+ "collection-item empty" +:+ DQ
                    +:+ ">No data loaded</div>"))
     | _ =>
         match cs with
         | JArr items =>
             rendered ← lift (mapM collection_item items);
             modify (set_collectionsList (join "" rendered))
         | _ => throw (not_a_function "collections" "map")
         end
     end)
    (fun error => modify (set_collectionsList collections_error)).

(** *** CSV upload: the [change] listener of the file input *)
Definition csv_change (file : option string) : M ui unit :=
  modify (set_csvFile file);;
  match file with
  | None => mret tt
  | Some file =>
      showToast "Uploading CSV..." "info";;
      try_catch
        (response ← fetch (Request "POST" "/api/import-csv" (FormFile file));
         data ← json response;
         (if negb (ok response)
          then e ← lift (get data "error");
               throw (String_ (or_else e (JStr "Upload failed")))
          else mret tt);;
         c ← lift (get data "collection");
         showToast ("✅ CSV imported: " +:+ String_ c) "success";;
         modify (set_csvFile None);;
         setTimeout LoadCollections 500)
        (fun error => showToast ("❌ Upload failed: " +:+ error) "error")
  end.

(** *** Send message *)

(** [data.result || data.patents || data.sample_result || []] *)
Definition select_results (data : jsval) : result jsval :=
  r ← get data "result";
  p ← get data "patents";
  sr ← get data "sample_result";
  mret (or_else r (or_else p (or_else sr (JArr [])))).

(** [data.result_summary || data.summary || ''] *)
Definition select_summary (data : jsval) : result jsval :=
  rs ← get data "result_summary";
  sm ← get data "summary";
  mret (or_else rs (or_else sm (JStr ""))).

(** Enhanced summary with collection information. *)
Definition enhance_summary (m : mode) (summary collectionsSearched : jsval)
  : result jsval :=
  len ← get collectionsSearched "length";
  if gt_zero len && match m with Database => true | Serpapi => false end
  then
    mentioned ← includes_method "summary" summary "collection";
    if negb mentioned
    then joined ← join_method "collectionsSearched" collectionsSearched ", ";
         mret (JStr (String_ summary +:+ NL +:+ NL +:+ "Searched " +:+ String_ len
                     +:+ " collection(s): " +:+ joined))
    else mret summary
  else mret summary.

Definition no_results_message (collectionsSearched : jsval) : result string :=
  len ← get collectionsSearched "length";
  if gt_zero len
  then joined ← join_method "collectionsSearched" collectionsSearched ", ";
       mret ("No results found in " +:+ String_ len +:+ " collection(s): " +:+ joined
             +:+ ". Try rephrasing your query.")
  else mret "No results found. Try rephrasing your query.".

(** What [sendMessage] does with a parsed body.  The first read is the one
    of the debug logging, which already fails on a [null] body. *)
Definition show_response (data : jsval) : M ui unit :=
  _ ← lift (get data "result");
  e ← lift (get data "error");
  if truthy e
  then _ ← addMessage (JStr ("Error: " +:+ String_ e)) "error" JNull; mret tt
  else
    results ← lift (select_results data);
    summary ← lift (select_summary data);
    cs ← lift (get data "collections_searched");
    let collectionsSearched := or_else cs (JArr []) in
    m ← gets currentMode;
    enhancedSummary ← lift (enhance_summary m summary collectionsSearched);
    match results with
    | JArr (r :: rest) =>
        formattedMessage ← lift (formatResults results enhancedSummary data);
        _ ← addMessage formattedMessage "assistant" results;
        mret tt
    | _ =>
        if truthy enhancedSummary
        then _ ← addMessage enhancedSummary "assistant" JNull; mret tt
        else
          noResultsMsg ← lift (no_results_message collectionsSearched);
          _ ← addMessage (JStr noResultsMsg) "assistant" JNull;
          mret tt
    end.

Definition query_request (m : mode) (question : string) : request :=
  match m with
  | Database =>
      Request "POST" "/api/query"
        (JsonBody (JObj [("question", JStr question); ("mode", JStr "database")]))
  | Serpapi =>
      Request "POST" "/api/search"
        (JsonBody (JObj [("query", JStr question); ("limit", JNum 10)]))
  end.

Definition sendMessage : M ui unit :=
  v ← gets userInput;
  let question := trim v in
  if bool_decide (question = "") then mret tt
  else
    _ ← addMessage (JStr question) "user" JNull;
    modify (set_userInput "");;
    updateSendButton;;
    showProcessing;;
    try_catch
      (m ← gets currentMode;
       response ← fetch (query_request m question);
       hideProcessing;;
       if negb (ok response)
       then
         errorData ← try_catch (json response)
                       (fun _ => mret (JObj [("error", JStr "Unknown error")]));
         e ← lift (get errorData "error");
         _ ← addMessage
               (JStr ("Error: " +:+ String_ (or_else e (JStr "Request failed"))))
               "error" JNull;
         mret tt
       else
         parsed ← try_catch (data ← json response; mret (Some data))
                    (fun jsonError =>
                       _ ← addMessage
                             (JStr ("Error: Failed to parse server response. "
                                    +:+ jsonError)) "error" JNull;
                       mret None);
         match parsed with
         | None => mret tt
         | Some data => show_response data
         end)
      (fun error =>
         hideProcessing;;
         _ ← addMessage (JStr ("Error: " +:+ error)) "error" JNull;
         mret tt).

(** *** New chat *)
Definition new_chat : M ui unit :=
  modify (set_messagesWrapper []);;
  modify (set_welcome_hidden false);;
  modify (set_userInput "");;
  updateSendButton.

(** *** Deferred work *)
Definition run_task (t : task) : M ui unit :=
  match t with
  | AttachDownload messageDiv =>
      if has_download_button messageDiv
      then modify (fun s =>
                     set_listeners (listeners s ++ [(node messageDiv, id messageDiv)]) s)
      else mret tt
  | HideToast =>
      modify (fun s =>
                set_toast (Toast (toast_text (toast s)) (toast_type (toast s)) true) s)
  | LoadCollections => loadCollections
  end.

(** The click listener [addMessage] attaches to a download button. *)
Definition download_click (messageId : string) : M ui unit :=
  data ← gets (fun s => messageDownloadData s !! messageId);
  match data with
  | Some data => downloadCSV data
  | None => showToast "No data available for download" "error"
  end.

Fixpoint run_listeners (n : nat) (ls : list (nat * string)) : M ui unit :=
  match ls with
  | [] => mret tt
  | (n', messageId) :: rest =>
      (if decide (n' = n)
       then try_catch (download_click messageId) (fun _ => mret tt)
       else mret tt);;
      run_listeners n rest
  end.

(** *** The listeners of the page.  The listeners that only restyle
    (the height of the text area, the side bar on small screens) touch
    nothing of [ui] and are left out. *)
Inductive event : Type :=
| ClickModeDatabase
| ClickModeSerpapi
| Input (value : string)                 (* the user edits the text area *)
| KeyDown (key : string) (shiftKey : bool)
| ClickSend
| ChangeFile (file : option string)
| ClickNewChat
| ClickDownload (n : nat).               (* the download button inside message [n] *)

Definition handle (e : event) : M ui unit :=
  match e with
  | ClickModeDatabase => switchMode Database
  | ClickModeSerpapi => switchMode Serpapi
  | Input value => modify (set_userInput value);; updateSendButton
  | KeyDown key shiftKey =>
      if bool_decide (key = "Enter") && negb shiftKey
      then disabled ← gets sendBtn_disabled;
           if disabled : bool then mret tt else sendMessage
      else mret tt
  | ClickSend =>
      (* a disabled button does not dispatch [click] *)
      disabled ← gets sendBtn_disabled;
      if disabled : bool then mret tt else sendMessage
  | ChangeFile file => csv_change file
  | ClickNewChat => new_chat
  | ClickDownload n => ls ← gets listeners; run_listeners n ls
  end.

(** *** Initialization *)
Definition init : M ui unit :=
  loadCollections;;
  updateSendButton.

End Handlers.
End Enhanced.

(** ** Definitions that follow the words of the specification

    Each of these restates, in its own terms, what the specification says a
    function of the scripts computes; the theorems below compare them with
    the functions translated from the source. *)
Module Spec.
Import Js.

(** The keys of a list in the order of their first occurrence. *)
Fixpoint first_occurrences (xs : list string) : list string :=
  match xs with
  | [] => []
  | x :: rest => x :: filter (fun y => y ≠ x) (first_occurrences rest)
  end.

(** A string that is empty or consists only of white space. *)
Fixpoint blank (s : string) : bool :=
  match s with
  | "" => true
  | String a rest => is_whitespace a && blank rest
  end.

(** The text of [n] copies of one character. *)
Fixpoint copies (n : nat) (a : ascii) : string :=
  match n with
  | 0 => ""
  | S n' => String a (copies n' a)
  end.

(** Whether a character occurs in a string. *)
Fixpoint occurs (a : ascii) (s : string) : bool :=
  match s with
  | "" => false
  | String b rest => bool_decide (a = b) || occurs a rest
  end.

(** The column order of the enhanced table, in the words of the
    specification: [_id] and [_source] are never columns, [_collection]
    comes first when some row has it, [ai_summary] and then [Link] come
    last when some row has them, every other key keeps the place of its
    first occurrence.  [all] lists the keys of the rows, row after row. *)
Definition special_keys : list string :=
  ["_id"; "_source"; "_collection"; "ai_summary"; "Link"].

Definition column_order (all : list string) : list string :=
  (if bool_decide ("_collection" ∈ all) then ["_collection"] else [])
  ++ first_occurrences (filter (fun k => k ∉ special_keys) all)
  ++ (if bool_decide ("ai_summary" ∈ all) then ["ai_summary"] else [])
  ++ (if bool_decide ("Link" ∈ all) then ["Link"] else []).

(** HTML escaping in one pass: each of the five special characters becomes
    its entity, every other character stays. *)
Definition entity (a : ascii) : string :=
  if decide (a = "&"%char) then "&amp;"
  else if decide (a = "<"%char) then "&lt;"
  else if decide (a = ">"%char) then "&gt;"
  else if decide (a = dquote) then "&quot;"
  else if decide (a = squote) then "&#39;"
  else String a "".

Fixpoint escape (s : string) : string :=
  match s with
  | "" => ""
  | String a rest => entity a +:+ escape rest
  end.

Definition html_special (a : ascii) : bool :=
  bool_decide (a = "&"%char) || bool_decide (a = "<"%char)
  || bool_decide (a = ">"%char) || bool_decide (a = dquote)
  || bool_decide (a = squote).

(** Text in which none of [<], [>], the two quotes occurs, and [&] occurs
    only as the first character of one of the five entities. *)
Inductive escaped : string → Prop :=
| escaped_nil : escaped ""
| escaped_plain (a : ascii) (s : string) :
    html_special a = false → escaped s → escaped (String a s)
| escaped_entity (e s : string) :
    e ∈ ["&amp;"; "&lt;"; "&gt;"; "&quot;"; "&#39;"] →
    escaped s → escaped (e +:+ s).

(** The character budget of a cell of the enhanced table. *)
Definition cell_budget (k : string) (value : jsval) : nat :=
  if bool_decide (k ∈ ["ai_summary"; "Abstract"; "Description"]) then 250
  else if typeof_object value then 150
  else if bool_decide (k ∈ Enhanced.longFields) then 80
  else 50.

(** A cell shows the placeholder, the link, or the escaped form of a text
    of at most budget plus three characters. *)
Definition cell_within_budget (k : string) (value : jsval) : Prop :=
  Enhanced.cellContent (Enhanced.render_cell k value) = Enhanced.not_available
  ∨ (∃ link, Enhanced.cellContent (Enhanced.render_cell k value)
             = Enhanced.view_link link)
  ∨ (∃ text,
       Enhanced.cellContent (Enhanced.render_cell k value)
       = Enhanced.escapeHtml (JStr text)
       ∧ String.length text ≤ cell_budget k value + 3).

(** The text of the exported file for a list of row objects: the header
    line is the union of the keys of all rows, each row gives one line of
    quoted fields. *)
Definition csv_text (rows : list (list (string * jsval))) : string :=
  let headers := new_Set (concat (map (map fst) rows)) in
  join NL
    (join "," headers
     :: map (fun props =>
               join ","
                 (map (fun h => CsvWriter.quote_field
                                  (CsvWriter.field_text (assoc h props)))
                    headers))
          rows).

(** The first truthy value of a list, or [default]. *)
Fixpoint first_truthy (vs : list jsval) (default : jsval) : jsval :=
  match vs with
  | [] => default
  | v :: rest => if truthy v then v else first_truthy rest default
  end.

(** The result set as the specification words it: [result] if present,
    otherwise [sample_result] in database mode and [patents] in search
    mode, otherwise empty. *)
Definition claimed_results (m : Enhanced.mode) (props : list (string * jsval))
  : jsval :=
  first_truthy
    [assoc "result" props;
     match m with
     | Enhanced.Database => assoc "sample_result" props
     | Enhanced.Serpapi => assoc "patents" props
     end]
    (JArr []).

End Spec.

(** ** Measuring what a handler does to the page *)
Module Traffic.
Import Js Net Eff.

(** [m] makes the measure [size] of the page state grow by at most [n]. *)
Definition grows {S A : Type} (size : S → nat) (n : nat) (m : M S A) : Prop :=
  ∀ s, size (exec m s) ≤ size s + n.

(** [m] leaves the component [proj] of the page state as it was. *)
Definition keeps {S A X : Type} (proj : S → X) (m : M S A) : Prop :=
  ∀ s, proj (exec m s) = proj s.

(** [Q] holds of the completion and the final state of [m] run from [s]. *)
Definition post {S A : Type} (m : M S A) (s : S) (Q : result A → S → Prop)
  : Prop :=
  Q (m s).1 (m s).2.

(** The requests issued so far, counted. *)
Definition legacy_sent (s : Legacy.ui) : nat := length (Legacy.requests s).
Definition enhanced_sent (s : Enhanced.ui) : nat := length (Enhanced.requests s).

(** The pending reloads of the collections list. *)
Definition is_reload (t : nat * Enhanced.task) : bool :=
  match t.2 with
  | Enhanced.LoadCollections => true
  | _ => false
  end.
Definition reloads (ts : list (nat * Enhanced.task)) : nat :=
  length (List.filter is_reload ts).
Definition enhanced_reloads (s : Enhanced.ui) : nat := reloads (Enhanced.timers s).

(** The timers fire one after the other; what one throws is reported and
    does not stop the next. *)
Fixpoint legacy_fire (ts : list (nat * Legacy.task)) : M Legacy.ui unit :=
  match ts with
  | [] => mret tt
  | (_, t) :: rest =>
      try_catch (Legacy.run_task t) (fun _ => mret tt);;
      legacy_fire rest
  end.

Fixpoint enhanced_fire (w : world) (ts : list (nat * Enhanced.task))
  : M Enhanced.ui unit :=
  match ts with
  | [] => mret tt
  | (_, t) :: rest =>
      try_catch (Enhanced.run_task w t) (fun _ => mret tt);;
      enhanced_fire w rest
  end.

(** One user action, followed to its end: the handler runs, then the
    timers it has set fire. *)
Definition legacy_settle (w : world) (e : Legacy.event) (s : Legacy.ui)
  : Legacy.ui :=
  let s1 := exec (Legacy.handle w e) s in
  exec (legacy_fire (drop (length (Legacy.timers s)) (Legacy.timers s1))) s1.

Definition enhanced_settle (w : world) (e : Enhanced.event) (s : Enhanced.ui)
  : Enhanced.ui :=
  let s1 := exec (Enhanced.handle w e) s in
  exec (enhanced_fire w (drop (length (Enhanced.timers s)) (Enhanced.timers s1))) s1.

(** *** Failed requests *)

(** The request did not come back with a readable success: [fetch]
    rejected, the status was not ok, or the body did not parse. *)
Definition transport_failure (o : outcome) : Prop :=
  match o with
  | Rejected _ => True
  | Responded r => ok r = false ∨ ∃ e, parsed r = inl e
  end.

(** An ok response whose body carries a truthy [error] field. *)
Definition error_body (o : outcome) : Prop :=
  ∃ r data e,
    o = Responded r ∧ ok r = true ∧ parsed r = inr data
    ∧ get data "error" = Ok e ∧ truthy e = true.

Definition failure (o : outcome) : Prop := transport_failure o ∨ error_body o.

(** The last chat message is an error message. *)
Definition legacy_error_shown (s : Legacy.ui) : Prop :=
  ∃ m text,
    last (Legacy.chatMessages s) = Some m
    ∧ Legacy.className m = "message error"
    ∧ Legacy.innerHTML m = "<pre>" +:+ Legacy.escapeHtml (JStr text) +:+ "</pre>"
    ∧ startsWith "Error" text = true.

Definition enhanced_error_shown (s : Enhanced.ui) : Prop :=
  ∃ m text,
    last (Enhanced.messagesWrapper s) = Some m
    ∧ Enhanced.className m = "message error"
    ∧ (Enhanced.shown m = Enhanced.Text text ∨ Enhanced.shown m = Enhanced.Html text)
    ∧ startsWith "Error: " text = true.

Definition setup_request : request := Request "POST" "/api/setup" NoBody.
Definition import_request (file : string) : request :=
  Request "POST" "/api/import-csv" (FormFile file).
Definition legacy_query_request (question : string) : request :=
  Request "POST" "/api/query" (JsonBody (JObj [("question", JStr question)])).
Definition collections_request : request :=
  Request "GET" "/api/collections" NoBody.

(** The two measures of the enhanced page the theorems count. *)
Definition counted (size : Enhanced.ui → nat) : Prop :=
  size = enhanced_sent ∨ size = enhanced_reloads.

End Traffic.

(** ** Character data as a browser reads it back

    The scripts hand escaped text to [innerHTML]; what the user then sees is
    the text the HTML parser makes of it.  This reader resolves the
    character references the two [escapeHtml] functions can write and
    leaves every other character, an ampersand that opens no such reference
    included, as it is.  The scripts contain no such reader; it is the
    yardstick for what an escaped text displays. *)
Module Html.
Import Js.

Definition reference (name : string) : option ascii :=
  if decide (name = "amp") then Some "&"%char
  else if decide (name = "lt") then Some "<"%char
  else if decide (name = "gt") then Some ">"%char
  else if decide (name = "quot") then Some dquote
  else if decide (name = "#39") then Some squote
  else if decide (name = "nbsp") then Some "160"%char
  else None.

(** [pending] is the text read since an ampersand that is still open,
    [out] the characters made out so far. *)
Fixpoint read (pending : option string) (out : string) (s : string) : string :=
  match s with
  | "" =>
      match pending with
      | None => out
      | Some p => out +:+ "&" +:+ p
      end
  | String a rest =>
      match pending with
      | None =>
          if decide (a = "&"%char) then read (Some "") out rest
          else read None (out +:+ String a "") rest
      | Some p =>
          if decide (a = ";"%char) then
            match reference p with
            | Some c => read None (out +:+ String c "") rest
            | None => read None (out +:+ "&" +:+ p +:+ ";") rest
            end
          else if decide (a = "&"%char) then read (Some "") (out +:+ "&" +:+ p) rest
          else read (Some (p +:+ String a "")) out rest
      end
  end.

Definition decode (markup : string) : string := read None "" markup.

End Html.

(** ** The typewriter of the restyled script

    The restyled copy of [script.js] shows the parsed query one character
    at a time: [typeWriter(element, text, i)] appends [text.charAt(i)] and
    hands its own continuation to [setTimeout].  The only element it is
    called on is [queryDisplay]. *)
Module Restyled.
Import Js.

(** [queryDisplay.textContent] and the calls [setTimeout] holds, as
    [(text, i)], in the order they were set; all have the same delay, so
    they fire in that order. *)
Record display : Type := Display {
  textContent : string;
  timers : list (string * nat)
}.

(** [text.charAt(i)] *)
Definition charAt (i : nat) (text : string) : string :=
  match String.get i text with
  | Some a => String a ""
  | None => ""
  end.

Definition typeWriter (text : string) (i : nat) (d : display) : display :=
  let d := if bool_decide (i = 0) then Display "" (timers d) else d in
  if bool_decide (i < String.length text)
  then Display (textContent d +:+ charAt i text) (timers d ++ [(text, S i)])
  else d.

(** The timer set first fires. *)
Definition fire (d : display) : display :=
  match timers d with
  | [] => d
  | (text, i) :: rest => typeWriter text i (Display (textContent d) rest)
  end.

End Restyled.

(** ** Properties of whole handlers *)
Module Page.
Import Js Net Eff.

(** [m] returns normally from every state. *)
Definition never_throws {S A : Type} (m : M S A) : Prop :=
  ∀ s, returns m s = true.

(** Every run of [m] takes a state to one that [R] relates to it. *)
Definition steps {S A : Type} (R : S → S → Prop) (m : M S A) : Prop :=
  ∀ s, R s (exec m s).

(** The log [log] has only been appended to, with requests that satisfy
    [P]. *)
Definition log_extended {S : Type} (log : S → list request)
  (P : request → Prop) (s s1 : S) : Prop :=
  ∃ new, log s1 = log s ++ new ∧ Forall P new.

(** The requests the scripts are written to send. *)
Definition legacy_endpoint (r : request) : Prop :=
  r = Request "POST" "/api/setup" NoBody
  ∨ (∃ file, r = Request "POST" "/api/import-csv" (FormFile file))
  ∨ (∃ question,
       r = Request "POST" "/api/query" (JsonBody (JObj [("question", JStr question)]))).

Definition enhanced_endpoint (r : request) : Prop :=
  (∃ question,
     r = Request "POST" "/api/query"
           (JsonBody (JObj [("question", JStr question); ("mode", JStr "database")])))
  ∨ (∃ question,
       r = Request "POST" "/api/search"
             (JsonBody (JObj [("query", JStr question); ("limit", JNum 10)])))
  ∨ (∃ file, r = Request "POST" "/api/import-csv" (FormFile file))
  ∨ r = Request "GET" "/api/collections" NoBody.

(** No message id has lost its rows. *)
Definition rows_kept (s s1 : Enhanced.ui) : Prop :=
  dom (Enhanced.messageDownloadData s) ⊆ dom (Enhanced.messageDownloadData s1).

(** The send button is disabled exactly when the input is blank. *)
Definition button_in_sync (s : Enhanced.ui) : Prop :=
  Enhanced.sendBtn_disabled s = bool_decide (trim (Enhanced.userInput s) = "").

(** The input and the button, the two things [button_in_sync] reads. *)
Definition input_and_button (s : Enhanced.ui) : string * bool :=
  (Enhanced.userInput s, Enhanced.sendBtn_disabled s).

(** The states the enhanced page can be in: the script has initialised,
    then user actions are handled and pending timers fire, in any order. *)
Inductive reachable (w : world) : Enhanced.ui → Prop :=
| reachable_init (s0 : Enhanced.ui) :
    reachable w (exec (Enhanced.init w) s0)
| reachable_event (e : Enhanced.event) (s : Enhanced.ui) :
    reachable w s → reachable w (exec (Enhanced.handle w e) s)
| reachable_timer (delay : nat) (t : Enhanced.task) (s : Enhanced.ui) :
    reachable w s → (delay, t) ∈ Enhanced.timers s →
    reachable w (exec (Enhanced.run_task w t) s).

(** [m] puts exactly one message that satisfies [P] at the end of the chat
    when it returns, and leaves the chat as it was when it throws. *)
Definition replies_once {S X A : Type} (chat : S → list X) (P : X → Prop)
  (m : M S A) : Prop :=
  ∀ s,
    match m s with
    | (Ok _, s1) => ∃ reply, chat s1 = chat s ++ [reply] ∧ P reply
    | (Throw _, s1) => chat s1 = chat s
    end.

(** The two kinds of message a question is answered with. *)
Definition legacy_reply (m : Legacy.message) : Prop :=
  Legacy.className m = "message system" ∨ Legacy.className m = "message error".

Definition enhanced_reply (m : Enhanced.message) : Prop :=
  Enhanced.className m = "message assistant"
  ∨ Enhanced.className m = "message error".

(** Once the welcome screen is hidden it stays hidden. *)
Definition welcome_stays_hidden (s s1 : Enhanced.ui) : Prop :=
  Enhanced.welcome_hidden s = true → Enhanced.welcome_hidden s1 = true.

(** No message of the chat carries the id [i]. *)
Definition unused_id (i : string) (ms : list Legacy.message) : Prop :=
  Forall (fun m => Legacy.id m ≠ i) ms.

End Page.

(** * Theorems *)

(** ** Strings *)

Lemma app_cons_s (x : ascii) (a b : string) :
  String x a +:+ b = String x (a +:+ b).
Proof. reflexivity. Qed.

Lemma app_nil_l_s (b : string) : "" +:+ b = b.
Proof. reflexivity. Qed.

(** Push the appends of a goal to the right. *)
Ltac norm_app := rewrite ?app_cons_s, ?app_nil_l_s.

Lemma app_assoc_s (a b c : string) : (a +:+ b) +:+ c = a +:+ (b +:+ c).
Proof. induction a as [|x a IH]; norm_app; [done | by rewrite IH]. Qed.

Lemma app_nil_r_s (a : string) : a +:+ "" = a.
Proof. induction a as [|x a IH]; norm_app; [done | by rewrite IH]. Qed.

Lemma length_app_s (a b : string) :
  String.length (a +:+ b) = String.length a + String.length b.
Proof. induction a as [|x a IH]; norm_app; simpl; [done | by rewrite IH]. Qed.

Lemma occurs_app (c : ascii) (a b : string) :
  Spec.occurs c (a +:+ b) = Spec.occurs c a || Spec.occurs c b.
Proof.
  induction a as [|x a IH]; norm_app; simpl; [done |].
  rewrite IH. by rewrite orb_assoc.
Qed.

(** ** The CSV writer against the CSV reader *)

(** Reading an escaped field up to its closing quote restores the field. *)
Lemma read_quoted_field (v cur rest : string) (done : list string) :
  Csv.read Csv.Quoted cur done
    (Js.replace_all Js.dquote (Js.DQ +:+ Js.DQ) v +:+ Js.DQ +:+ rest)
  = Csv.read Csv.QuoteSeen (cur +:+ v) done rest.
Proof.
  revert cur. induction v as [|a v IH]; intros cur.
  - simpl. unfold Js.DQ. norm_app. simpl. by rewrite app_nil_r_s.
  - simpl. destruct (decide (a = Js.dquote)) as [->|Hne].
    + unfold Js.DQ at 1 2. norm_app. simpl.
      rewrite IH. unfold Js.DQ. by rewrite app_assoc_s.
    + norm_app. simpl. rewrite decide_False by done.
      rewrite IH. by rewrite app_assoc_s.
Qed.

Lemma read_quote_field (v rest : string) (done : list string) :
  Csv.read Csv.FieldStart "" done (CsvWriter.quote_field v +:+ rest)
  = Csv.read Csv.QuoteSeen v done rest.
Proof.
  unfold CsvWriter.quote_field. rewrite !app_assoc_s.
  unfold Js.DQ at 1. norm_app. simpl.
  by rewrite read_quoted_field.
Qed.

Lemma read_field_separator (cur rest : string) (done : list string) :
  Csv.read Csv.QuoteSeen cur done ("," +:+ rest)
  = Csv.read Csv.FieldStart "" (done ++ [cur]) rest.
Proof. reflexivity. Qed.

Lemma join_cons2 (sep x y : string) (ys : list string) :
  Js.join sep (x :: y :: ys) = x +:+ sep +:+ Js.join sep (y :: ys).
Proof. reflexivity. Qed.

Lemma read_quoted_fields (v : string) (vs done : list string) :
  Csv.read Csv.FieldStart "" done
    (Js.join "," (map CsvWriter.quote_field (v :: vs)))
  = Some (done ++ v :: vs).
Proof.
  revert v done. induction vs as [|v' vs IH]; intros v done.
  - change (Csv.read Csv.FieldStart "" done (CsvWriter.quote_field v)
            = Some (done ++ [v])).
    rewrite <- (app_nil_r_s (CsvWriter.quote_field v)).
    by rewrite read_quote_field.
  - rewrite !map_cons, join_cons2, read_quote_field.
    rewrite read_field_separator.
    rewrite <- map_cons, IH. by rewrite <- app_assoc.
Qed.

(** [mapM] succeeds exactly when every call does, with the results in
    order. *)
Lemma mapM_Ok_Forall2 {A B : Type} (f : A → Js.result B) (xs : list A) (ys : list B) :
  Js.mapM f xs = Js.Ok ys ↔ Forall2 (fun x y => f x = Js.Ok y) xs ys.
Proof.
  revert ys. induction xs as [|x xs IH]; intros ys; simpl.
  - split.
    + intros [= <-]. constructor.
    + intros H. by inversion H.
  - destruct (f x) as [y|e] eqn:Hx.
    + destruct (Js.mapM f xs) as [ys'|e] eqn:Hxs.
      * split.
        -- intros [= <-]. constructor; [done | by apply IH].
        -- intros H. inversion H as [|? y0 ? ys0 Hy Hys]; subst.
           apply IH in Hys. congruence.
      * split; [done |].
        intros H. inversion H as [|? y0 ? ys0 Hy Hys]; subst.
        apply IH in Hys. congruence.
    + split; [done |].
      intros H. inversion H; subst. congruence.
Qed.

Lemma row_values_get (headers : list string) (row : Js.jsval) (quoted : list string) :
  CsvWriter.row_values headers row = Js.Ok quoted →
  ∃ values,
    Js.mapM (Js.get row) headers = Js.Ok values
    ∧ quoted = map CsvWriter.quote_field (map CsvWriter.field_text values).
Proof.
  unfold CsvWriter.row_values. revert quoted.
  induction headers as [|h hs IH]; intros quoted; simpl.
  - intros [= <-]. by exists [].
  - destruct (Js.get row h) as [v|e]; simpl; [|done].
    destruct (Js.mapM _ hs) as [qs|e] eqn:Hqs; [|done].
    intros [= <-].
    destruct (IH qs eq_refl) as (vs & -> & ->).
    by exists (v :: vs).
Qed.

Lemma row_line_round_trip (headers : list string) (row : Js.jsval) (line : string) :
  headers ≠ [] →
  CsvWriter.row_line headers row = Js.Ok line →
  ∃ values,
    Js.mapM (Js.get row) headers = Js.Ok values
    ∧ Csv.parse_record line = Some (map CsvWriter.field_text values).
Proof.
  intros Hne. unfold CsvWriter.row_line.
  destruct (CsvWriter.row_values headers row) as [quoted|e] eqn:Hq; simpl; [|done].
  intros [= <-].
  destruct (row_values_get _ _ _ Hq) as (values & Hv & ->).
  exists values. split; [done |].
  destruct values as [|v vs].
  - apply mapM_Ok_Forall2 in Hv. inversion Hv; subst. done.
  - unfold Csv.parse_record.
    rewrite (map_cons CsvWriter.field_text).
    by rewrite read_quoted_fields.
Qed.

(** C2.  Round trip of the quoting scheme of [downloadCSV]: for every list of
    rows and every non-empty list of headers, each line the writer produces
    for a row is read back by the quoted-field CSV reader as exactly the
    stringified field values of that row ([String(row[h] ?? '')] for every
    header [h], in order), whatever commas, double quotes or line breaks the
    values contain. *)
Theorem downloadCSV_quoting_round_trip
  (headers : list string) (data : list Js.jsval) (lines : list string) :
  headers ≠ [] →
  Js.mapM (CsvWriter.row_line headers) data = Js.Ok lines →
  Forall2
    (fun row line =>
       ∃ values,
         Js.mapM (Js.get row) headers = Js.Ok values
         ∧ Csv.parse_record line = Some (map CsvWriter.field_text values))
    data lines.
Proof.
  intros Hne Hlines.
  apply mapM_Ok_Forall2 in Hlines.
  induction Hlines as [|row line data lines Hrow _ IH]; constructor; [|done].
  by apply row_line_round_trip.
Qed.

Lemma downloadCSV_quoting_round_trip_witness :
  Forall2
    (fun row line =>
       ∃ values,
         Js.mapM (Js.get row) ["name"; "note"] = Js.Ok values
         ∧ Csv.parse_record line = Some (map CsvWriter.field_text values))
    [Js.JObj [("name", Js.JStr "Ada, Countess");
              ("note", Js.JStr ("said " +:+ Js.DQ +:+ "hi" +:+ Js.DQ))]]
    [Js.DQ +:+ "Ada, Countess" +:+ Js.DQ +:+ "," +:+ Js.DQ +:+ "said "
     +:+ Js.DQ +:+ Js.DQ +:+ "hi" +:+ Js.DQ +:+ Js.DQ +:+ Js.DQ].
Proof.
  apply (downloadCSV_quoting_round_trip ["name"; "note"]
           [Js.JObj [("name", Js.JStr "Ada, Countess");
                     ("note", Js.JStr ("said " +:+ Js.DQ +:+ "hi" +:+ Js.DQ))]]);
    [discriminate | reflexivity].
Defined.

(** ** [new Set] keeps first occurrences *)

Lemma filter_ext_in {A : Type} (P Q : A → Prop)
  `{∀ x, Decision (P x)} `{∀ x, Decision (Q x)} (l : list A) :
  (∀ x, x ∈ l → (P x ↔ Q x)) → filter P l = filter Q l.
Proof.
  induction l as [|x l IH]; intros HPQ; [done |].
  rewrite !filter_cons.
  rewrite IH by (intros y Hy; apply HPQ; by right).
  destruct (decide (P x)) as [HP|HP], (decide (Q x)) as [HQ|HQ]; try done.
  - exfalso. apply HQ. apply HPQ; [by left | done].
  - exfalso. apply HP. apply HPQ; [by left | done].
Qed.

Lemma elem_of_first_occurrences (x : string) (xs : list string) :
  x ∈ Spec.first_occurrences xs ↔ x ∈ xs.
Proof.
  induction xs as [|y xs IH]; simpl; [done |].
  rewrite !elem_of_cons, list_elem_of_filter, IH.
  destruct (decide (x = y)); naive_solver.
Qed.

Lemma NoDup_first_occurrences (xs : list string) :
  NoDup (Spec.first_occurrences xs).
Proof.
  induction xs as [|y xs IH]; simpl; [constructor |].
  constructor.
  - rewrite list_elem_of_filter. naive_solver.
  - by apply NoDup_filter.
Qed.

Lemma first_occurrences_filter (P : string → Prop) `{∀ x, Decision (P x)}
  (xs : list string) :
  Spec.first_occurrences (filter P xs) = filter P (Spec.first_occurrences xs).
Proof.
  induction xs as [|y xs IH]; [done |].
  rewrite filter_cons. simpl. destruct (decide (P y)) as [HP|HP].
  - simpl. rewrite filter_cons_True by done.
    rewrite IH. f_equal.
    rewrite !list_filter_filter. apply list_filter_iff. naive_solver.
  - rewrite filter_cons_False by done.
    rewrite IH, list_filter_filter.
    apply list_filter_iff. intros x. naive_solver.
Qed.

Lemma fold_Set_add (xs acc : list string) :
  fold_left Js.Set_add xs acc
  = acc ++ Spec.first_occurrences (filter (fun x => x ∉ acc) xs).
Proof.
  revert acc. induction xs as [|x xs IH]; intros acc; simpl.
  - by rewrite app_nil_r.
  - unfold Js.Set_add at 2. rewrite filter_cons.
    destruct (decide (x ∈ acc)) as [Hin|Hnin].
    + rewrite decide_False by naive_solver. apply IH.
    + rewrite decide_True by done. simpl.
      rewrite IH, <- app_assoc. simpl. do 2 f_equal.
      rewrite <- !first_occurrences_filter, list_filter_filter.
      f_equal. apply list_filter_iff. intros y.
      rewrite not_elem_of_app, list_elem_of_singleton. naive_solver.
Qed.

(** [[...new Set(xs)]] is [xs] without the later copies of each element. *)
Lemma new_Set_first_occurrences (xs : list string) :
  Js.new_Set xs = Spec.first_occurrences xs.
Proof.
  unfold Js.new_Set. rewrite fold_Set_add. simpl. f_equal.
  induction xs as [|x xs IH]; [done |].
  rewrite filter_cons_True by apply not_elem_of_nil.
  by rewrite IH.
Qed.

Lemma elem_of_new_Set (x : string) (xs : list string) :
  x ∈ Js.new_Set xs ↔ x ∈ xs.
Proof. rewrite new_Set_first_occurrences. apply elem_of_first_occurrences. Qed.

Lemma NoDup_new_Set (xs : list string) : NoDup (Js.new_Set xs).
Proof. rewrite new_Set_first_occurrences. apply NoDup_first_occurrences. Qed.

(** ** The column order of the enhanced table *)

Lemma flatMap_keys_filter (P : string → Prop) `{∀ x, Decision (P x)}
  (results : list Js.jsval) :
  Js.flatMap (fun r => ks ← Js.Object_keys r; mret (filter P ks)) results
  = (all ← Js.flatMap Js.Object_keys results; mret (filter P all)).
Proof.
  induction results as [|r rest IH]; [done |].
  simpl. destruct (Js.Object_keys r) as [ks|e]; simpl; [|done].
  rewrite IH.
  destruct (Js.flatMap Js.Object_keys rest) as [all|e]; simpl; [|done].
  by rewrite filter_app.
Qed.

Lemma table_keys_all (results : list Js.jsval) (keys : list string) :
  Enhanced.table_keys results = Js.Ok keys →
  ∃ all,
    Js.flatMap Js.Object_keys results = Js.Ok all
    ∧ keys = Js.new_Set (filter (fun k => k ∉ Enhanced.excludeKeys) all).
Proof.
  unfold Enhanced.table_keys. rewrite flatMap_keys_filter.
  destruct (Js.flatMap Js.Object_keys results) as [all|e]; simpl; [|done].
  intros [= <-]. by exists all.
Qed.

Lemma order_keys_column_order (all : list string) :
  Enhanced.order_keys
    (Js.new_Set (filter (fun k => k ∉ Enhanced.excludeKeys) all))
  = Spec.column_order all.
Proof.
  rewrite new_Set_first_occurrences, first_occurrences_filter.
  unfold Enhanced.order_keys, Spec.column_order.
  set (F := Spec.first_occurrences all).
  assert (Hmem : ∀ k, k ∉ Enhanced.excludeKeys →
                 bool_decide (k ∈ filter (fun k => k ∉ Enhanced.excludeKeys) F)
                 = bool_decide (k ∈ all)).
  { intros k Hk. apply bool_decide_ext. rewrite list_elem_of_filter.
    unfold F. rewrite elem_of_first_occurrences. naive_solver. }
  rewrite (Hmem "_collection"), (Hmem "ai_summary"), (Hmem "Link")
    by (apply (bool_decide_unpack _); vm_compute; exact I).
  rewrite first_occurrences_filter. fold F.
  assert (Hmid :
    (if bool_decide ("_collection" ∈ all)
     then "_collection"
          :: filter (fun k => k ≠ "_collection")
               (filter (fun k => k ≠ "_source" ∧ k ≠ "ai_summary"
                                 ∧ k ≠ "Link" ∧ k ≠ "_id")
                  (filter (fun k => k ∉ Enhanced.excludeKeys) F))
     else filter (fun k => k ≠ "_source" ∧ k ≠ "ai_summary"
                           ∧ k ≠ "Link" ∧ k ≠ "_id")
            (filter (fun k => k ∉ Enhanced.excludeKeys) F))
    = (if bool_decide ("_collection" ∈ all) then ["_collection"] else [])
      ++ filter (fun k => k ∉ Spec.special_keys) F).
  { case_bool_decide as Hc; simpl.
    - f_equal. rewrite !list_filter_filter. apply list_filter_iff.
      intros k. unfold Enhanced.excludeKeys, Spec.special_keys.
      rewrite !not_elem_of_cons. naive_solver.
    - rewrite list_filter_filter. apply filter_ext_in.
      intros k Hk. unfold Enhanced.excludeKeys, Spec.special_keys.
      rewrite !not_elem_of_cons.
      assert (k ≠ "_collection").
      { intros ->. apply Hc. unfold F in Hk.
        by apply elem_of_first_occurrences. }
      naive_solver. }
  rewrite Hmid.
  repeat case_bool_decide; simpl; by rewrite <- ?app_assoc, ?app_nil_r.
Qed.



(** ** Running the monad *)

(** Unfold the monad operations and compute. *)
Ltac run_monad :=
  unfold Eff.exec, Eff.returns, mbind, mret,
    Eff.M_bind, Eff.M_ret, Eff.bind, Eff.ret, Eff.lift, Eff.modify,
    Eff.gets, Eff.throw, Eff.try_catch in *;
  simpl in *.

(** ** [downloadCSV] *)

Lemma flatMap_keys_objects (rows : list (list (string * Js.jsval))) :
  Js.flatMap Js.Object_keys (map Js.JObj rows)
  = Js.Ok (concat (map (map fst) rows)).
Proof.
  induction rows as [|r rows IH]; [done |].
  simpl. by rewrite IH.
Qed.

Lemma mapM_total {A B : Type} (f : A → Js.result B) (g : A → B) (xs : list A) :
  (∀ x, f x = Js.Ok (g x)) → Js.mapM f xs = Js.Ok (map g xs).
Proof.
  intros Hf. induction xs as [|x xs IH]; [done |].
  simpl. by rewrite Hf, IH.
Qed.

Lemma row_line_object (headers : list string) (props : list (string * Js.jsval)) :
  CsvWriter.row_line headers (Js.JObj props)
  = Js.Ok (Js.join ","
             (map (fun h => CsvWriter.quote_field (CsvWriter.field_text (Js.assoc h props)))
                headers)).
Proof.
  unfold CsvWriter.row_line, CsvWriter.row_values.
  assert (H : Js.mapM
                (fun h => v ← Js.get (Js.JObj props) h;
                          mret (CsvWriter.quote_field (CsvWriter.field_text v)))
                headers
              = Js.Ok (map (fun h => CsvWriter.quote_field
                                       (CsvWriter.field_text (Js.assoc h props)))
                         headers)).
  { by apply mapM_total. }
  by rewrite H.
Qed.

Lemma csvRows_objects (headers : list string) (rows : list (list (string * Js.jsval))) :
  CsvWriter.csvRows headers (map Js.JObj rows)
  = Js.Ok (Js.join "," headers
           :: map (fun props =>
                     Js.join ","
                       (map (fun h => CsvWriter.quote_field
                                        (CsvWriter.field_text (Js.assoc h props)))
                          headers))
                rows).
Proof.
  unfold CsvWriter.csvRows.
  assert (H : Js.mapM (CsvWriter.row_line headers) (map Js.JObj rows)
              = Js.Ok (map (fun props =>
                              Js.join ","
                                (map (fun h => CsvWriter.quote_field
                                                 (CsvWriter.field_text (Js.assoc h props)))
                                   headers))
                         rows)).
  { induction rows as [|r rows IH]; [done |].
    simpl. rewrite row_line_object. simpl. by rewrite IH. }
  by rewrite H.
Qed.

(** The enhanced [downloadCSV] does what the specification says of the
    export: for a non-empty list of row objects the header line is made of
    the keys of all rows, each once, in the order of first occurrence; every
    field of every row is quoted by [CsvWriter.quote_field]; the file is
    named [query_results_<Date.now()>.csv]. *)
Lemma enhanced_downloadCSV_export
  (w : Net.world) (row : list (string * Js.jsval))
  (rows : list (list (string * Js.jsval))) (s : Enhanced.ui) :
  let data := row :: rows in
  let headers := Js.new_Set (concat (map (map fst) data)) in
  Enhanced.downloads (Eff.exec (Enhanced.downloadCSV w (map Js.JObj data)) s)
  = Enhanced.downloads s
    ++ [(CsvWriter.file_name (Net.Date_now w (Enhanced.clock s)),
         Js.join Js.NL
           (Js.join "," headers
            :: map (fun props =>
                      Js.join ","
                        (map (fun h => CsvWriter.quote_field
                                         (CsvWriter.field_text (Js.assoc h props)))
                           headers))
                 data))]
  ∧ NoDup headers
  ∧ ∀ k, k ∈ headers ↔ ∃ props, props ∈ data ∧ k ∈ map fst props.
Proof.
  intros data headers. split; [|split].
  - unfold Enhanced.downloadCSV.
    rewrite bool_decide_eq_false_2 by done.
    pose proof (flatMap_keys_objects data) as Hkeys.
    pose proof (csvRows_objects headers data) as Hrows.
    run_monad. unfold data in Hkeys. simpl in Hkeys. rewrite Hkeys.
    unfold headers, data in Hrows. simpl in Hrows. rewrite Hrows.
    reflexivity.
  - apply NoDup_new_Set.
  - intros k. unfold headers. rewrite elem_of_new_Set.
    rewrite list_elem_of_In, in_concat. split.
    + intros (ks & Hks & Hk). apply in_map_iff in Hks as (props & <- & Hp).
      exists props. by rewrite !list_elem_of_In.
    + intros (props & Hp & Hk). exists (map fst props).
      rewrite !list_elem_of_In in *. split; [|done].
      apply in_map_iff. by exists props.
Qed.

(** ** [escapeHtml] of [script.js] *)

Lemma replace_all_app (c : ascii) (b x y : string) :
  Js.replace_all c b (x +:+ y) = Js.replace_all c b x +:+ Js.replace_all c b y.
Proof.
  induction x as [|a x IH]; norm_app; simpl; [done |].
  by rewrite IH, app_assoc_s.
Qed.

(** The five replacements in a row amount to one pass over the text. *)
Lemma legacy_escape_chain (s : string) :
  Js.replace_all Js.squote "&#39;"
    (Js.replace_all Js.dquote "&quot;"
       (Js.replace_all ">" "&gt;"
          (Js.replace_all "<" "&lt;" (Js.replace_all "&" "&amp;" s))))
  = Spec.escape s.
Proof.
  induction s as [|a s IH]; [done |].
  simpl Js.replace_all at 5. rewrite !replace_all_app, IH.
  simpl Spec.escape. f_equal.
  unfold Spec.entity.
  destruct (decide (a = "&"%char)) as [->|H1]; [done |].
  destruct (decide (a = "<"%char)) as [->|H2]; [done |].
  destruct (decide (a = ">"%char)) as [->|H3]; [done |].
  destruct (decide (a = Js.dquote)) as [->|H4]; [done |].
  destruct (decide (a = Js.squote)) as [->|H5]; [done |].
  simpl. by repeat (rewrite decide_False by done; simpl).
Qed.

Lemma legacy_escapeHtml_one_pass (v : Js.jsval) :
  Legacy.escapeHtml v
  = if Js.is_nullish v then "" else Spec.escape (Js.String_ v).
Proof.
  unfold Legacy.escapeHtml. destruct (Js.is_nullish v); [done |].
  apply legacy_escape_chain.
Qed.

Lemma escape_escaped (s : string) : Spec.escaped (Spec.escape s).
Proof.
  induction s as [|a s IH]; simpl; [constructor |].
  unfold Spec.entity.
  destruct (decide (a = "&"%char)) as [->|H1];
    [apply Spec.escaped_entity; [set_solver | done] |].
  destruct (decide (a = "<"%char)) as [->|H2];
    [apply Spec.escaped_entity; [set_solver | done] |].
  destruct (decide (a = ">"%char)) as [->|H3];
    [apply Spec.escaped_entity; [set_solver | done] |].
  destruct (decide (a = Js.dquote)) as [->|H4];
    [apply Spec.escaped_entity; [set_solver | done] |].
  destruct (decide (a = Js.squote)) as [->|H5];
    [apply Spec.escaped_entity; [set_solver | done] |].
  norm_app. apply Spec.escaped_plain; [|done].
  unfold Spec.html_special.
  by rewrite !bool_decide_eq_false_2.
Qed.

Lemma escape_no_markup (c : ascii) (s : string) :
  c ∈ ["<"%char; ">"%char; Js.dquote; Js.squote] →
  Spec.occurs c (Spec.escape s) = false.
Proof.
  intros Hc. induction s as [|a s IH]; [done |].
  simpl. rewrite occurs_app, IH, orb_false_r.
  unfold Spec.entity.
  repeat (destruct (decide _) as [->|?];
          [clear -Hc; set_unfold; destruct Hc as [->|[->|[->|[->|[]]]]]; done |]).
  simpl. rewrite orb_false_r. apply bool_decide_eq_false_2.
  set_unfold. naive_solver.
Qed.

(** The string-replacing [escapeHtml] returns text without [<], [>] and
    quotes, in which every [&] opens an entity it wrote itself. *)
Lemma legacy_escapeHtml_safe (v : Js.jsval) :
  Spec.escaped (Legacy.escapeHtml v)
  ∧ ∀ c, c ∈ ["<"%char; ">"%char; Js.dquote; Js.squote] →
         Spec.occurs c (Legacy.escapeHtml v) = false.
Proof.
  rewrite legacy_escapeHtml_one_pass. destruct (Js.is_nullish v).
  - split; [constructor | done].
  - split; [apply escape_escaped | intros c Hc; by apply escape_no_markup].
Qed.

Lemma join_empty_cons (x : string) (xs : list string) :
  Js.join "" (x :: xs) = x +:+ Js.join "" xs.
Proof. destruct xs; simpl; [by rewrite app_nil_r_s | done]. Qed.

Lemma data_cells_escape (r : Js.jsval) (keys cells : list string) :
  Js.mapM (Legacy.data_cell r) keys = Js.Ok cells →
  ∃ values,
    Js.mapM (Js.get r) keys = Js.Ok values
    ∧ cells = map (fun v => "<td>" +:+ Legacy.escapeHtml v +:+ "</td>") values.
Proof.
  revert cells. induction keys as [|k keys IH]; intros cells; simpl.
  - intros [= <-]. by exists [].
  - unfold Legacy.data_cell at 1.
    destruct (Js.get r k) as [v|e]; simpl; [|done].
    destruct (Js.mapM (Legacy.data_cell r) keys) as [cs|e]; [|done].
    intros [= <-]. destruct (IH cs eq_refl) as (vs & -> & ->).
    by exists (v :: vs).
Qed.

Lemma append_rows_escape (keys : list string) (results : list Js.jsval)
  (table out : string) :
  Legacy.append_rows keys results table = Js.Ok out →
  ∃ cells : list (list Js.jsval),
    Forall2 (fun r values => Js.mapM (Js.get r) keys = Js.Ok values) results cells
    ∧ out = table
            +:+ Js.join ""
                  (map (fun values =>
                          "<tr>"
                          +:+ Js.join ""
                                (map (fun v => "<td>" +:+ Legacy.escapeHtml v +:+ "</td>")
                                   values)
                          +:+ "</tr>")
                     cells).
Proof.
  revert table out. induction results as [|r rest IH]; intros table out; simpl.
  - intros [= <-]. exists []. split; [constructor | by rewrite app_nil_r_s].
  - destruct (Js.mapM (Legacy.data_cell r) keys) as [cs|e] eqn:Hcs; simpl; [|done].
    intros Hout. destruct (IH _ _ Hout) as (cells & Hcells & ->).
    destruct (data_cells_escape _ _ _ Hcs) as (vs & Hvs & ->).
    exists (vs :: cells). split; [by constructor |].
    rewrite map_cons, join_empty_cons. by rewrite !app_assoc_s.
Qed.

(** In the table of [script.js] the summary, every header key and every
    cell value is interpolated through [escapeHtml]; the rest of the markup
    is fixed text. *)
Lemma legacy_formatResults_escapes
  (results : list Js.jsval) (summary : Js.jsval) (html : string) :
  Legacy.table_html results summary = Js.Ok html →
  ∃ (keys : list string) (cells : list (list Js.jsval)),
    Legacy.table_keys results = Js.Ok keys
    ∧ Forall2 (fun r values => Js.mapM (Js.get r) keys = Js.Ok values) results cells
    ∧ html
      = Legacy.summary_open +:+ Legacy.escapeHtml summary +:+ "</div>"
        +:+ "<table><tr>"
        +:+ Js.join ""
              (map (fun k => "<th>" +:+ Legacy.escapeHtml (Js.JStr k) +:+ "</th>") keys)
        +:+ "</tr>"
        +:+ Js.join ""
              (map (fun values =>
                      "<tr>"
                      +:+ Js.join ""
                            (map (fun v => "<td>" +:+ Legacy.escapeHtml v +:+ "</td>")
                               values)
                      +:+ "</tr>")
                 cells)
        +:+ "</table>" +:+ Legacy.download_button.
Proof.
  unfold Legacy.table_html.
  destruct (Legacy.table_keys results) as [keys|e]; simpl; [|done].
  destruct (Legacy.append_rows keys results _) as [out|e] eqn:Hout; simpl; [|done].
  intros [= <-].
  destruct (append_rows_escape _ _ _ _ Hout) as (cells & Hcells & ->).
  exists keys, cells. split; [done |]. split; [done |].
  unfold Legacy.header_cell. by rewrite !app_assoc_s.
Qed.

(** ** [escapeHtml] of the enhanced script *)

Lemma text_node_markup_plain (t : string) :
  Spec.occurs "&" (Enhanced.text_node_markup t) = false →
  Enhanced.text_node_markup t = t.
Proof.
  induction t as [|a t IH]; [done |].
  simpl. rewrite occurs_app. intros [Ha Ht]%orb_false_iff.
  rewrite (IH Ht).
  unfold Enhanced.text_node_char in *.
  destruct (decide (a = "&"%char)) as [->|]; [done |].
  destruct (decide (a = "<"%char)) as [->|]; [done |].
  destruct (decide (a = ">"%char)) as [->|]; [done |].
  destruct (decide (a = "160"%char)) as [->|]; [done |].
  destruct a as [[] [] [] [] [] [] [] []]; done.
Qed.

(** C3.  The [escapeHtml] of the enhanced script serialises a text node, which
    leaves both quote characters as they are, whereas the [escapeHtml] of
    [script.js] turns them into entities; the enhanced [formatResults]
    nevertheless interpolates its output into the [href] attribute of a
    [Link] cell, so a cell value that holds a double quote closes the
    attribute and adds one of its own (here [onmouseover]). *)
Theorem enhanced_escapeHtml_keeps_quotes :
  Enhanced.escapeHtml (Js.JStr Js.DQ) = Js.DQ
  ∧ Enhanced.escapeHtml (Js.JStr Js.SQ) = Js.SQ
  ∧ Legacy.escapeHtml (Js.JStr Js.DQ) = "&quot;"
  ∧ Legacy.escapeHtml (Js.JStr Js.SQ) = "&#39;"
  ∧ Enhanced.cellContent
      (Enhanced.render_cell "Link"
         (Js.JStr ("x" +:+ Js.DQ +:+ " onmouseover=" +:+ Js.DQ +:+ "alert(1)")))
    = "<a href=" +:+ Js.DQ +:+ "x" +:+ Js.DQ
      +:+ " onmouseover=" +:+ Js.DQ +:+ "alert(1)" +:+ Js.DQ
      +:+ " target=" +:+ Js.DQ +:+ "_blank" +:+ Js.DQ
      +:+ " rel=" +:+ Js.DQ +:+ "noopener noreferrer" +:+ Js.DQ
      +:+ " style=" +:+ Js.DQ
      +:+ "color: var(--accent-light); text-decoration: underline; "
      +:+ "white-space: nowrap;" +:+ Js.DQ +:+ ">View</a>".
Proof. repeat split; reflexivity. Qed.

(** ** [truncateText] and the cells of the enhanced table *)

Lemma length_substring0 (m : nat) (s : string) :
  m ≤ String.length s → String.length (Js.substring0 m s) = m.
Proof.
  revert s. induction m as [|m IH]; intros s Hm; [done |].
  destruct s as [|a s]; simpl in *; [lia |].
  rewrite IH; lia.
Qed.

Lemma substring0_prefix (m : nat) (s : string) :
  ∃ tail, s = Js.substring0 m s +:+ tail.
Proof.
  revert s. induction m as [|m IH]; intros s.
  - exists s. by destruct s.
  - destruct s as [|a s]; [by exists "" |].
    destruct (IH s) as [tail Htail]. exists tail.
    simpl. norm_app. by rewrite <- Htail.
Qed.

Lemma truncateText_falsy (v : Js.jsval) (m : nat) :
  Js.truthy v = false → Enhanced.truncateText v m = "".
Proof. intros H. unfold Enhanced.truncateText. by rewrite H. Qed.

Lemma truncateText_short (v : Js.jsval) (m : nat) :
  Js.truthy v = true → String.length (Js.String_ v) ≤ m →
  Enhanced.truncateText v m = Js.String_ v.
Proof.
  intros H Hm. unfold Enhanced.truncateText. rewrite H. simpl.
  by rewrite bool_decide_eq_true_2.
Qed.

Lemma truncateText_long (v : Js.jsval) (m : nat) :
  Js.truthy v = true → m < String.length (Js.String_ v) →
  Enhanced.truncateText v m = Js.substring0 m (Js.String_ v) +:+ "..."
  ∧ String.length (Enhanced.truncateText v m) = m + 3.
Proof.
  intros H Hm. unfold Enhanced.truncateText. rewrite H. simpl.
  rewrite bool_decide_eq_false_2 by lia.
  split; [done |].
  rewrite length_app_s, length_substring0 by lia. done.
Qed.

Lemma truncateText_length (v : Js.jsval) (m : nat) :
  String.length (Enhanced.truncateText v m) ≤ m + 3.
Proof.
  destruct (Js.truthy v) eqn:H.
  - destruct (decide (String.length (Js.String_ v) ≤ m)) as [Hm|Hm].
    + rewrite truncateText_short by done. lia.
    + destruct (truncateText_long v m H) as [_ ->]; lia.
  - rewrite truncateText_falsy by done. simpl. lia.
Qed.

Lemma truncated_cell_within (text style : string) (maxLen budget : nat) :
  maxLen ≤ budget →
  ∃ shown,
    Enhanced.cellContent (Enhanced.truncated_cell text maxLen style)
    = Enhanced.escapeHtml (Js.JStr shown)
    ∧ String.length shown ≤ budget + 3.
Proof.
  intros Hb. eexists. split; [reflexivity |].
  pose proof (truncateText_length (Js.JStr text) maxLen). lia.
Qed.

Lemma JSON_stringify_object (v : Js.jsval) :
  Js.typeof_object v = true → Js.is_nullish v = false →
  is_Some (Js.JSON_stringify v).
Proof.
  destruct v as [| | | | |elems|props]; try done; intros _ _.
  - unfold Js.JSON_stringify. simpl. by destruct elems.
  - unfold Js.JSON_stringify. simpl. by destruct (omap _ props).
Qed.

Lemma cell_budget_long_text (k : string) (value : Js.jsval) :
  k ∈ ["ai_summary"; "Abstract"; "Description"] → Spec.cell_budget k value = 250.
Proof. intros Hk. unfold Spec.cell_budget. by rewrite bool_decide_eq_true_2. Qed.

Lemma cell_budget_object (k : string) (value : Js.jsval) :
  Js.typeof_object value = true → 150 ≤ Spec.cell_budget k value.
Proof.
  intros Hobj. unfold Spec.cell_budget. rewrite Hobj.
  case_bool_decide; lia.
Qed.

Lemma cell_budget_plain (k : string) (value : Js.jsval) :
  (if bool_decide (k ∈ Enhanced.longFields) then 80 else 50)
  ≤ Spec.cell_budget k value.
Proof.
  unfold Spec.cell_budget.
  destruct (Js.typeof_object value); repeat case_bool_decide; lia.
Qed.

Lemma render_cell_within_budget (k : string) (value : Js.jsval) :
  k ≠ "_collection" → Spec.cell_within_budget k value.
Proof.
  intros Hk. unfold Spec.cell_within_budget, Enhanced.render_cell.
  destruct (Js.is_nullish value || Js.is_empty_string value) eqn:Hnull;
    [by left |].
  apply orb_false_iff in Hnull as [Hnull _].
  destruct (bool_decide (k = "Link") && Js.truthy value) eqn:Hlink;
    [right; left; by eexists |].
  rewrite (bool_decide_eq_false_2 _ Hk).
  right; right.
  destruct (bool_decide (k = "ai_summary") && Js.truthy value) eqn:Hai.
  { apply andb_true_iff in Hai as [Hai%bool_decide_eq_true _].
    apply truncated_cell_within.
    rewrite cell_budget_long_text; [done | subst; set_solver]. }
  destruct (bool_decide (k = "Abstract" ∨ k = "Description")) eqn:Habs.
  { apply bool_decide_eq_true in Habs.
    apply truncated_cell_within.
    rewrite cell_budget_long_text; [done |].
    destruct Habs as [-> | ->]; set_solver. }
  destruct (Js.typeof_object value) eqn:Hobj.
  { destruct (JSON_stringify_object value Hobj Hnull) as [jsonStr ->].
    apply truncated_cell_within. by apply cell_budget_object. }
  apply truncated_cell_within. apply cell_budget_plain.
Qed.

(** A text that [innerHTML] returns without any [&] is the text itself. *)
Lemma enhanced_escapeHtml_plain (t : string) :
  Spec.occurs "&" (Enhanced.escapeHtml (Js.JStr t)) = false →
  Enhanced.escapeHtml (Js.JStr t) = t.
Proof. apply text_node_markup_plain. Qed.

Lemma length_copies (n : nat) (a : ascii) : String.length (Spec.copies n a) = n.
Proof. induction n as [|n IH]; simpl; [done | by rewrite IH]. Qed.

Lemma occurs_copies (n : nat) (a b : ascii) :
  a ≠ b → Spec.occurs a (Spec.copies n b) = false.
Proof.
  intros Hab. induction n as [|n IH]; simpl; [done |].
  by rewrite IH, bool_decide_eq_false_2.
Qed.

(** C9, as stated, fails: a [_collection] cell shows its whole value.  A
    collection name of 300 characters is displayed in full, beyond every
    budget of the renderer. *)
Lemma collection_cell_not_truncated :
  ¬ (∀ (k : string) (value : Js.jsval), Spec.cell_within_budget k value).
Proof.
  intros Hall.
  specialize (Hall "_collection" (Js.JStr (Spec.copies 300 "x"))).
  unfold Spec.cell_within_budget in Hall.
  assert (Hcell : Enhanced.cellContent
                    (Enhanced.render_cell "_collection"
                       (Js.JStr (Spec.copies 300 "x")))
                  = Spec.copies 300 "x") by reflexivity.
  rewrite Hcell in Hall.
  destruct Hall as [Hna | [[link Hlink] | (text & Htext & Hlen)]].
  - discriminate Hna.
  - discriminate Hlink.
  - assert (Hplain : Enhanced.escapeHtml (Js.JStr text) = text).
    { apply enhanced_escapeHtml_plain. rewrite <- Htext.
      by apply occurs_copies. }
    rewrite Hplain in Htext. subst text.
    rewrite length_copies in Hlen. vm_compute in Hlen. lia.
Qed.

(** C9, amended.  [truncateText] returns the empty string for a falsy value,
    the stringified value when that has at most [maxLength] characters, and
    otherwise its first [maxLength] characters followed by three dots, of
    length [maxLength + 3]; in the enhanced table every cell outside the
    [_collection] column shows the placeholder, the link, or the escaped
    form of a text of at most budget plus three characters. *)
Theorem truncateText_and_cell_budget :
  (∀ (v : Js.jsval) (maxLength : nat),
     Js.truthy v = false → Enhanced.truncateText v maxLength = "")
  ∧ (∀ (v : Js.jsval) (maxLength : nat),
       Js.truthy v = true → String.length (Js.String_ v) ≤ maxLength →
       Enhanced.truncateText v maxLength = Js.String_ v)
  ∧ (∀ (v : Js.jsval) (maxLength : nat),
       Js.truthy v = true → maxLength < String.length (Js.String_ v) →
       Enhanced.truncateText v maxLength
       = Js.substring0 maxLength (Js.String_ v) +:+ "..."
       ∧ String.length (Js.substring0 maxLength (Js.String_ v)) = maxLength
       ∧ (∃ tail, Js.String_ v = Js.substring0 maxLength (Js.String_ v) +:+ tail)
       ∧ String.length (Enhanced.truncateText v maxLength) = maxLength + 3)
  ∧ (∀ (k : string) (value : Js.jsval),
       k ≠ "_collection" → Spec.cell_within_budget k value).
Proof.
  split; [exact truncateText_falsy |].
  split; [exact truncateText_short |].
  split; [|exact render_cell_within_budget].
  intros v m Hv Hm.
  destruct (truncateText_long v m Hv Hm) as [Heq Hlen].
  split; [done |]. split; [apply length_substring0; lia |].
  split; [apply substring0_prefix | done].
Qed.

Lemma truncateText_and_cell_budget_witness :
  Enhanced.truncateText (Js.JNum 0) 5 = ""
  ∧ Enhanced.truncateText (Js.JStr "short") 5 = "short"
  ∧ Enhanced.truncateText (Js.JStr "a longer text") 5 = "a lon..."
  ∧ Spec.cell_within_budget "Title" (Js.JStr "A title").
Proof.
  split; [|split; [|split]].
  - apply (proj1 truncateText_and_cell_budget (Js.JNum 0) 5). reflexivity.
  - apply (proj1 (proj2 truncateText_and_cell_budget) (Js.JStr "short") 5);
      [reflexivity | simpl; lia].
  - apply (proj1 (proj2 (proj2 truncateText_and_cell_budget))
             (Js.JStr "a longer text") 5); [reflexivity | simpl; lia].
  - apply (proj2 (proj2 (proj2 truncateText_and_cell_budget)) "Title").
    discriminate.
Defined.

(** ** Blank input *)

Lemma trimStart_blank (s : string) :
  Js.trimStart s = "" ↔ Spec.blank s = true.
Proof.
  induction s as [|a s IH]; simpl; [done |].
  destruct (Js.is_whitespace a); simpl; [done |]. split; discriminate.
Qed.

Lemma trimEnd_blank (s : string) :
  Js.trimEnd s = "" ↔ Spec.blank s = true.
Proof.
  induction s as [|a s IH]; simpl; [done |].
  destruct (Js.trimEnd s) as [|b r].
  - rewrite (proj1 IH eq_refl), andb_true_r.
    destruct (Js.is_whitespace a); split; done.
  - destruct (Spec.blank s); [discriminate (proj2 IH eq_refl) |].
    rewrite andb_false_r. split; discriminate.
Qed.

Lemma blank_trimStart (s : string) :
  Spec.blank (Js.trimStart s) = Spec.blank s.
Proof.
  induction s as [|a s IH]; simpl; [done |].
  destruct (Js.is_whitespace a) eqn:Ha; simpl; [done |].
  by rewrite Ha.
Qed.

(** [s.trim()] is empty exactly for the blank strings. *)
Lemma trim_blank (s : string) : Js.trim s = "" ↔ Spec.blank s = true.
Proof. unfold Js.trim. by rewrite trimEnd_blank, blank_trimStart. Qed.

(** C8.  On an input that is empty or consists only of white space, [sendQuery]
    and [sendMessage] return at once and leave the whole page state as it
    was: no request is issued and no message appended.  [updateSendButton]
    changes nothing but the button, which it disables exactly when the
    trimmed input is empty. *)
Theorem blank_input_sends_nothing :
  (∀ (w : Net.world) (s : Legacy.ui),
     Spec.blank (Legacy.userInput s) = true →
     Legacy.sendQuery w s = (Js.Ok tt, s))
  ∧ (∀ (w : Net.world) (s : Enhanced.ui),
       Spec.blank (Enhanced.userInput s) = true →
       Enhanced.sendMessage w s = (Js.Ok tt, s))
  ∧ (∀ s : Enhanced.ui,
       Enhanced.updateSendButton s
       = (Js.Ok tt,
          Enhanced.set_sendBtn_disabled
            (bool_decide (Js.trim (Enhanced.userInput s) = "")) s))
  ∧ (∀ s : Enhanced.ui,
       Enhanced.sendBtn_disabled (Eff.exec Enhanced.updateSendButton s) = true
       ↔ Js.trim (Enhanced.userInput s) = "").
Proof.
  split; [|split; [|split]].
  - intros w s Hb. apply trim_blank in Hb.
    unfold Legacy.sendQuery. run_monad. by rewrite Hb.
  - intros w s Hb. apply trim_blank in Hb.
    unfold Enhanced.sendMessage. run_monad. by rewrite Hb.
  - intros s. unfold Enhanced.updateSendButton. run_monad.
    do 2 f_equal. destruct (Js.trim (Enhanced.userInput s)); done.
  - intros s. unfold Enhanced.updateSendButton. run_monad.
    destruct (Js.trim (Enhanced.userInput s)); simpl; split; done.
Qed.

Lemma blank_input_sends_nothing_witness :
  Legacy.sendQuery
    (Net.World (fun _ => Net.Rejected "offline") (fun _ => 0%Z) (fun _ => ""))
    (Legacy.set_userInput "   " Legacy.initial)
  = (Js.Ok tt, Legacy.set_userInput "   " Legacy.initial)
  ∧ Enhanced.sendMessage
      (Net.World (fun _ => Net.Rejected "offline") (fun _ => 0%Z) (fun _ => ""))
      (Enhanced.set_userInput "   " Enhanced.initial)
    = (Js.Ok tt, Enhanced.set_userInput "   " Enhanced.initial).
Proof.
  split.
  - apply (proj1 blank_input_sends_nothing). reflexivity.
  - apply (proj1 (proj2 blank_input_sends_nothing)). reflexivity.
Defined.

(** ** The message-id-to-rows map *)

Lemma addMessage_stores (w : Net.world) (text : Js.jsval) (type : string)
  (rows : list Js.jsval) (s : Enhanced.ui) :
  ∃ m s',
    Enhanced.addMessage w text type (Js.JArr rows) s = (Js.Ok m, s')
    ∧ Enhanced.id m
      = "msg-" +:+ pretty (Net.Date_now w (Enhanced.clock s)) +:+ "-"
        +:+ Net.Math_random w (Enhanced.dice s)
    ∧ Enhanced.messageDownloadData s'
      = <[Enhanced.id m := rows]> (Enhanced.messageDownloadData s)
    ∧ Enhanced.messagesWrapper s' = Enhanced.messagesWrapper s ++ [m]
    ∧ Enhanced.timers s' = Enhanced.timers s ++ [(100, Enhanced.AttachDownload m)]
    ∧ Enhanced.downloads s' = Enhanced.downloads s
    ∧ Enhanced.clock s' = S (Enhanced.clock s).
Proof.
  unfold Enhanced.addMessage, Enhanced.createElement, Enhanced.Date_now,
    Enhanced.random_suffix, Enhanced.setTimeout.
  run_monad. eexists _, _. repeat split; reflexivity.
Qed.

Lemma download_click_stored (w : Net.world) (i : string) (rows : list Js.jsval)
  (s : Enhanced.ui) :
  Enhanced.messageDownloadData s !! i = Some rows →
  Enhanced.download_click w i s = Enhanced.downloadCSV w rows s.
Proof.
  intros Hi. unfold Enhanced.download_click. run_monad. by rewrite Hi.
Qed.

Lemma download_click_missing (w : Net.world) (i : string) (s : Enhanced.ui) :
  Enhanced.messageDownloadData s !! i = None →
  Enhanced.download_click w i s
  = Enhanced.showToast "No data available for download" "error" s.
Proof.
  intros Hi. unfold Enhanced.download_click. run_monad. by rewrite Hi.
Qed.



(** ** How many requests a handler issues *)

Section Grows.
Context {S : Type} (size : S → nat).

Lemma grows_mono {A} (m : Eff.M S A) (n n' : nat) :
  n ≤ n' → Traffic.grows size n m → Traffic.grows size n' m.
Proof. intros Hn Hm s. specialize (Hm s). lia. Qed.

Lemma grows_ret {A} (a : A) (n : nat) : Traffic.grows size n (mret a).
Proof. intros s. run_monad. lia. Qed.

Lemma grows_throw {A} (e : string) (n : nat) :
  Traffic.grows size n (Eff.throw e : Eff.M S A).
Proof. intros s. run_monad. lia. Qed.

Lemma grows_lift {A} (r : Js.result A) (n : nat) :
  Traffic.grows size n (Eff.lift r : Eff.M S A).
Proof. intros s. run_monad. lia. Qed.

Lemma grows_gets {A} (f : S → A) (n : nat) : Traffic.grows size n (Eff.gets f).
Proof. intros s. run_monad. lia. Qed.

Lemma grows_modify (f : S → S) (n : nat) :
  (∀ s, size (f s) ≤ size s + n) → Traffic.grows size n (Eff.modify f).
Proof. intros Hf s. run_monad. apply Hf. Qed.

Lemma grows_bind {A B} (m : Eff.M S A) (k : A → Eff.M S B) (n1 n2 n : nat) :
  Traffic.grows size n1 m → (∀ a, Traffic.grows size n2 (k a)) →
  n1 + n2 ≤ n → Traffic.grows size n (m ≫= k).
Proof.
  intros Hm Hk Hn s. specialize (Hm s). run_monad.
  destruct (m s) as [[a|e] s1]; simpl in *.
  - specialize (Hk a s1). run_monad. lia.
  - lia.
Qed.

Lemma grows_try_catch {A} (body : Eff.M S A) (handler : string → Eff.M S A)
  (n1 n2 n : nat) :
  Traffic.grows size n1 body → (∀ e, Traffic.grows size n2 (handler e)) →
  n1 + n2 ≤ n → Traffic.grows size n (Eff.try_catch body handler).
Proof.
  intros Hm Hk Hn s. specialize (Hm s). run_monad.
  destruct (body s) as [[a|e] s1]; simpl in *.
  - lia.
  - specialize (Hk e s1). run_monad. lia.
Qed.

End Grows.

(** Decompose a goal [grows size n m] along the shape of [m]; [leaf] closes
    the calls of other functions. *)
Ltac grows_quiet leaf :=
  lazymatch goal with
  | |- Traffic.grows _ _ (mret _) => apply grows_ret
  | |- Traffic.grows _ _ (Eff.throw _) => apply grows_throw
  | |- Traffic.grows _ _ (Eff.lift _) => apply grows_lift
  | |- Traffic.grows _ _ (Eff.gets _) => apply grows_gets
  | |- Traffic.grows _ _ (Eff.modify _) =>
      apply grows_modify; intros;
      unfold Traffic.legacy_sent, Traffic.enhanced_sent, Traffic.enhanced_reloads;
      simpl; lia
  | |- Traffic.grows _ _ (_ ≫= _) =>
      eapply (grows_bind _ _ _ 0 0);
      [grows_quiet leaf | intros; grows_quiet leaf | lia]
  | |- Traffic.grows _ _ (Eff.try_catch _ _) =>
      eapply (grows_try_catch _ _ _ 0 0);
      [grows_quiet leaf | intros; grows_quiet leaf | lia]
  | |- Traffic.grows _ _ (match ?x with _ => _ end) =>
      destruct x; grows_quiet leaf
  | |- _ => solve [leaf]
  end.

Ltac grows_once leaf :=
  lazymatch goal with
  | |- Traffic.grows _ _ (_ ≫= _) =>
      first
        [ eapply (grows_bind _ _ _ 0 1);
          [solve [grows_quiet leaf] | intros; grows_once leaf | lia]
        | eapply (grows_bind _ _ _ 1 0);
          [grows_once leaf | intros; solve [grows_quiet leaf] | lia] ]
  | |- Traffic.grows _ _ (Eff.try_catch _ _) =>
      eapply (grows_try_catch _ _ _ 1 0);
      [grows_once leaf | intros; solve [grows_quiet leaf] | lia]
  | |- Traffic.grows _ _ (match ?x with _ => _ end) =>
      destruct x; grows_once leaf
  | |- _ => first [solve [grows_quiet leaf] | solve [leaf]]
  end.

Create HintDb traffic discriminated.

Ltac traffic_leaf :=
  first [ solve [eauto 2 with traffic]
        | eapply grows_mono; [|solve [eauto 2 with traffic]]; lia ].

(** *** [script.js] *)

Lemma legacy_fetch_sent (w : Net.world) (r : Net.request) :
  Traffic.grows Traffic.legacy_sent 1 (Legacy.fetch w r).
Proof.
  intros s. unfold Legacy.fetch, Traffic.legacy_sent. run_monad.
  destruct (Net.server w r); simpl; rewrite length_app; simpl; lia.
Qed.

Lemma legacy_json_sent (r : Net.response) :
  Traffic.grows Traffic.legacy_sent 0 (Legacy.json r).
Proof. unfold Legacy.json. grows_quiet traffic_leaf. Qed.

Lemma legacy_Date_now_sent (w : Net.world) :
  Traffic.grows Traffic.legacy_sent 0 (Legacy.Date_now w).
Proof. unfold Legacy.Date_now. grows_quiet traffic_leaf. Qed.

Lemma legacy_createElement_sent :
  Traffic.grows Traffic.legacy_sent 0 Legacy.createElement.
Proof. unfold Legacy.createElement. grows_quiet traffic_leaf. Qed.

Lemma legacy_setTimeout_sent (t : Legacy.task) (d : nat) :
  Traffic.grows Traffic.legacy_sent 0 (Legacy.setTimeout t d).
Proof. unfold Legacy.setTimeout. grows_quiet traffic_leaf. Qed.

Lemma legacy_alert_sent (text : string) :
  Traffic.grows Traffic.legacy_sent 0 (Legacy.alert text).
Proof. unfold Legacy.alert. grows_quiet traffic_leaf. Qed.

#[local] Hint Resolve legacy_fetch_sent legacy_json_sent legacy_Date_now_sent
  legacy_createElement_sent legacy_setTimeout_sent legacy_alert_sent : traffic.

Lemma legacy_addMessage_sent (w : Net.world) (text : Js.jsval) (type : string) :
  Traffic.grows Traffic.legacy_sent 0 (Legacy.addMessage w text type).
Proof. unfold Legacy.addMessage. grows_quiet traffic_leaf. Qed.

Lemma legacy_removeMessage_sent (i : string) :
  Traffic.grows Traffic.legacy_sent 0 (Legacy.removeMessage i).
Proof. unfold Legacy.removeMessage. grows_quiet traffic_leaf. Qed.

Lemma legacy_formatResults_sent (results : list Js.jsval) (summary : Js.jsval)
  (rawData : list Js.jsval) :
  Traffic.grows Traffic.legacy_sent 0 (Legacy.formatResults results summary rawData).
Proof. unfold Legacy.formatResults. grows_quiet traffic_leaf. Qed.

Lemma legacy_downloadCSV_sent (w : Net.world) (data : list Js.jsval) :
  Traffic.grows Traffic.legacy_sent 0 (Legacy.downloadCSV w data).
Proof. unfold Legacy.downloadCSV. grows_quiet traffic_leaf. Qed.

Lemma legacy_run_task_sent (t : Legacy.task) :
  Traffic.grows Traffic.legacy_sent 0 (Legacy.run_task t).
Proof. unfold Legacy.run_task. grows_quiet traffic_leaf. Qed.

#[local] Hint Resolve legacy_addMessage_sent legacy_removeMessage_sent
  legacy_formatResults_sent legacy_downloadCSV_sent legacy_run_task_sent : traffic.

Lemma legacy_show_results_sent (w : Net.world) (data : Js.jsval) :
  Traffic.grows Traffic.legacy_sent 0 (Legacy.show_results w data).
Proof. unfold Legacy.show_results. grows_quiet traffic_leaf. Qed.

#[local] Hint Resolve legacy_show_results_sent : traffic.

Lemma legacy_setup_click_sent (w : Net.world) :
  Traffic.grows Traffic.legacy_sent 1 (Legacy.setup_click w).
Proof. unfold Legacy.setup_click. grows_once traffic_leaf. Qed.

Lemma legacy_import_click_sent (w : Net.world) :
  Traffic.grows Traffic.legacy_sent 1 (Legacy.import_click w).
Proof. unfold Legacy.import_click. grows_once traffic_leaf. Qed.

Lemma legacy_sendQuery_sent (w : Net.world) :
  Traffic.grows Traffic.legacy_sent 1 (Legacy.sendQuery w).
Proof. unfold Legacy.sendQuery. grows_once traffic_leaf. Qed.

Lemma legacy_run_listeners_sent (w : Net.world) (n : nat)
  (ls : list (nat * list Js.jsval)) :
  Traffic.grows Traffic.legacy_sent 0 (Legacy.run_listeners w n ls).
Proof.
  induction ls as [|[n' rawData] ls IH]; simpl; grows_quiet traffic_leaf.
Qed.

#[local] Hint Resolve legacy_setup_click_sent legacy_import_click_sent
  legacy_sendQuery_sent legacy_run_listeners_sent : traffic.

Lemma legacy_handle_sent (w : Net.world) (e : Legacy.event) :
  Traffic.grows Traffic.legacy_sent 1 (Legacy.handle w e).
Proof. destruct e; simpl; grows_once traffic_leaf. Qed.

Lemma legacy_fire_sent (ts : list (nat * Legacy.task)) :
  Traffic.grows Traffic.legacy_sent 0 (Traffic.legacy_fire ts).
Proof.
  induction ts as [|[d t] ts IH]; simpl; grows_quiet traffic_leaf.
Qed.

(** *** The enhanced script *)

Lemma counted_sent : Traffic.counted Traffic.enhanced_sent.
Proof. by left. Qed.

Lemma counted_reloads : Traffic.counted Traffic.enhanced_reloads.
Proof. by right. Qed.

#[local] Hint Resolve counted_sent counted_reloads : traffic.

Lemma reloads_app (ts us : list (nat * Enhanced.task)) :
  Traffic.reloads (ts ++ us) = Traffic.reloads ts + Traffic.reloads us.
Proof. unfold Traffic.reloads. by rewrite List.filter_app, length_app. Qed.

Lemma enhanced_fetch_sent (w : Net.world) (r : Net.request) :
  Traffic.grows Traffic.enhanced_sent 1 (Enhanced.fetch w r).
Proof.
  intros s. unfold Enhanced.fetch, Traffic.enhanced_sent. run_monad.
  destruct (Net.server w r); simpl; rewrite length_app; simpl; lia.
Qed.

Lemma enhanced_fetch_reloads (w : Net.world) (r : Net.request) :
  Traffic.grows Traffic.enhanced_reloads 0 (Enhanced.fetch w r).
Proof.
  intros s. unfold Enhanced.fetch, Traffic.enhanced_reloads. run_monad.
  destruct (Net.server w r); simpl; lia.
Qed.

Lemma enhanced_setTimeout_sent (t : Enhanced.task) (d : nat) :
  Traffic.grows Traffic.enhanced_sent 0 (Enhanced.setTimeout t d).
Proof. unfold Enhanced.setTimeout. grows_quiet traffic_leaf. Qed.

Lemma enhanced_setTimeout_reloads (t : Enhanced.task) (d : nat) :
  Traffic.grows Traffic.enhanced_reloads
    (match t with Enhanced.LoadCollections => 1 | _ => 0 end)
    (Enhanced.setTimeout t d).
Proof.
  intros s. unfold Enhanced.setTimeout, Traffic.enhanced_reloads. run_monad.
  rewrite reloads_app. destruct t; unfold Traffic.reloads; simpl; lia.
Qed.

Lemma enhanced_setTimeout_attach (size : Enhanced.ui → nat)
  (m : Enhanced.message) (d : nat) :
  Traffic.counted size →
  Traffic.grows size 0 (Enhanced.setTimeout (Enhanced.AttachDownload m) d).
Proof.
  intros [-> | ->];
    [apply enhanced_setTimeout_sent
    | apply (enhanced_setTimeout_reloads (Enhanced.AttachDownload m))].
Qed.

Lemma enhanced_setTimeout_hide (size : Enhanced.ui → nat) (d : nat) :
  Traffic.counted size →
  Traffic.grows size 0 (Enhanced.setTimeout Enhanced.HideToast d).
Proof.
  intros [-> | ->];
    [apply enhanced_setTimeout_sent
    | apply (enhanced_setTimeout_reloads Enhanced.HideToast)].
Qed.

Lemma enhanced_json_quiet (size : Enhanced.ui → nat) (r : Net.response) :
  Traffic.grows size 0 (Enhanced.json r).
Proof. unfold Enhanced.json. grows_quiet traffic_leaf. Qed.

Lemma enhanced_Date_now_quiet (size : Enhanced.ui → nat) (w : Net.world) :
  Traffic.counted size → Traffic.grows size 0 (Enhanced.Date_now w).
Proof. intros [-> | ->]; unfold Enhanced.Date_now; grows_quiet traffic_leaf. Qed.

Lemma enhanced_random_suffix_quiet (size : Enhanced.ui → nat) (w : Net.world) :
  Traffic.counted size → Traffic.grows size 0 (Enhanced.random_suffix w).
Proof. intros [-> | ->]; unfold Enhanced.random_suffix; grows_quiet traffic_leaf. Qed.

Lemma enhanced_createElement_quiet (size : Enhanced.ui → nat) :
  Traffic.counted size → Traffic.grows size 0 Enhanced.createElement.
Proof. intros [-> | ->]; unfold Enhanced.createElement; grows_quiet traffic_leaf. Qed.

#[local] Hint Resolve enhanced_fetch_sent enhanced_fetch_reloads
  enhanced_setTimeout_sent enhanced_setTimeout_attach enhanced_setTimeout_hide enhanced_json_quiet
  enhanced_Date_now_quiet enhanced_random_suffix_quiet
  enhanced_createElement_quiet : traffic.

Lemma enhanced_showToast_quiet (size : Enhanced.ui → nat) (message type : string) :
  Traffic.counted size → Traffic.grows size 0 (Enhanced.showToast message type).
Proof.
  intros Hc. unfold Enhanced.showToast.
  destruct Hc as [-> | ->]; grows_quiet traffic_leaf.
Qed.

Lemma enhanced_updateSendButton_quiet (size : Enhanced.ui → nat) :
  Traffic.counted size → Traffic.grows size 0 Enhanced.updateSendButton.
Proof. intros [-> | ->]; unfold Enhanced.updateSendButton; grows_quiet traffic_leaf. Qed.

Lemma enhanced_showProcessing_quiet (size : Enhanced.ui → nat) :
  Traffic.counted size → Traffic.grows size 0 Enhanced.showProcessing.
Proof. intros [-> | ->]; unfold Enhanced.showProcessing; grows_quiet traffic_leaf. Qed.

Lemma enhanced_hideProcessing_quiet (size : Enhanced.ui → nat) :
  Traffic.counted size → Traffic.grows size 0 Enhanced.hideProcessing.
Proof. intros [-> | ->]; unfold Enhanced.hideProcessing; grows_quiet traffic_leaf. Qed.

Lemma enhanced_addMessage_quiet (size : Enhanced.ui → nat) (w : Net.world)
  (text : Js.jsval) (type : string) (downloadData : Js.jsval) :
  Traffic.counted size →
  Traffic.grows size 0 (Enhanced.addMessage w text type downloadData).
Proof.
  intros Hc. unfold Enhanced.addMessage.
  destruct Hc as [-> | ->]; grows_quiet traffic_leaf.
Qed.

#[local] Hint Resolve enhanced_showToast_quiet enhanced_updateSendButton_quiet
  enhanced_showProcessing_quiet enhanced_hideProcessing_quiet
  enhanced_addMessage_quiet : traffic.

Lemma enhanced_switchMode_quiet (size : Enhanced.ui → nat) (m : Enhanced.mode) :
  Traffic.counted size → Traffic.grows size 0 (Enhanced.switchMode m).
Proof.
  intros Hc. unfold Enhanced.switchMode.
  destruct Hc as [-> | ->]; grows_quiet traffic_leaf.
Qed.

Lemma enhanced_new_chat_quiet (size : Enhanced.ui → nat) :
  Traffic.counted size → Traffic.grows size 0 Enhanced.new_chat.
Proof.
  intros Hc. unfold Enhanced.new_chat.
  destruct Hc as [-> | ->]; grows_quiet traffic_leaf.
Qed.

Lemma enhanced_downloadCSV_quiet (size : Enhanced.ui → nat) (w : Net.world)
  (data : list Js.jsval) :
  Traffic.counted size → Traffic.grows size 0 (Enhanced.downloadCSV w data).
Proof.
  intros Hc. unfold Enhanced.downloadCSV.
  destruct Hc as [-> | ->]; grows_quiet traffic_leaf.
Qed.

Lemma enhanced_show_response_quiet (size : Enhanced.ui → nat) (w : Net.world)
  (data : Js.jsval) :
  Traffic.counted size → Traffic.grows size 0 (Enhanced.show_response w data).
Proof.
  intros Hc. unfold Enhanced.show_response.
  destruct Hc as [-> | ->]; grows_quiet traffic_leaf.
Qed.

#[local] Hint Resolve enhanced_switchMode_quiet enhanced_new_chat_quiet
  enhanced_downloadCSV_quiet enhanced_show_response_quiet : traffic.

Lemma enhanced_download_click_quiet (size : Enhanced.ui → nat) (w : Net.world)
  (i : string) :
  Traffic.counted size → Traffic.grows size 0 (Enhanced.download_click w i).
Proof.
  intros Hc. unfold Enhanced.download_click.
  destruct Hc as [-> | ->]; grows_quiet traffic_leaf.
Qed.

#[local] Hint Resolve enhanced_download_click_quiet : traffic.

Lemma enhanced_run_listeners_quiet (size : Enhanced.ui → nat) (w : Net.world)
  (n : nat) (ls : list (nat * string)) :
  Traffic.counted size → Traffic.grows size 0 (Enhanced.run_listeners w n ls).
Proof.
  intros Hc.
  induction ls as [|[n' i] ls IH]; simpl;
    destruct Hc as [-> | ->]; grows_quiet traffic_leaf.
Qed.

Lemma enhanced_loadCollections_sent (w : Net.world) :
  Traffic.grows Traffic.enhanced_sent 1 (Enhanced.loadCollections w).
Proof. unfold Enhanced.loadCollections. grows_once traffic_leaf. Qed.

Lemma enhanced_loadCollections_reloads (w : Net.world) :
  Traffic.grows Traffic.enhanced_reloads 0 (Enhanced.loadCollections w).
Proof. unfold Enhanced.loadCollections. grows_quiet traffic_leaf. Qed.

Lemma enhanced_sendMessage_sent (w : Net.world) :
  Traffic.grows Traffic.enhanced_sent 1 (Enhanced.sendMessage w).
Proof. unfold Enhanced.sendMessage. grows_once traffic_leaf. Qed.

Lemma enhanced_sendMessage_reloads (w : Net.world) :
  Traffic.grows Traffic.enhanced_reloads 0 (Enhanced.sendMessage w).
Proof. unfold Enhanced.sendMessage. grows_quiet traffic_leaf. Qed.

Lemma enhanced_csv_change_sent (w : Net.world) (file : option string) :
  Traffic.grows Traffic.enhanced_sent 1 (Enhanced.csv_change w file).
Proof. unfold Enhanced.csv_change. grows_once traffic_leaf. Qed.

Lemma enhanced_reload_timer (d : nat) :
  Traffic.grows Traffic.enhanced_reloads 1
    (Enhanced.setTimeout Enhanced.LoadCollections d).
Proof. apply (enhanced_setTimeout_reloads Enhanced.LoadCollections). Qed.

#[local] Hint Resolve enhanced_run_listeners_quiet enhanced_loadCollections_sent
  enhanced_loadCollections_reloads enhanced_sendMessage_sent
  enhanced_sendMessage_reloads enhanced_csv_change_sent
  enhanced_reload_timer : traffic.

Lemma enhanced_csv_change_reloads (w : Net.world) (file : option string) :
  Traffic.grows Traffic.enhanced_reloads 1 (Enhanced.csv_change w file).
Proof. unfold Enhanced.csv_change. grows_once traffic_leaf. Qed.

#[local] Hint Resolve enhanced_csv_change_reloads : traffic.

Lemma enhanced_handle_sent (w : Net.world) (e : Enhanced.event) :
  Traffic.grows Traffic.enhanced_sent 1 (Enhanced.handle w e).
Proof. destruct e; simpl; grows_once traffic_leaf. Qed.

Lemma enhanced_handle_reloads (w : Net.world) (e : Enhanced.event) :
  Traffic.grows Traffic.enhanced_reloads 1 (Enhanced.handle w e).
Proof. destruct e; simpl; grows_once traffic_leaf. Qed.

Lemma enhanced_run_task_sent (w : Net.world) (t : nat * Enhanced.task) :
  Traffic.grows Traffic.enhanced_sent (Traffic.reloads [t])
    (Enhanced.run_task w t.2).
Proof.
  destruct t as [d [m| |]]; simpl; unfold Traffic.reloads; simpl.
  - grows_quiet traffic_leaf.
  - grows_quiet traffic_leaf.
  - apply enhanced_loadCollections_sent.
Qed.

Lemma enhanced_fire_sent (w : Net.world) (ts : list (nat * Enhanced.task))
  (s : Enhanced.ui) :
  Traffic.enhanced_sent (Eff.exec (Traffic.enhanced_fire w ts) s)
  ≤ Traffic.enhanced_sent s + Traffic.reloads ts.
Proof.
  revert s. induction ts as [|[d t] ts IH]; intros s.
  - simpl. run_monad. lia.
  - change ((d, t) :: ts) with ([(d, t)] ++ ts). rewrite reloads_app.
    pose proof (enhanced_run_task_sent w (d, t) s) as Ht.
    simpl in *. run_monad.
    destruct (Enhanced.run_task w t s) as [[[]|e] s1]; simpl in *.
    + specialize (IH s1). run_monad. lia.
    + specialize (IH s1). run_monad. lia.
Qed.




(** ** Failed requests are caught and shown *)

Lemma legacy_setup_failure (w : Net.world) (s : Legacy.ui) :
  Traffic.transport_failure (Net.server w Traffic.setup_request) →
  Eff.returns (Legacy.setup_click w) s = true
  ∧ (∃ e, Legacy.setupMessage (Eff.exec (Legacy.setup_click w) s)
          = Legacy.Banner ("Failed to setup database: " +:+ e) "#ffebee")
  ∧ Legacy.requests (Eff.exec (Legacy.setup_click w) s)
    = Legacy.requests s ++ [Traffic.setup_request].
Proof.
  unfold Traffic.transport_failure, Traffic.setup_request.
  unfold Legacy.setup_click, Legacy.fetch, Legacy.json. run_monad.
  destruct (Net.server w _) as [e | [ok [e | data]]]; simpl.
  - intros _. eauto.
  - intros _. eauto.
  - intros [-> | [e He]]; [|done]. simpl.
    destruct (Js.get data "error") as [err | e]; simpl; eauto.
Qed.

Lemma legacy_import_failure (w : Net.world) (s : Legacy.ui) (file : string) :
  Legacy.csvFile s = Some file →
  Traffic.transport_failure (Net.server w (Traffic.import_request file)) →
  Eff.returns (Legacy.import_click w) s = true
  ∧ (∃ e, Legacy.importMessage (Eff.exec (Legacy.import_click w) s)
          = Legacy.Banner ("❌ Failed to import CSV: " +:+ e) "#ffebee")
  ∧ Legacy.requests (Eff.exec (Legacy.import_click w) s)
    = Legacy.requests s ++ [Traffic.import_request file].
Proof.
  intros Hfile.
  unfold Traffic.transport_failure, Traffic.import_request.
  unfold Legacy.import_click, Legacy.fetch, Legacy.json. run_monad.
  rewrite Hfile. simpl.
  destruct (Net.server w _) as [e | [ok [e | data]]]; simpl.
  - intros _. eauto.
  - intros _. eauto.
  - intros [-> | [e He]]; [|done]. simpl.
    destruct (Js.get data "error") as [err | e]; simpl; eauto.
Qed.

(** A text that starts with [Error] is not taken for markup by the
    [addMessage] of [script.js]. *)
Lemma error_text_is_escaped (text : string) :
  Js.startsWith "Error" text = true →
  Js.startsWith Legacy.summary_open text || Js.startsWith "<table" text = false.
Proof.
  destruct text as [|a text]; [done |].
  destruct a as [[] [] [] [] [] [] [] []]; try done.
Qed.

Lemma legacy_sendQuery_failure (w : Net.world) (s : Legacy.ui) :
  Js.trim (Legacy.userInput s) ≠ "" →
  Traffic.failure
    (Net.server w (Traffic.legacy_query_request (Js.trim (Legacy.userInput s)))) →
  Eff.returns (Legacy.sendQuery w) s = true
  ∧ Traffic.legacy_error_shown (Eff.exec (Legacy.sendQuery w) s)
  ∧ Legacy.requests (Eff.exec (Legacy.sendQuery w) s)
    = Legacy.requests s
      ++ [Traffic.legacy_query_request (Js.trim (Legacy.userInput s))].
Proof.
  intros Hq.
  unfold Traffic.failure, Traffic.transport_failure, Traffic.error_body,
    Traffic.legacy_query_request, Traffic.legacy_error_shown.
  unfold Legacy.sendQuery, Legacy.addMessage, Legacy.removeMessage,
    Legacy.createElement, Legacy.Date_now, Legacy.fetch, Legacy.json.
  run_monad. rewrite (bool_decide_eq_false_2 _ Hq).
  set (question := Js.trim (Legacy.userInput s)).
  assert (Hshown : ∀ (ms : list Legacy.message) (n : nat) (i cls html text : string),
            cls = "message error" →
            html = "<pre>" +:+ Legacy.escapeHtml (Js.JStr text) +:+ "</pre>" →
            Js.startsWith "Error" text = true →
            ∃ m t,
              last (ms ++ [Legacy.Message n i cls html]) = Some m
              ∧ Legacy.className m = "message error"
              ∧ Legacy.innerHTML m
                = "<pre>" +:+ Legacy.escapeHtml (Js.JStr t) +:+ "</pre>"
              ∧ Js.startsWith "Error" t = true).
  { intros ms n i cls html text -> -> Htext.
    rewrite last_snoc. eexists _, text. by repeat split. }
  destruct (Net.server w _) as [e | [ok [e | data]]]; simpl.
  - intros _. split; [done |]. split; [|done]. by eapply Hshown.
  - intros _. split; [done |]. split; [|done]. by eapply Hshown.
  - intros Hfail.
    assert (Hcase : ok = false
                    ∨ ∃ e, ok = true ∧ Js.get data "error" = Js.Ok e
                           ∧ Js.truthy e = true).
    { destruct Hfail as [[-> | [e He]] | (r & d & e & Hr & Hok & Hp & Hget & He)];
        [by left | done |].
      injection Hr as <-. simpl in *. injection Hp as <-. right. eauto. }
    destruct Hcase as [-> | (e & -> & Hget & He)]; simpl.
    + destruct (Js.get data "error") as [err | e]; simpl;
        rewrite ?error_text_is_escaped by reflexivity;
        (split; [done |]); (split; [|done]); by eapply Hshown.
    + rewrite Hget. simpl. rewrite He. simpl.
      rewrite ?error_text_is_escaped by reflexivity.
      split; [done |]. split; [|done]. by eapply Hshown.
Qed.

Lemma prefix_empty (s : string) : String.prefix "" s = true.
Proof. by destruct s. Qed.

Lemma startsWith_app_l (p a s : string) :
  Js.startsWith p a = true → Js.startsWith p (a +:+ s) = true.
Proof.
  unfold Js.startsWith. revert p.
  induction a as [|x a IH]; intros p.
  - destruct p; [intros _; apply prefix_empty | done].
  - destruct p as [|y p]; [done |]. norm_app. simpl.
    destruct (Ascii.ascii_dec y x); [apply IH | done].
Qed.

Lemma enhanced_sendMessage_failure (w : Net.world) (s : Enhanced.ui) :
  Js.trim (Enhanced.userInput s) ≠ "" →
  Traffic.failure
    (Net.server w (Enhanced.query_request (Enhanced.currentMode s)
                     (Js.trim (Enhanced.userInput s)))) →
  Eff.returns (Enhanced.sendMessage w) s = true
  ∧ Traffic.enhanced_error_shown (Eff.exec (Enhanced.sendMessage w) s)
  ∧ Enhanced.requests (Eff.exec (Enhanced.sendMessage w) s)
    = Enhanced.requests s
      ++ [Enhanced.query_request (Enhanced.currentMode s)
            (Js.trim (Enhanced.userInput s))]
  ∧ Enhanced.processing_hidden (Eff.exec (Enhanced.sendMessage w) s) = true.
Proof.
  intros Hq.
  unfold Traffic.failure, Traffic.transport_failure, Traffic.error_body,
    Traffic.enhanced_error_shown.
  unfold Enhanced.sendMessage, Enhanced.show_response, Enhanced.addMessage,
    Enhanced.updateSendButton, Enhanced.showProcessing, Enhanced.hideProcessing,
    Enhanced.createElement, Enhanced.Date_now, Enhanced.random_suffix,
    Enhanced.setTimeout, Enhanced.fetch, Enhanced.json.
  run_monad. rewrite (bool_decide_eq_false_2 _ Hq).
  set (question := Js.trim (Enhanced.userInput s)).
  assert (Hshown : ∀ (ms : list Enhanced.message) (n : nat) (i cls text : string)
                     (body : Enhanced.content),
            cls = "message error" →
            body = Enhanced.Text text ∨ body = Enhanced.Html text →
            Js.startsWith "Error: " text = true →
            ∃ m t,
              last (ms ++ [Enhanced.Message n i cls body]) = Some m
              ∧ Enhanced.className m = "message error"
              ∧ (Enhanced.shown m = Enhanced.Text t
                 ∨ Enhanced.shown m = Enhanced.Html t)
              ∧ Js.startsWith "Error: " t = true).
  { intros ms n i cls text body -> Hbody Htext.
    rewrite last_snoc. by eexists _, text. }
  assert (Hbody : ∀ text,
            (if Enhanced.is_markup text
             then Enhanced.Html text else Enhanced.Text text) = Enhanced.Text text
            ∨ (if Enhanced.is_markup text
               then Enhanced.Html text else Enhanced.Text text) = Enhanced.Html text).
  { intros text. destruct (Enhanced.is_markup text); eauto. }
  destruct (Net.server w _) as [e | [ok [e | data]]]; simpl.
  - intros _. split; [done |]. split; [|done].
    eapply Hshown; [reflexivity | apply Hbody | by apply startsWith_app_l].
  - intros _. destruct ok; simpl.
    + split; [done |]. split; [|done].
      eapply Hshown; [reflexivity | apply Hbody | by apply startsWith_app_l].
    + split; [done |]. split; [|done].
      eapply Hshown; [reflexivity | by left | reflexivity].
  - intros Hfail.
    assert (Hcase : ok = false
                    ∨ ∃ e, ok = true ∧ Js.get data "error" = Js.Ok e
                           ∧ Js.truthy e = true).
    { destruct Hfail as [[-> | [e He]] | (r & d & e & Hr & Hok & Hp & Hget & He)];
        [by left | done |].
      injection Hr as <-. simpl in *. injection Hp as <-. right. eauto. }
    destruct Hcase as [-> | (e & -> & Hget & He)]; simpl.
    + destruct (Js.get data "error") as [err | e]; simpl;
        (split; [done |]); (split; [|done]);
        (eapply Hshown; [reflexivity | apply Hbody | by apply startsWith_app_l]).
    + assert (Hres : ∃ r, Js.get data "result" = Js.Ok r).
      { destruct data; try done; by eexists. }
      destruct Hres as [r ->]. simpl. rewrite Hget. simpl. rewrite He. simpl.
      split; [done |]. split; [|done].
      eapply Hshown; [reflexivity | apply Hbody | by apply startsWith_app_l].
Qed.

Lemma enhanced_csv_change_failure (w : Net.world) (s : Enhanced.ui) (file : string) :
  Traffic.transport_failure (Net.server w (Traffic.import_request file)) →
  Eff.returns (Enhanced.csv_change w (Some file)) s = true
  ∧ (∃ e, Enhanced.toast (Eff.exec (Enhanced.csv_change w (Some file)) s)
          = Enhanced.Toast ("❌ Upload failed: " +:+ e) "error" false)
  ∧ Enhanced.requests (Eff.exec (Enhanced.csv_change w (Some file)) s)
    = Enhanced.requests s ++ [Traffic.import_request file].
Proof.
  unfold Traffic.transport_failure, Traffic.import_request.
  unfold Enhanced.csv_change, Enhanced.showToast, Enhanced.setTimeout,
    Enhanced.fetch, Enhanced.json.
  run_monad.
  destruct (Net.server w _) as [e | [ok [e | data]]]; simpl.
  - intros _. eauto.
  - intros _. eauto.
  - intros [-> | [e He]]; [|done]. simpl.
    destruct (Js.get data "error") as [err | e]; simpl; eauto.
Qed.

Lemma enhanced_loadCollections_failure (w : Net.world) (s : Enhanced.ui) :
  Traffic.transport_failure (Net.server w Traffic.collections_request) →
  Eff.returns (Enhanced.loadCollections w) s = true
  ∧ Enhanced.collectionsList (Eff.exec (Enhanced.loadCollections w) s)
    = Enhanced.collections_error
  ∧ Enhanced.requests (Eff.exec (Enhanced.loadCollections w) s)
    = Enhanced.requests s ++ [Traffic.collections_request].
Proof.
  unfold Traffic.transport_failure, Traffic.collections_request.
  unfold Enhanced.loadCollections, Enhanced.fetch, Enhanced.json.
  run_monad.
  destruct (Net.server w _) as [e | [ok [e | data]]]; simpl.
  - intros _. eauto.
  - intros _. destruct ok; simpl; eauto.
  - intros [-> | [e He]]; [|done]. simpl. eauto.
Qed.

(** C4, as stated, fails for an [error] field in the body of an ok response:
    the setup handler (like the import and collections handlers) looks at
    the field only when the status is not ok.  A 200 response with the body
    [{error: boom}] leaves the banner empty on the green background. *)
Lemma setup_ignores_error_field_of_ok_response :
  ¬ (∀ (w : Net.world) (s : Legacy.ui),
       Traffic.failure (Net.server w Traffic.setup_request) →
       ∃ e, Legacy.setupMessage (Eff.exec (Legacy.setup_click w) s)
            = Legacy.Banner ("Failed to setup database: " +:+ e) "#ffebee").
Proof.
  intros Hall.
  destruct
    (Hall
       (Net.World
          (fun _ => Net.Responded
                      (Net.Response true
                         (inr (Js.JObj [("error", Js.JStr "boom")]))))
          (fun _ => 0%Z) (fun _ => ""))
       Legacy.initial) as [e He].
  - right. eexists _, _, _. repeat split; reflexivity.
  - vm_compute in He. discriminate He.
Qed.

(** C4, amended.  In every request handler a request that fails in transport
    (a rejected [fetch], a status that is not ok, a body that does not
    parse) is caught inside the handler and shown: as the red banner of the
    setup and import handlers, as an error message in the chat, as an error
    toast of the upload, as the error line of the collections list.  The
    query and search handlers treat an ok response with a truthy [error]
    field the same way.  The handler returns normally, has issued exactly
    the one request, and the enhanced script has hidden its processing
    indicator again. *)
Theorem request_failures_are_shown :
  (∀ (w : Net.world) (s : Legacy.ui),
     Traffic.transport_failure (Net.server w Traffic.setup_request) →
     Eff.returns (Legacy.setup_click w) s = true
     ∧ (∃ e, Legacy.setupMessage (Eff.exec (Legacy.setup_click w) s)
             = Legacy.Banner ("Failed to setup database: " +:+ e) "#ffebee")
     ∧ Legacy.requests (Eff.exec (Legacy.setup_click w) s)
       = Legacy.requests s ++ [Traffic.setup_request])
  ∧ (∀ (w : Net.world) (s : Legacy.ui) (file : string),
       Legacy.csvFile s = Some file →
       Traffic.transport_failure (Net.server w (Traffic.import_request file)) →
       Eff.returns (Legacy.import_click w) s = true
       ∧ (∃ e, Legacy.importMessage (Eff.exec (Legacy.import_click w) s)
               = Legacy.Banner ("❌ Failed to import CSV: " +:+ e) "#ffebee")
       ∧ Legacy.requests (Eff.exec (Legacy.import_click w) s)
         = Legacy.requests s ++ [Traffic.import_request file])
  ∧ (∀ (w : Net.world) (s : Legacy.ui),
       Js.trim (Legacy.userInput s) ≠ "" →
       Traffic.failure
         (Net.server w
            (Traffic.legacy_query_request (Js.trim (Legacy.userInput s)))) →
       Eff.returns (Legacy.sendQuery w) s = true
       ∧ Traffic.legacy_error_shown (Eff.exec (Legacy.sendQuery w) s)
       ∧ Legacy.requests (Eff.exec (Legacy.sendQuery w) s)
         = Legacy.requests s
           ++ [Traffic.legacy_query_request (Js.trim (Legacy.userInput s))])
  ∧ (∀ (w : Net.world) (s : Enhanced.ui),
       Js.trim (Enhanced.userInput s) ≠ "" →
       Traffic.failure
         (Net.server w (Enhanced.query_request (Enhanced.currentMode s)
                          (Js.trim (Enhanced.userInput s)))) →
       Eff.returns (Enhanced.sendMessage w) s = true
       ∧ Traffic.enhanced_error_shown (Eff.exec (Enhanced.sendMessage w) s)
       ∧ Enhanced.requests (Eff.exec (Enhanced.sendMessage w) s)
         = Enhanced.requests s
           ++ [Enhanced.query_request (Enhanced.currentMode s)
                 (Js.trim (Enhanced.userInput s))]
       ∧ Enhanced.processing_hidden (Eff.exec (Enhanced.sendMessage w) s) = true)
  ∧ (∀ (w : Net.world) (s : Enhanced.ui) (file : string),
       Traffic.transport_failure (Net.server w (Traffic.import_request file)) →
       Eff.returns (Enhanced.csv_change w (Some file)) s = true
       ∧ (∃ e, Enhanced.toast (Eff.exec (Enhanced.csv_change w (Some file)) s)
               = Enhanced.Toast ("❌ Upload failed: " +:+ e) "error" false)
       ∧ Enhanced.requests (Eff.exec (Enhanced.csv_change w (Some file)) s)
         = Enhanced.requests s ++ [Traffic.import_request file])
  ∧ (∀ (w : Net.world) (s : Enhanced.ui),
       Traffic.transport_failure (Net.server w Traffic.collections_request) →
       Eff.returns (Enhanced.loadCollections w) s = true
       ∧ Enhanced.collectionsList (Eff.exec (Enhanced.loadCollections w) s)
         = Enhanced.collections_error
       ∧ Enhanced.requests (Eff.exec (Enhanced.loadCollections w) s)
         = Enhanced.requests s ++ [Traffic.collections_request]).
Proof.
  split; [exact legacy_setup_failure |].
  split; [exact legacy_import_failure |].
  split; [exact legacy_sendQuery_failure |].
  split; [exact enhanced_sendMessage_failure |].
  split; [exact enhanced_csv_change_failure |].
  exact enhanced_loadCollections_failure.
Qed.

Lemma request_failures_are_shown_witness :
  Eff.returns
    (Legacy.setup_click
       (Net.World (fun _ => Net.Rejected "offline") (fun _ => 0%Z) (fun _ => "")))
    Legacy.initial
  = true
  ∧ Eff.returns
      (Legacy.import_click
         (Net.World (fun _ => Net.Rejected "offline") (fun _ => 0%Z) (fun _ => "")))
      (Legacy.Ui (Legacy.Banner "" "") (Legacy.Banner "" "") "" "" (Some "a.csv")
         [] [] [] [] [] [] 0 0)
    = true
  ∧ Traffic.legacy_error_shown
      (Eff.exec
         (Legacy.sendQuery
            (Net.World (fun _ => Net.Rejected "offline") (fun _ => 0%Z) (fun _ => "")))
         (Legacy.set_userInput "how many?" Legacy.initial))
  ∧ Traffic.enhanced_error_shown
      (Eff.exec
         (Enhanced.sendMessage
            (Net.World (fun _ => Net.Rejected "offline") (fun _ => 0%Z) (fun _ => "")))
         (Enhanced.set_userInput "how many?" Enhanced.initial))
  ∧ Eff.returns
      (Enhanced.csv_change
         (Net.World (fun _ => Net.Rejected "offline") (fun _ => 0%Z) (fun _ => ""))
         (Some "a.csv"))
      Enhanced.initial
    = true
  ∧ Enhanced.collectionsList
      (Eff.exec
         (Enhanced.loadCollections
            (Net.World (fun _ => Net.Rejected "offline") (fun _ => 0%Z) (fun _ => "")))
         Enhanced.initial)
    = Enhanced.collections_error.
Proof.
  split; [|split; [|split; [|split; [|split]]]].
  - apply (proj1 request_failures_are_shown). exact I.
  - apply (proj1 (proj2 request_failures_are_shown) _ _ "a.csv");
      [reflexivity | exact I].
  - apply (proj1 (proj2 (proj2 request_failures_are_shown)));
      [discriminate | left; exact I].
  - apply (proj1 (proj2 (proj2 (proj2 request_failures_are_shown))));
      [discriminate | left; exact I].
  - apply (proj1 (proj2 (proj2 (proj2 (proj2 request_failures_are_shown)))) _ _ "a.csv").
    exact I.
  - apply (proj2 (proj2 (proj2 (proj2 (proj2 request_failures_are_shown))))).
    exact I.
Defined.

(** ** What is sent, and what is rendered from the answer *)

Section Keeps.
Context {S X : Type} (proj : S → X).

Lemma keeps_ret {A} (a : A) : Traffic.keeps proj (mret a : Eff.M S A).
Proof. by intros s. Qed.

Lemma keeps_throw {A} (e : string) : Traffic.keeps proj (Eff.throw e : Eff.M S A).
Proof. by intros s. Qed.

Lemma keeps_lift {A} (r : Js.result A) : Traffic.keeps proj (Eff.lift r : Eff.M S A).
Proof. by intros s. Qed.

Lemma keeps_gets {A} (f : S → A) : Traffic.keeps proj (Eff.gets f).
Proof. by intros s. Qed.

Lemma keeps_modify (f : S → S) :
  (∀ s, proj (f s) = proj s) → Traffic.keeps proj (Eff.modify f).
Proof. intros Hf s. run_monad. apply Hf. Qed.

Lemma keeps_bind {A B} (m : Eff.M S A) (k : A → Eff.M S B) :
  Traffic.keeps proj m → (∀ a, Traffic.keeps proj (k a)) →
  Traffic.keeps proj (m ≫= k).
Proof.
  intros Hm Hk s. specialize (Hm s). run_monad.
  destruct (m s) as [[a|e] s1]; simpl in *; [|done].
  specialize (Hk a s1). run_monad. congruence.
Qed.

Lemma keeps_try_catch {A} (body : Eff.M S A) (handler : string → Eff.M S A) :
  Traffic.keeps proj body → (∀ e, Traffic.keeps proj (handler e)) →
  Traffic.keeps proj (Eff.try_catch body handler).
Proof.
  intros Hm Hk s. specialize (Hm s). run_monad.
  destruct (body s) as [[a|e] s1]; simpl in *; [done |].
  specialize (Hk e s1). run_monad. congruence.
Qed.

End Keeps.

Create HintDb kept discriminated.

Ltac keeps_auto :=
  lazymatch goal with
  | |- Traffic.keeps _ (mret _) => apply keeps_ret
  | |- Traffic.keeps _ (Eff.throw _) => apply keeps_throw
  | |- Traffic.keeps _ (Eff.lift _) => apply keeps_lift
  | |- Traffic.keeps _ (Eff.gets _) => apply keeps_gets
  | |- Traffic.keeps _ (Eff.modify _) => apply keeps_modify; intros; reflexivity
  | |- Traffic.keeps _ (_ ≫= _) =>
      apply keeps_bind; [keeps_auto | intros; keeps_auto]
  | |- Traffic.keeps _ (Eff.try_catch _ _) =>
      apply keeps_try_catch; [keeps_auto | intros; keeps_auto]
  | |- Traffic.keeps _ (match ?x with _ => _ end) => destruct x; keeps_auto
  | |- _ => solve [eauto 2 with kept]
  end.

Lemma legacy_json_keeps (r : Net.response) :
  Traffic.keeps Legacy.requests (Legacy.json r).
Proof. unfold Legacy.json. keeps_auto. Qed.

Lemma legacy_Date_now_keeps (w : Net.world) :
  Traffic.keeps Legacy.requests (Legacy.Date_now w).
Proof. unfold Legacy.Date_now. keeps_auto. Qed.

Lemma legacy_createElement_keeps :
  Traffic.keeps Legacy.requests Legacy.createElement.
Proof. unfold Legacy.createElement. keeps_auto. Qed.

Lemma legacy_setTimeout_keeps (t : Legacy.task) (d : nat) :
  Traffic.keeps Legacy.requests (Legacy.setTimeout t d).
Proof. unfold Legacy.setTimeout. keeps_auto. Qed.

Lemma legacy_removeMessage_keeps (i : string) :
  Traffic.keeps Legacy.requests (Legacy.removeMessage i).
Proof. unfold Legacy.removeMessage. keeps_auto. Qed.

#[local] Hint Resolve legacy_json_keeps legacy_Date_now_keeps
  legacy_createElement_keeps legacy_setTimeout_keeps
  legacy_removeMessage_keeps : kept.

Lemma legacy_addMessage_keeps (w : Net.world) (text : Js.jsval) (type : string) :
  Traffic.keeps Legacy.requests (Legacy.addMessage w text type).
Proof. unfold Legacy.addMessage. keeps_auto. Qed.

Lemma legacy_formatResults_keeps (results : list Js.jsval) (summary : Js.jsval)
  (rawData : list Js.jsval) :
  Traffic.keeps Legacy.requests (Legacy.formatResults results summary rawData).
Proof. unfold Legacy.formatResults. keeps_auto. Qed.

#[local] Hint Resolve legacy_addMessage_keeps legacy_formatResults_keeps : kept.

Lemma legacy_show_results_keeps (w : Net.world) (data : Js.jsval) :
  Traffic.keeps Legacy.requests (Legacy.show_results w data).
Proof. unfold Legacy.show_results. keeps_auto. Qed.

#[local] Hint Resolve legacy_show_results_keeps : kept.

Lemma enhanced_json_keeps (r : Net.response) :
  Traffic.keeps Enhanced.requests (Enhanced.json r).
Proof. unfold Enhanced.json. keeps_auto. Qed.

Lemma enhanced_Date_now_keeps (w : Net.world) :
  Traffic.keeps Enhanced.requests (Enhanced.Date_now w).
Proof. unfold Enhanced.Date_now. keeps_auto. Qed.

Lemma enhanced_random_suffix_keeps (w : Net.world) :
  Traffic.keeps Enhanced.requests (Enhanced.random_suffix w).
Proof. unfold Enhanced.random_suffix. keeps_auto. Qed.

Lemma enhanced_createElement_keeps :
  Traffic.keeps Enhanced.requests Enhanced.createElement.
Proof. unfold Enhanced.createElement. keeps_auto. Qed.

Lemma enhanced_setTimeout_keeps (t : Enhanced.task) (d : nat) :
  Traffic.keeps Enhanced.requests (Enhanced.setTimeout t d).
Proof. unfold Enhanced.setTimeout. keeps_auto. Qed.

Lemma enhanced_hideProcessing_keeps :
  Traffic.keeps Enhanced.requests Enhanced.hideProcessing.
Proof. unfold Enhanced.hideProcessing. keeps_auto. Qed.

Lemma enhanced_showProcessing_keeps :
  Traffic.keeps Enhanced.requests Enhanced.showProcessing.
Proof. unfold Enhanced.showProcessing. keeps_auto. Qed.

Lemma enhanced_updateSendButton_keeps :
  Traffic.keeps Enhanced.requests Enhanced.updateSendButton.
Proof. unfold Enhanced.updateSendButton. keeps_auto. Qed.

#[local] Hint Resolve enhanced_json_keeps enhanced_Date_now_keeps
  enhanced_random_suffix_keeps enhanced_createElement_keeps
  enhanced_setTimeout_keeps enhanced_hideProcessing_keeps
  enhanced_showProcessing_keeps enhanced_updateSendButton_keeps : kept.

Lemma enhanced_addMessage_keeps (w : Net.world) (text : Js.jsval) (type : string)
  (downloadData : Js.jsval) :
  Traffic.keeps Enhanced.requests (Enhanced.addMessage w text type downloadData).
Proof. unfold Enhanced.addMessage. keeps_auto. Qed.

#[local] Hint Resolve enhanced_addMessage_keeps : kept.

Lemma enhanced_show_response_keeps (w : Net.world) (data : Js.jsval) :
  Traffic.keeps Enhanced.requests (Enhanced.show_response w data).
Proof. unfold Enhanced.show_response. keeps_auto. Qed.

#[local] Hint Resolve enhanced_show_response_keeps : kept.

(** *** Reasoning forward through a handler *)

Section Post.
Context {S : Type}.

Lemma post_ret {A} (a : A) (s : S) (Q : Js.result A → S → Prop) :
  Q (Js.Ok a) s → Traffic.post (mret a) s Q.
Proof. done. Qed.

Lemma post_throw {A} (e : string) (s : S) (Q : Js.result A → S → Prop) :
  Q (Js.Throw e) s → Traffic.post (Eff.throw e) s Q.
Proof. done. Qed.

Lemma post_lift {A} (r : Js.result A) (s : S) (Q : Js.result A → S → Prop) :
  Q r s → Traffic.post (Eff.lift r) s Q.
Proof. done. Qed.

Lemma post_gets {A} (f : S → A) (s : S) (Q : Js.result A → S → Prop) :
  Q (Js.Ok (f s)) s → Traffic.post (Eff.gets f) s Q.
Proof. done. Qed.

Lemma post_modify (f : S → S) (s : S) (Q : Js.result unit → S → Prop) :
  Q (Js.Ok tt) (f s) → Traffic.post (Eff.modify f) s Q.
Proof. done. Qed.

Lemma post_bind {A B} (m : Eff.M S A) (k : A → Eff.M S B) (s : S)
  (Q : Js.result B → S → Prop) :
  Traffic.post m s
    (fun r s1 =>
       match r with
       | Js.Ok a => Traffic.post (k a) s1 Q
       | Js.Throw e => Q (Js.Throw e) s1
       end) →
  Traffic.post (m ≫= k) s Q.
Proof.
  unfold Traffic.post. run_monad. by destruct (m s) as [[a | e] s1].
Qed.

Lemma post_try_catch {A} (body : Eff.M S A) (handler : string → Eff.M S A)
  (s : S) (Q : Js.result A → S → Prop) :
  Traffic.post body s
    (fun r s1 =>
       match r with
       | Js.Ok a => Q (Js.Ok a) s1
       | Js.Throw e => Traffic.post (handler e) s1 Q
       end) →
  Traffic.post (Eff.try_catch body handler) s Q.
Proof.
  unfold Traffic.post. run_monad. by destruct (body s) as [[a | e] s1].
Qed.

Lemma post_keeps {A X} (proj : S → X) (m : Eff.M S A) (s : S)
  (Q : Js.result A → S → Prop) :
  Traffic.keeps proj m →
  (∀ r s1, proj s1 = proj s → Q r s1) →
  Traffic.post m s Q.
Proof. intros Hm HQ. apply HQ. apply Hm. Qed.

Lemma post_exec {A} (m : Eff.M S A) (s : S) (P : S → Prop) :
  Traffic.post m s (fun _ s1 => P s1) → P (Eff.exec m s).
Proof. done. Qed.

Lemma post_run {A} (m : Eff.M S A) (s s1 : S) (r : Js.result A)
  (Q : Js.result A → S → Prop) :
  m s = (r, s1) → Q r s1 → Traffic.post m s Q.
Proof. unfold Traffic.post. by intros ->. Qed.

End Post.

(** [addMessage] always returns; it appends one message and touches neither
    the network log, the mode, the input nor the processing indicator. *)
Lemma enhanced_addMessage_ok (w : Net.world) (text : Js.jsval) (type : string)
  (downloadData : Js.jsval) (s : Enhanced.ui) :
  ∃ m s1,
    Enhanced.addMessage w text type downloadData s = (Js.Ok m, s1)
    ∧ Enhanced.requests s1 = Enhanced.requests s
    ∧ Enhanced.currentMode s1 = Enhanced.currentMode s
    ∧ Enhanced.processing_hidden s1 = Enhanced.processing_hidden s
    ∧ Enhanced.messagesWrapper s1 = Enhanced.messagesWrapper s ++ [m]
    ∧ Enhanced.className m = "message " +:+ type
    ∧ Enhanced.shown m
      = match text with
        | Js.JStr t => if Enhanced.is_markup t then Enhanced.Html t else Enhanced.Text t
        | v => Enhanced.Text (Enhanced.text_of v)
        end
    ∧ Enhanced.messageDownloadData s1
      = match downloadData with
        | Js.JArr rows => <[Enhanced.id m := rows]> (Enhanced.messageDownloadData s)
        | _ => Enhanced.messageDownloadData s
        end.
Proof.
  unfold Enhanced.addMessage, Enhanced.createElement, Enhanced.Date_now,
    Enhanced.random_suffix, Enhanced.setTimeout.
  run_monad. destruct downloadData; eexists _, _; repeat split; reflexivity.
Qed.

(** Whatever the backend answers, a non-blank question makes [sendMessage]
    issue exactly the request of the current mode. *)
Lemma enhanced_sendMessage_request (w : Net.world) (s : Enhanced.ui) :
  Js.trim (Enhanced.userInput s) ≠ "" →
  Enhanced.requests (Eff.exec (Enhanced.sendMessage w) s)
  = Enhanced.requests s
    ++ [Enhanced.query_request (Enhanced.currentMode s)
          (Js.trim (Enhanced.userInput s))].
Proof.
  intros Hq. apply post_exec. unfold Enhanced.sendMessage.
  apply post_bind, post_gets. rewrite (bool_decide_eq_false_2 _ Hq).
  set (question := Js.trim (Enhanced.userInput s)).
  apply post_bind.
  destruct (enhanced_addMessage_ok w (Js.JStr question) "user" Js.JNull s)
    as (m & s1 & Hrun & Hreq & Hmode & _).
  apply (post_run _ _ _ _ _ Hrun).
  apply post_bind, post_modify.
  unfold Enhanced.updateSendButton.
  apply post_bind, post_bind, post_gets, post_modify.
  unfold Enhanced.showProcessing. apply post_bind, post_modify.
  apply post_try_catch, post_bind, post_gets. simpl Enhanced.currentMode.
  rewrite Hmode. unfold Enhanced.fetch.
  apply post_bind, post_bind, post_modify.
  assert (Hcatch : ∀ e,
            Traffic.keeps Enhanced.requests
              (Enhanced.hideProcessing;;
               _ ← Enhanced.addMessage w (Js.JStr ("Error: " +:+ e)) "error" Js.JNull;
               mret tt)) by (intros e; keeps_auto).
  destruct (Net.server w _) as [e | response].
  - apply post_throw.
    apply (post_keeps _ _ _ _ (Hcatch e)). intros _ s2 ->. simpl.
    by rewrite Hreq.
  - apply post_ret.
    match goal with
    | |- Traffic.post ?after _ _ =>
        assert (Hafter : Traffic.keeps Enhanced.requests after) by keeps_auto
    end.
    apply (post_keeps _ _ _ _ Hafter). intros [[] | e] s2 Hs2.
    + rewrite Hs2. simpl. by rewrite Hreq.
    + apply (post_keeps _ _ _ _ (Hcatch e)). intros _ s3 ->.
      rewrite Hs2. simpl. by rewrite Hreq.
Qed.

Lemma legacy_addMessage_ok (w : Net.world) (text type : string) (s : Legacy.ui) :
  ∃ i s1,
    Legacy.addMessage w (Js.JStr text) type s = (Js.Ok i, s1)
    ∧ Legacy.requests s1 = Legacy.requests s
    ∧ Legacy.chatMessages s1
      = Legacy.chatMessages s
        ++ [Legacy.Message (Legacy.nodes s) i ("message " +:+ type)
              (if Js.startsWith Legacy.summary_open text || Js.startsWith "<table" text
               then text
               else "<pre>" +:+ Legacy.escapeHtml (Js.JStr text) +:+ "</pre>")].
Proof.
  unfold Legacy.addMessage, Legacy.createElement, Legacy.Date_now.
  run_monad. eexists _, _. repeat split; reflexivity.
Qed.

Lemma legacy_sendQuery_request (w : Net.world) (s : Legacy.ui) :
  Js.trim (Legacy.userInput s) ≠ "" →
  Legacy.requests (Eff.exec (Legacy.sendQuery w) s)
  = Legacy.requests s
    ++ [Traffic.legacy_query_request (Js.trim (Legacy.userInput s))].
Proof.
  intros Hq. apply post_exec. unfold Legacy.sendQuery.
  apply post_bind, post_gets. rewrite (bool_decide_eq_false_2 _ Hq).
  set (question := Js.trim (Legacy.userInput s)).
  apply post_bind.
  destruct (legacy_addMessage_ok w question "user" s)
    as (i & s1 & Hrun & Hreq & _).
  apply (post_run _ _ _ _ _ Hrun).
  apply post_bind, post_modify, post_bind.
  destruct (legacy_addMessage_ok w "Processing your question..." "system"
              (Legacy.set_userInput "" s1))
    as (loading & s2 & Hrun2 & Hreq2 & _).
  simpl in Hreq2.
  apply (post_run _ _ _ _ _ Hrun2).
  assert (Hcatch : ∀ e,
            Traffic.keeps Legacy.requests
              (Legacy.removeMessage loading;;
               _ ← Legacy.addMessage w
                     (Js.JStr ("Error processing your query: " +:+ e)) "error";
               mret tt)) by (intros e; keeps_auto).
  apply post_try_catch. unfold Legacy.fetch.
  apply post_bind, post_bind, post_modify.
  destruct (Net.server w _) as [e | response].
  - apply post_throw.
    apply (post_keeps _ _ _ _ (Hcatch e)). intros _ s3 ->. simpl.
    by rewrite Hreq2, Hreq.
  - apply post_ret.
    match goal with
    | |- Traffic.post ?after _ _ =>
        assert (Hafter : Traffic.keeps Legacy.requests after) by keeps_auto
    end.
    apply (post_keeps _ _ _ _ Hafter). intros [[] | e] s3 Hs3.
    + rewrite Hs3. simpl. by rewrite Hreq2, Hreq.
    + apply (post_keeps _ _ _ _ (Hcatch e)). intros _ s4 ->.
      rewrite Hs3. simpl. by rewrite Hreq2, Hreq.
Qed.

Lemma select_results_first_truthy (props : list (string * Js.jsval)) :
  Enhanced.select_results (Js.JObj props)
  = Js.Ok (Spec.first_truthy
             [Js.assoc "result" props; Js.assoc "patents" props;
              Js.assoc "sample_result" props]
             (Js.JArr [])).
Proof. reflexivity. Qed.

Lemma select_summary_first_truthy (props : list (string * Js.jsval)) :
  Enhanced.select_summary (Js.JObj props)
  = Js.Ok (Spec.first_truthy
             [Js.assoc "result_summary" props; Js.assoc "summary" props]
             (Js.JStr "")).
Proof. reflexivity. Qed.

(** What the summary of the enhanced script becomes before it is rendered:
    it stays as it is, or, in database mode, gets the searched collections
    appended. *)
Lemma enhance_summary_cases (m : Enhanced.mode) (summary cs es : Js.jsval) :
  Enhanced.enhance_summary m summary cs = Js.Ok es →
  es = summary
  ∨ (m = Enhanced.Database
     ∧ ∃ tail, es = Js.JStr (Js.String_ summary +:+ Js.NL +:+ Js.NL
                             +:+ "Searched " +:+ tail)).
Proof.
  unfold Enhanced.enhance_summary.
  destruct (Js.get cs "length") as [len | e]; simpl; [|done].
  destruct (Js.gt_zero len); simpl; [|intros [= <-]; by left].
  destruct m; simpl; [|intros [= <-]; by left].
  destruct (Js.includes_method _ summary _) as [[] | e]; simpl;
    [intros [= <-]; by left | | done].
  destruct (Js.join_method _ cs _) as [joined | e]; simpl; [|done].
  intros [= <-]. right. split; [done |]. by eexists.
Qed.

Lemma enhanced_show_response_table (w : Net.world) (props : list (string * Js.jsval))
  (s : Enhanced.ui) (row : Js.jsval) (rows : list Js.jsval) (es : Js.jsval)
  (html : string) :
  Js.truthy (Js.assoc "error" props) = false →
  Spec.first_truthy
    [Js.assoc "result" props; Js.assoc "patents" props;
     Js.assoc "sample_result" props] (Js.JArr [])
  = Js.JArr (row :: rows) →
  Enhanced.enhance_summary (Enhanced.currentMode s)
    (Spec.first_truthy
       [Js.assoc "result_summary" props; Js.assoc "summary" props] (Js.JStr ""))
    (Js.or_else (Js.assoc "collections_searched" props) (Js.JArr []))
  = Js.Ok es →
  Enhanced.table_html (row :: rows) es (Js.JObj props) = Js.Ok html →
  Eff.exec (Enhanced.show_response w (Js.JObj props)) s
  = Eff.exec (Enhanced.addMessage w (Js.JStr html) "assistant" (Js.JArr (row :: rows))) s.
Proof.
  intros Herr Hres Hsum Hhtml.
  unfold Enhanced.show_response.
  rewrite select_results_first_truthy, select_summary_first_truthy.
  run_monad. rewrite Herr. simpl in *. rewrite Hres, Hsum. simpl.
  rewrite Hhtml. reflexivity.
Qed.

Lemma includes_prefix (p s : string) :
  Js.startsWith p s = true → Js.includes p s = true.
Proof.
  unfold Js.startsWith. intros H.
  destruct s as [|a s]; [by destruct p |].
  change (Js.includes p (String a s))
    with (String.prefix p (String a s) || Js.includes p s).
  by rewrite H.
Qed.

Lemma includes_app_r (p a b : string) :
  Js.includes p b = true → Js.includes p (a +:+ b) = true.
Proof.
  intros H. induction a as [|x a IH]; norm_app; [done |].
  simpl. rewrite IH. apply orb_true_r.
Qed.

Lemma header_cells_extend (keys : list string) (html : string) :
  ∃ tail,
    fold_left (fun html k => html +:+ Enhanced.header_cell k) keys html
    = html +:+ tail.
Proof.
  revert html. induction keys as [|k keys IH]; intros html; simpl.
  - exists "". by rewrite app_nil_r_s.
  - destruct (IH (html +:+ Enhanced.header_cell k)) as [tail ->].
    eexists. by rewrite app_assoc_s.
Qed.

Lemma enhanced_append_rows_extend (keys : list string) (results : list Js.jsval)
  (html out : string) :
  Enhanced.append_rows keys results html = Js.Ok out →
  ∃ tail, out = html +:+ tail.
Proof.
  revert html. induction results as [|r rest IH]; intros html; simpl.
  - intros [= <-]. exists "". by rewrite app_nil_r_s.
  - destruct (Js.mapM (Enhanced.data_cell r) keys) as [cells | e]; simpl; [|done].
    intros Hout. destruct (IH _ Hout) as [tail ->].
    eexists. by rewrite !app_assoc_s.
Qed.

(** The markup of the enhanced table opens with the summary block and holds
    a [<table]: [addMessage] assigns it to [innerHTML]. *)
Lemma enhanced_table_html_shape (results : list Js.jsval) (summary data : Js.jsval)
  (html : string) :
  Enhanced.table_html results summary data = Js.Ok html →
  (∃ tail, html = Enhanced.summary_block summary +:+ tail)
  ∧ Enhanced.is_markup html = true.
Proof.
  unfold Enhanced.table_html.
  destruct (Enhanced.table_keys results) as [keys | e]; simpl; [|done].
  destruct (Enhanced.collections_block summary data) as [block | e]; simpl; [|done].
  match goal with
  | |- context [fold_left _ ?ks ?h0] =>
      destruct (header_cells_extend ks h0) as [cells Hcells]
  end.
  rewrite Hcells.
  destruct (Enhanced.append_rows _ results _) as [out | e] eqn:Hout; simpl; [|done].
  intros [= <-].
  destruct (enhanced_append_rows_extend _ _ _ _ Hout) as [tail ->].
  rewrite app_nil_l_s, !app_assoc_s.
  split; [by eexists |].
  unfold Enhanced.is_markup. apply orb_true_intro. left.
  do 7 apply includes_app_r.
  apply includes_prefix. by apply startsWith_app_l.
Qed.

Lemma legacy_table_html_opens (results : list Js.jsval) (summary : Js.jsval)
  (html : string) :
  Legacy.table_html results summary = Js.Ok html →
  Js.startsWith Legacy.summary_open html = true.
Proof.
  intros H.
  destruct (legacy_formatResults_escapes _ _ _ H) as (keys & cells & _ & _ & ->).
  by apply startsWith_app_l.
Qed.

Lemma legacy_show_results_table (w : Net.world) (props : list (string * Js.jsval))
  (s : Legacy.ui) (row : Js.jsval) (rows : list Js.jsval) (html : string) :
  Spec.first_truthy
    [Js.assoc "result" props; Js.assoc "sample_result" props] (Js.JArr [])
  = Js.JArr (row :: rows) →
  Legacy.table_html (row :: rows)
    (Spec.first_truthy [Js.assoc "result_summary" props] (Js.JStr ""))
  = Js.Ok html →
  Legacy.chatMessages (Eff.exec (Legacy.show_results w (Js.JObj props)) s)
  = Legacy.chatMessages s
    ++ [Legacy.Message (Legacy.nodes s) (pretty (Net.Date_now w (Legacy.clock s)))
          "message system" html]
  ∧ Legacy.timers (Eff.exec (Legacy.show_results w (Js.JObj props)) s)
    = Legacy.timers s ++ [(50, Legacy.AttachDownload (row :: rows))].
Proof.
  intros Hres Hhtml.
  pose proof (legacy_table_html_opens _ _ _ Hhtml) as Hopen.
  unfold Legacy.show_results, Legacy.formatResults, Legacy.addMessage,
    Legacy.createElement, Legacy.Date_now, Legacy.setTimeout.
  simpl in Hres, Hhtml. unfold Js.or_else.
  run_monad.
  destruct (Js.truthy (Js.assoc "query" props)); simpl;
    [destruct (Js.JSON_stringify (Js.assoc "query" props)); simpl |];
    rewrite Hres; simpl; rewrite Hhtml; simpl; rewrite Hopen; simpl; done.
Qed.




(** ** [downloadCSV] of [script.js]: the header row *)

(** The older script reads the columns of the export off the first row
    alone: a key that first appears in a later row gets no column. *)
Lemma legacy_downloadCSV_export
  (w : Net.world) (row : list (string * Js.jsval))
  (rows : list (list (string * Js.jsval))) (s : Legacy.ui) :
  Legacy.downloads (Eff.exec (Legacy.downloadCSV w (map Js.JObj (row :: rows))) s)
  = Legacy.downloads s
    ++ [(CsvWriter.file_name (Net.Date_now w (Legacy.clock s)),
         Js.join Js.NL
           (Js.join "," (map fst row)
            :: map (fun props =>
                      Js.join ","
                        (map (fun h => CsvWriter.quote_field
                                         (CsvWriter.field_text (Js.assoc h props)))
                           (map fst row)))
                 (row :: rows)))].
Proof.
  unfold Legacy.downloadCSV.
  pose proof (csvRows_objects (map fst row) (row :: rows)) as Hrows.
  run_monad. rewrite Hrows. reflexivity.
Qed.

(** C1. The claim says the header row of the export is the union of the keys
    of all rows.  [downloadCSV] of [script.js] takes the header from the
    first row only: for the rows [{a: 1}] and [{b: 2}] the file it writes has
    the single column [a], the second data line is an empty quoted field, and
    the value [2] is nowhere in the file.  On the same rows the table that
    [formatResults] of the same script draws has both columns, and
    [downloadCSV] of the later script writes the header [a,b].  Quoting and
    the file name are as claimed in both. *)
Theorem legacy_downloadCSV_header_from_first_row (w : Net.world) :
  Legacy.downloads
    (Eff.exec
       (Legacy.downloadCSV w
          [Js.JObj [("a", Js.JNum 1)]; Js.JObj [("b", Js.JNum 2)]])
       Legacy.initial)
  = [("query_results_" +:+ pretty (Net.Date_now w 0) +:+ ".csv",
      "a" +:+ Js.NL
      +:+ Js.DQ +:+ "1" +:+ Js.DQ +:+ Js.NL
      +:+ Js.DQ +:+ Js.DQ)]
  ∧ Legacy.table_keys [Js.JObj [("a", Js.JNum 1)]; Js.JObj [("b", Js.JNum 2)]]
    = Js.Ok ["a"; "b"]
  ∧ Enhanced.downloads
      (Eff.exec
         (Enhanced.downloadCSV w
            [Js.JObj [("a", Js.JNum 1)]; Js.JObj [("b", Js.JNum 2)]])
         Enhanced.initial)
    = [("query_results_" +:+ pretty (Net.Date_now w 0) +:+ ".csv",
        "a,b" +:+ Js.NL
        +:+ Js.DQ +:+ "1" +:+ Js.DQ +:+ "," +:+ Js.DQ +:+ Js.DQ +:+ Js.NL
        +:+ Js.DQ +:+ Js.DQ +:+ "," +:+ Js.DQ +:+ "2" +:+ Js.DQ)].
Proof.
  repeat split; reflexivity.
Qed.

(** * More of the scripts *)

(** ** What escaped text displays *)

Lemma read_escape (s out : string) :
  Html.read None out (Spec.escape s) = out +:+ s.
Proof.
  revert out. induction s as [|a s IH]; intros out.
  - simpl. by rewrite app_nil_r_s.
  - simpl Spec.escape. unfold Spec.entity.
    destruct (decide (a = "&"%char)) as [->|H1];
      [norm_app; simpl; rewrite IH, app_assoc_s; by norm_app |].
    destruct (decide (a = "<"%char)) as [->|H2];
      [norm_app; simpl; rewrite IH, app_assoc_s; by norm_app |].
    destruct (decide (a = ">"%char)) as [->|H3];
      [norm_app; simpl; rewrite IH, app_assoc_s; by norm_app |].
    destruct (decide (a = Js.dquote)) as [->|H4];
      [norm_app; simpl; rewrite IH, app_assoc_s; by norm_app |].
    destruct (decide (a = Js.squote)) as [->|H5];
      [norm_app; simpl; rewrite IH, app_assoc_s; by norm_app |].
    norm_app. simpl. rewrite decide_False by done.
    rewrite IH, app_assoc_s. by norm_app.
Qed.

Lemma text_node_char_plain (a : ascii) :
  a ≠ "&"%char → a ≠ "<"%char → a ≠ ">"%char → a ≠ "160"%char →
  Enhanced.text_node_char a = String a "".
Proof.
  intros H1 H2 H3 H4. destruct a as [[] [] [] [] [] [] [] []]; done.
Qed.

Lemma read_text_node_markup (s out : string) :
  Html.read None out (Enhanced.text_node_markup s) = out +:+ s.
Proof.
  revert out. induction s as [|a s IH]; intros out.
  - simpl. by rewrite app_nil_r_s.
  - simpl Enhanced.text_node_markup.
    destruct (decide (a = "&"%char)) as [->|H1];
      [simpl; rewrite IH, app_assoc_s; by norm_app |].
    destruct (decide (a = "<"%char)) as [->|H2];
      [simpl; rewrite IH, app_assoc_s; by norm_app |].
    destruct (decide (a = ">"%char)) as [->|H3];
      [simpl; rewrite IH, app_assoc_s; by norm_app |].
    destruct (decide (a = "160"%char)) as [->|H4];
      [simpl; rewrite IH, app_assoc_s; by norm_app |].
    rewrite text_node_char_plain by done.
    norm_app. simpl. rewrite decide_False by done.
    rewrite IH, app_assoc_s. by norm_app.
Qed.

Lemma text_node_markup_no_angle (c : ascii) (s : string) :
  c = "<"%char ∨ c = ">"%char →
  Spec.occurs c (Enhanced.text_node_markup s) = false.
Proof.
  intros Hc. induction s as [|a s IH]; [done |].
  simpl. rewrite occurs_app, IH, orb_false_r.
  destruct (decide (a = "&"%char)) as [->|H1]; [by destruct Hc as [-> | ->] |].
  destruct (decide (a = "<"%char)) as [->|H2]; [by destruct Hc as [-> | ->] |].
  destruct (decide (a = ">"%char)) as [->|H3]; [by destruct Hc as [-> | ->] |].
  destruct (decide (a = "160"%char)) as [->|H4]; [by destruct Hc as [-> | ->] |].
  rewrite text_node_char_plain by done. simpl. rewrite orb_false_r.
  apply bool_decide_eq_false_2. destruct Hc as [-> | ->]; congruence.
Qed.

(** X1.  In [script.js], [escapeHtml] returns the empty string for [null] and
    [undefined], and for every other value a text without [<], [>] and the
    two quotes in which every [&] opens one of the five entities; the table
    [formatResults] builds consists of fixed markup and of the summary, the
    header keys and the cell values, each passed through [escapeHtml]. *)
Theorem legacy_escapeHtml_and_table_are_safe
  (v : Js.jsval) (results : list Js.jsval) (summary : Js.jsval) (html : string) :
  Legacy.table_html results summary = Js.Ok html →
  (Js.is_nullish v = true → Legacy.escapeHtml v = "")
  ∧ Spec.escaped (Legacy.escapeHtml v)
  ∧ (∀ c, c ∈ ["<"%char; ">"%char; Js.dquote; Js.squote] →
          Spec.occurs c (Legacy.escapeHtml v) = false)
  ∧ ∃ (keys : list string) (cells : list (list Js.jsval)),
      Legacy.table_keys results = Js.Ok keys
      ∧ Forall2 (fun r values => Js.mapM (Js.get r) keys = Js.Ok values) results cells
      ∧ html
        = Legacy.summary_open +:+ Legacy.escapeHtml summary +:+ "</div>"
          +:+ "<table><tr>"
          +:+ Js.join ""
                (map (fun k => "<th>" +:+ Legacy.escapeHtml (Js.JStr k) +:+ "</th>") keys)
          +:+ "</tr>"
          +:+ Js.join ""
                (map (fun values =>
                        "<tr>"
                        +:+ Js.join ""
                              (map (fun v => "<td>" +:+ Legacy.escapeHtml v +:+ "</td>")
                                 values)
                        +:+ "</tr>")
                   cells)
          +:+ "</table>" +:+ Legacy.download_button.
Proof.
  intros Hhtml.
  split; [by unfold Legacy.escapeHtml; intros -> |].
  split; [apply legacy_escapeHtml_safe |].
  split; [apply legacy_escapeHtml_safe |].
  by apply legacy_formatResults_escapes.
Qed.

Lemma legacy_escapeHtml_and_table_are_safe_witness :
  Spec.escaped (Legacy.escapeHtml (Js.JStr "<b>"))
  ∧ ∃ keys, Legacy.table_keys [Js.JObj [("a<b", Js.JStr "1 & 2")]] = Js.Ok keys.
Proof.
  destruct (legacy_escapeHtml_and_table_are_safe (Js.JStr "<b>")
              [Js.JObj [("a<b", Js.JStr "1 & 2")]] (Js.JStr "one row")
              (match Legacy.table_html [Js.JObj [("a<b", Js.JStr "1 & 2")]]
                       (Js.JStr "one row")
               with Js.Ok html => html | Js.Throw _ => "" end)
              eq_refl)
    as (_ & Hesc & _ & keys & _ & Hkeys & _).
  split; [exact Hesc | exists keys; exact Hkeys].
Defined.

(** X2.  What [escapeHtml] of [script.js] returns displays as the text it was
    given: resolving the character references of the result gives back
    [String(value)], for every value other than [null] and [undefined]. *)
Theorem legacy_escapeHtml_displays_the_text (v : Js.jsval) :
  Html.decode (Legacy.escapeHtml v)
  = if Js.is_nullish v then "" else Js.String_ v.
Proof.
  rewrite legacy_escapeHtml_one_pass. destruct (Js.is_nullish v); [done |].
  unfold Html.decode. by rewrite read_escape.
Qed.

(** X3.  [escapeHtml] of the enhanced script returns a text without [<] and
    [>], whatever the value, and the text displays as [String(value)]: it is
    safe to interpolate as the content of an element. *)
Theorem enhanced_escapeHtml_is_safe_as_element_content (v : Js.jsval) :
  Spec.occurs "<" (Enhanced.escapeHtml v) = false
  ∧ Spec.occurs ">" (Enhanced.escapeHtml v) = false
  ∧ Html.decode (Enhanced.escapeHtml v)
    = if Js.is_nullish v then "" else Js.String_ v.
Proof.
  unfold Enhanced.escapeHtml. destruct (Js.is_nullish v); [done |].
  split; [apply text_node_markup_no_angle; by left |].
  split; [apply text_node_markup_no_angle; by right |].
  unfold Html.decode. by rewrite read_text_node_markup.
Qed.

(** ** The typewriter *)

Lemma substring0_zero (s : string) : Js.substring0 0 s = "".
Proof. by destruct s. Qed.

Lemma substring0_charAt (i : nat) (text : string) :
  i < String.length text →
  Js.substring0 i text +:+ Restyled.charAt i text = Js.substring0 (S i) text.
Proof.
  revert i. induction text as [|a text IH]; intros i Hi; simpl in Hi; [lia |].
  destruct i as [|i].
  - rewrite substring0_zero. norm_app.
    change (String a "" = String a (Js.substring0 0 text)).
    by rewrite substring0_zero.
  - change (String a (Js.substring0 i text +:+ Restyled.charAt i text)
            = String a (Js.substring0 (S i) text)).
    rewrite IH by lia. done.
Qed.

Lemma substring0_all (n : nat) (text : string) :
  String.length text ≤ n → Js.substring0 n text = text.
Proof.
  revert n. induction text as [|a text IH]; intros n Hn; [by destruct n |].
  simpl in Hn. destruct n as [|n]; [lia |].
  simpl. rewrite IH; [done | lia].
Qed.

(** X4.  [typeWriter] of the restyled script, started on an element no other
    call is typing into, shows one more character of the text with every
    timer that fires: after [k] timers the element holds the first [k + 1]
    characters and one call is pending, and once the timers have run out,
    after as many as the text has characters, it holds exactly the text
    and nothing is pending any more. *)
Theorem typeWriter_types_the_text (text : string) (d : Restyled.display) (k : nat) :
  Restyled.timers d = [] →
  Nat.iter k Restyled.fire (Restyled.typeWriter text 0 d)
  = if bool_decide (k < String.length text)
    then Restyled.Display (Js.substring0 (S k) text) [(text, S k)]
    else Restyled.Display text [].
Proof.
  intros Hd. induction k as [|k IH].
  - simpl. unfold Restyled.typeWriter. simpl. rewrite Hd.
    case_bool_decide as Hlen.
    + simpl. f_equal.
      change (Js.substring0 0 text +:+ Restyled.charAt 0 text
              = Js.substring0 1 text).
      rewrite <- (substring0_charAt 0 text Hlen). by rewrite substring0_zero.
    + destruct text; [done | simpl in Hlen; lia].
  - simpl Nat.iter. rewrite IH. clear IH.
    case_bool_decide as Hk.
    + unfold Restyled.fire. cbn [Restyled.timers Restyled.textContent].
      unfold Restyled.typeWriter.
      rewrite (bool_decide_eq_false_2 (S k = 0)) by lia.
      cbn [Restyled.timers Restyled.textContent].
      destruct (decide (S k < String.length text)) as [Hk'|Hk'].
      * rewrite !bool_decide_eq_true_2 by lia.
        by rewrite substring0_charAt by lia.
      * rewrite !bool_decide_eq_false_2 by lia.
        by rewrite substring0_all by lia.
    + rewrite bool_decide_eq_false_2 by lia. done.
Qed.

Lemma typeWriter_types_the_text_witness :
  Nat.iter 5 Restyled.fire
    (Restyled.typeWriter "{a:1}" 0 (Restyled.Display "old query" []))
  = Restyled.Display "{a:1}" [].
Proof.
  apply (typeWriter_types_the_text "{a:1}" (Restyled.Display "old query" []) 5).
  reflexivity.
Defined.

(** ** [removeMessage] *)

Lemma remove_first_unused (i : string) (ms : list Legacy.message) :
  Page.unused_id i ms → Legacy.remove_first i ms = ms.
Proof.
  induction 1 as [|m ms Hm _ IH]; [done |].
  simpl. rewrite decide_False by done. by rewrite IH.
Qed.

Lemma remove_first_app (i : string) (before after : list Legacy.message)
  (m : Legacy.message) :
  Page.unused_id i before → Legacy.id m = i →
  Legacy.remove_first i (before ++ m :: after) = before ++ after.
Proof.
  intros Hb Hm. induction Hb as [|m' ms Hm' _ IH]; simpl.
  - by rewrite decide_True.
  - rewrite decide_False by done. by rewrite IH.
Qed.

(** X5.  [removeMessage(id)] of [script.js] takes the first message that
    carries the id out of the chat and leaves the others in their order; when
    no message carries the id, the chat stays as it is. *)
Theorem removeMessage_takes_out_the_first_with_the_id
  (i : string) (s : Legacy.ui) :
  (Page.unused_id i (Legacy.chatMessages s) →
   Legacy.chatMessages (Eff.exec (Legacy.removeMessage i) s) = Legacy.chatMessages s)
  ∧ (∀ before m after,
       Legacy.chatMessages s = before ++ m :: after →
       Page.unused_id i before → Legacy.id m = i →
       Legacy.chatMessages (Eff.exec (Legacy.removeMessage i) s) = before ++ after).
Proof.
  split.
  - intros Hi. simpl. by apply remove_first_unused.
  - intros before m after Hs Hb Hm. simpl. rewrite Hs.
    by apply remove_first_app.
Qed.

Lemma removeMessage_takes_out_the_first_with_the_id_witness :
  Legacy.chatMessages
    (Eff.exec (Legacy.removeMessage "17")
       (Legacy.set_chatMessages
          [Legacy.Message 0 "16" "message user" "<pre>q</pre>";
           Legacy.Message 1 "17" "message system" "<pre>wait</pre>";
           Legacy.Message 2 "17" "message system" "<pre>again</pre>"]
          Legacy.initial))
  = [Legacy.Message 0 "16" "message user" "<pre>q</pre>"]
    ++ [Legacy.Message 2 "17" "message system" "<pre>again</pre>"].
Proof.
  apply (proj2 (removeMessage_takes_out_the_first_with_the_id "17"
                  (Legacy.set_chatMessages
                     [Legacy.Message 0 "16" "message user" "<pre>q</pre>";
                      Legacy.Message 1 "17" "message system" "<pre>wait</pre>";
                      Legacy.Message 2 "17" "message system" "<pre>again</pre>"]
                     Legacy.initial))
           [Legacy.Message 0 "16" "message user" "<pre>q</pre>"]
           (Legacy.Message 1 "17" "message system" "<pre>wait</pre>")
           [Legacy.Message 2 "17" "message system" "<pre>again</pre>"]).
  - reflexivity.
  - repeat constructor. discriminate.
  - reflexivity.
Defined.

(** ** The exported file as a table *)

Lemma read_plain (h cur rest : string) (done : list string) :
  Spec.occurs ","%char h = false → Spec.occurs Js.dquote h = false →
  Csv.read Csv.Unquoted cur done (h +:+ rest)
  = Csv.read Csv.Unquoted (cur +:+ h) done rest.
Proof.
  revert cur. induction h as [|a h IH]; intros cur Hc Hq.
  - norm_app. by rewrite app_nil_r_s.
  - simpl in Hc, Hq.
    apply orb_false_iff in Hc as [Hc1 Hc2].
    apply orb_false_iff in Hq as [Hq1 Hq2].
    apply bool_decide_eq_false in Hc1, Hq1.
    norm_app. simpl.
    rewrite decide_False by congruence. rewrite decide_False by congruence.
    rewrite IH by done. rewrite app_assoc_s. by norm_app.
Qed.

Lemma read_plain_field (h rest : string) (done : list string) :
  Spec.occurs ","%char h = false → Spec.occurs Js.dquote h = false →
  Csv.read Csv.FieldStart "" done (h +:+ "," +:+ rest)
  = Csv.read Csv.FieldStart "" (done ++ [h]) rest.
Proof.
  intros Hc Hq. destruct h as [|a h]; [done |].
  simpl in Hc, Hq.
  apply orb_false_iff in Hc as [Hc1 Hc2].
  apply orb_false_iff in Hq as [Hq1 Hq2].
  apply bool_decide_eq_false in Hc1, Hq1.
  norm_app. simpl.
  rewrite decide_False by congruence. rewrite decide_False by congruence.
  rewrite read_plain by done. norm_app. simpl. done.
Qed.

Lemma read_plain_last (h : string) (done : list string) :
  Spec.occurs ","%char h = false → Spec.occurs Js.dquote h = false →
  Csv.read Csv.FieldStart "" done h = Some (done ++ [h]).
Proof.
  intros Hc Hq. destruct h as [|a h]; [done |].
  simpl in Hc, Hq.
  apply orb_false_iff in Hc as [Hc1 Hc2].
  apply orb_false_iff in Hq as [Hq1 Hq2].
  apply bool_decide_eq_false in Hc1, Hq1.
  simpl.
  rewrite decide_False by congruence. rewrite decide_False by congruence.
  rewrite <- (app_nil_r_s h) at 1. rewrite read_plain by done. done.
Qed.

Lemma read_plain_fields (h : string) (hs done : list string) :
  Forall (fun h => Spec.occurs ","%char h = false
                   ∧ Spec.occurs Js.dquote h = false) (h :: hs) →
  Csv.read Csv.FieldStart "" done (Js.join "," (h :: hs)) = Some (done ++ h :: hs).
Proof.
  revert h done. induction hs as [|h' hs IH]; intros h done Hall.
  - inversion Hall as [|? ? [Hc Hq] _]; subst.
    by apply read_plain_last.
  - inversion Hall as [|? ? [Hc Hq] Hrest]; subst.
    rewrite join_cons2, read_plain_field by done.
    rewrite IH by done. by rewrite <- app_assoc.
Qed.

Lemma mapM_length {A B : Type} (f : A → Js.result B) (xs : list A) (ys : list B) :
  Js.mapM f xs = Js.Ok ys → length ys = length xs.
Proof.
  intros H. apply mapM_Ok_Forall2 in H. symmetry. by eapply Forall2_length.
Qed.



(** ** The columns of the two tables *)

Lemma elem_of_if_singleton (k x : string) (l : list string) :
  k ∈ (if bool_decide (x ∈ l) then [x] else []) ↔ k = x ∧ x ∈ l.
Proof. case_bool_decide; set_solver. Qed.



(** X8.  The table of [script.js] has one column for every key that occurs in
    some row, each once, in the order in which the keys first occur. *)
Theorem legacy_table_shows_every_key_once
  (results : list Js.jsval) (keys : list string) :
  Legacy.table_keys results = Js.Ok keys →
  NoDup keys
  ∧ ∃ all,
      Js.flatMap Js.Object_keys results = Js.Ok all
      ∧ keys = Spec.first_occurrences all
      ∧ ∀ k, k ∈ keys ↔ k ∈ all.
Proof.
  unfold Legacy.table_keys.
  destruct (Js.flatMap Js.Object_keys results) as [all|e]; simpl; [|done].
  intros [= <-]. split; [apply NoDup_new_Set |].
  exists all. split; [done |]. split; [apply new_Set_first_occurrences |].
  intros k. apply elem_of_new_Set.
Qed.

Lemma legacy_table_shows_every_key_once_witness :
  NoDup ["a"; "b"].
Proof.
  apply (legacy_table_shows_every_key_once
           [Js.JObj [("a", Js.JNum 1)]; Js.JObj [("b", Js.JNum 2); ("a", Js.JNum 3)]]
           ["a"; "b"]).
  reflexivity.
Defined.

(** ** Reasoning about whole handlers *)

Section NeverThrows.
Context {S : Type}.

Lemma never_throws_ret {A} (a : A) : Page.never_throws (mret a : Eff.M S A).
Proof. by intros s. Qed.

Lemma never_throws_gets {A} (f : S → A) : Page.never_throws (Eff.gets f).
Proof. by intros s. Qed.

Lemma never_throws_modify (f : S → S) : Page.never_throws (Eff.modify f).
Proof. by intros s. Qed.

Lemma never_throws_bind {A B} (m : Eff.M S A) (k : A → Eff.M S B) :
  Page.never_throws m → (∀ a, Page.never_throws (k a)) →
  Page.never_throws (m ≫= k).
Proof.
  intros Hm Hk s. specialize (Hm s). run_monad.
  destruct (m s) as [[a|e] s1]; simpl in *; [|done].
  apply (Hk a s1).
Qed.

(** A [try] whose [catch] block returns lets nothing out, whatever its
    body does. *)
Lemma never_throws_try_catch {A} (body : Eff.M S A) (handler : string → Eff.M S A) :
  (∀ e, Page.never_throws (handler e)) →
  Page.never_throws (Eff.try_catch body handler).
Proof.
  intros Hh s. run_monad.
  destruct (body s) as [[a|e] s1]; simpl; [done |].
  apply (Hh e s1).
Qed.

Lemma never_throws_run {A} (m : Eff.M S A) (s : S) :
  Page.never_throws m → ∃ a, m s = (Js.Ok a, Eff.exec m s).
Proof.
  intros Hm. specialize (Hm s). unfold Eff.returns, Eff.exec in *.
  destruct (m s) as [[a|e] s1]; simpl in *; [by exists a | done].
Qed.

End NeverThrows.

Ltac head_of t :=
  lazymatch t with
  | ?f _ => head_of f
  | _ => t
  end.

Create HintDb quiet discriminated.

(** Decompose a goal [never_throws m] along the shape of [m], entering the
    functions [m] calls. *)
Ltac never_throws_auto :=
  cbv beta iota zeta;
  lazymatch goal with
  | |- Page.never_throws (mret _) => apply never_throws_ret
  | |- Page.never_throws (Eff.gets _) => apply never_throws_gets
  | |- Page.never_throws (Eff.modify _) => apply never_throws_modify
  | |- Page.never_throws (_ ≫= _) =>
      apply never_throws_bind; [never_throws_auto | intros; never_throws_auto]
  | |- Page.never_throws (Eff.try_catch _ _) =>
      apply never_throws_try_catch; intros; never_throws_auto
  | |- Page.never_throws (match ?x with _ => _ end) =>
      destruct x; never_throws_auto
  | |- Page.never_throws ?m =>
      first [ solve [eauto 2 with quiet]
            | let h := head_of m in unfold h; never_throws_auto ]
  end.

Section Steps.
Context {S : Type} (R : S → S → Prop) `{!PreOrder R}.

Lemma steps_ret {A} (a : A) : Page.steps R (mret a : Eff.M S A).
Proof. intros s. apply reflexivity. Qed.

Lemma steps_throw {A} (e : string) : Page.steps R (Eff.throw e : Eff.M S A).
Proof. intros s. apply reflexivity. Qed.

Lemma steps_lift {A} (r : Js.result A) : Page.steps R (Eff.lift r : Eff.M S A).
Proof. intros s. apply reflexivity. Qed.

Lemma steps_gets {A} (f : S → A) : Page.steps R (Eff.gets f).
Proof. intros s. apply reflexivity. Qed.

Lemma steps_modify (f : S → S) : (∀ s, R s (f s)) → Page.steps R (Eff.modify f).
Proof. intros Hf s. apply Hf. Qed.

Lemma steps_bind {A B} (m : Eff.M S A) (k : A → Eff.M S B) :
  Page.steps R m → (∀ a, Page.steps R (k a)) → Page.steps R (m ≫= k).
Proof.
  intros Hm Hk s. specialize (Hm s). run_monad.
  destruct (m s) as [[a|e] s1]; simpl in *; [|done].
  specialize (Hk a s1). run_monad. by etrans.
Qed.

Lemma steps_try_catch {A} (body : Eff.M S A) (handler : string → Eff.M S A) :
  Page.steps R body → (∀ e, Page.steps R (handler e)) →
  Page.steps R (Eff.try_catch body handler).
Proof.
  intros Hm Hk s. specialize (Hm s). run_monad.
  destruct (body s) as [[a|e] s1]; simpl in *; [done |].
  specialize (Hk e s1). run_monad. by etrans.
Qed.

End Steps.

Create HintDb paced discriminated.

(** Decompose a goal [steps R m] along the shape of [m], entering the
    functions [m] calls; [change_ok] shows that one assignment to the page
    state respects [R]. *)
Ltac steps_auto change_ok :=
  cbv beta iota zeta;
  lazymatch goal with
  | |- Page.steps _ (mret _) => apply steps_ret; tc_solve
  | |- Page.steps _ (Eff.throw _) => apply steps_throw; tc_solve
  | |- Page.steps _ (Eff.lift _) => apply steps_lift; tc_solve
  | |- Page.steps _ (Eff.gets _) => apply steps_gets; tc_solve
  | |- Page.steps _ (Eff.modify _) => apply steps_modify; intros; change_ok
  | |- Page.steps _ (_ ≫= _) =>
      apply steps_bind; [tc_solve | steps_auto change_ok | intros; steps_auto change_ok]
  | |- Page.steps _ (Eff.try_catch _ _) =>
      apply steps_try_catch;
      [tc_solve | steps_auto change_ok | intros; steps_auto change_ok]
  | |- Page.steps _ (match ?x with _ => _ end) =>
      destruct x; steps_auto change_ok
  | |- Page.steps _ ?m =>
      first [ solve [eauto 2 with paced]
            | let h := head_of m in unfold h; steps_auto change_ok ]
  end.

Create HintDb framed discriminated.

(** Decompose a goal [keeps proj m] along the shape of [m], entering the
    functions [m] calls. *)
Ltac keeps_deep :=
  cbv beta iota zeta;
  lazymatch goal with
  | |- Traffic.keeps _ (mret _) => apply keeps_ret
  | |- Traffic.keeps _ (Eff.throw _) => apply keeps_throw
  | |- Traffic.keeps _ (Eff.lift _) => apply keeps_lift
  | |- Traffic.keeps _ (Eff.gets _) => apply keeps_gets
  | |- Traffic.keeps _ (Eff.modify _) => apply keeps_modify; intros; reflexivity
  | |- Traffic.keeps _ (_ ≫= _) =>
      apply keeps_bind; [keeps_deep | intros; keeps_deep]
  | |- Traffic.keeps _ (Eff.try_catch _ _) =>
      apply keeps_try_catch; [keeps_deep | intros; keeps_deep]
  | |- Traffic.keeps _ (match ?x with _ => _ end) => destruct x; keeps_deep
  | |- Traffic.keeps _ ?m =>
      first [ solve [eauto 2 with framed]
            | let h := head_of m in unfold h; keeps_deep ]
  end.

(** ** No handler lets an exception out *)

Lemma legacy_run_listeners_returns (w : Net.world) (n : nat)
  (ls : list (nat * list Js.jsval)) :
  Page.never_throws (Legacy.run_listeners w n ls).
Proof.
  induction ls as [|[n' rawData] ls IH]; simpl; [apply never_throws_ret |].
  apply never_throws_bind; [|by intros].
  destruct (decide (n' = n));
    [apply never_throws_try_catch; intros; apply never_throws_ret
    | apply never_throws_ret].
Qed.

Lemma enhanced_run_listeners_returns (w : Net.world) (n : nat)
  (ls : list (nat * string)) :
  Page.never_throws (Enhanced.run_listeners w n ls).
Proof.
  induction ls as [|[n' i] ls IH]; simpl; [apply never_throws_ret |].
  apply never_throws_bind; [|by intros].
  destruct (decide (n' = n));
    [apply never_throws_try_catch; intros; apply never_throws_ret
    | apply never_throws_ret].
Qed.

#[local] Hint Resolve legacy_run_listeners_returns enhanced_run_listeners_returns
  : quiet.

Lemma legacy_handle_returns (w : Net.world) (e : Legacy.event) :
  Page.never_throws (Legacy.handle w e).
Proof. never_throws_auto. Qed.

Lemma legacy_run_task_returns (t : Legacy.task) :
  Page.never_throws (Legacy.run_task t).
Proof. never_throws_auto. Qed.

Lemma enhanced_loadCollections_returns (w : Net.world) :
  Page.never_throws (Enhanced.loadCollections w).
Proof. never_throws_auto. Qed.

Lemma enhanced_sendMessage_returns (w : Net.world) :
  Page.never_throws (Enhanced.sendMessage w).
Proof. never_throws_auto. Qed.

#[local] Hint Resolve enhanced_loadCollections_returns enhanced_sendMessage_returns
  : quiet.

Lemma enhanced_handle_returns (w : Net.world) (e : Enhanced.event) :
  Page.never_throws (Enhanced.handle w e).
Proof. never_throws_auto. Qed.

Lemma enhanced_run_task_returns (w : Net.world) (t : Enhanced.task) :
  Page.never_throws (Enhanced.run_task w t).
Proof. never_throws_auto. Qed.

Lemma enhanced_init_returns (w : Net.world) : Page.never_throws (Enhanced.init w).
Proof. never_throws_auto. Qed.


(** ** Where the requests go *)

#[local] Instance log_extended_preorder {S : Type} (log : S → list Net.request)
  (P : Net.request → Prop) : PreOrder (Page.log_extended log P).
Proof.
  split.
  - intros s. exists []. by rewrite app_nil_r.
  - intros s1 s2 s3 (new1 & H1 & HP1) (new2 & H2 & HP2).
    exists (new1 ++ new2). rewrite H2, H1, app_assoc.
    split; [done | by apply Forall_app].
Qed.

Ltac log_unchanged :=
  exists []; split; [by rewrite app_nil_r | constructor].

Lemma legacy_fetch_logs (w : Net.world) (r : Net.request) :
  Page.legacy_endpoint r →
  Page.steps (Page.log_extended Legacy.requests Page.legacy_endpoint)
    (Legacy.fetch w r).
Proof.
  intros Hr s. exists [r]. split; [|by constructor].
  unfold Legacy.fetch. run_monad. by destruct (Net.server w r).
Qed.

Lemma enhanced_fetch_logs (w : Net.world) (r : Net.request) :
  Page.enhanced_endpoint r →
  Page.steps (Page.log_extended Enhanced.requests Page.enhanced_endpoint)
    (Enhanced.fetch w r).
Proof.
  intros Hr s. exists [r]. split; [|by constructor].
  unfold Enhanced.fetch. run_monad. by destruct (Net.server w r).
Qed.

Lemma legacy_endpoint_setup :
  Page.legacy_endpoint (Net.Request "POST" "/api/setup" Net.NoBody).
Proof. by left. Qed.

Lemma legacy_endpoint_import (file : string) :
  Page.legacy_endpoint (Net.Request "POST" "/api/import-csv" (Net.FormFile file)).
Proof. right; left. by exists file. Qed.

Lemma legacy_endpoint_query (question : string) :
  Page.legacy_endpoint
    (Net.Request "POST" "/api/query"
       (Net.JsonBody (Js.JObj [("question", Js.JStr question)]))).
Proof. right; right. by exists question. Qed.

Lemma enhanced_endpoint_query (m : Enhanced.mode) (question : string) :
  Page.enhanced_endpoint (Enhanced.query_request m question).
Proof. destruct m; [left | right; left]; by exists question. Qed.

Lemma enhanced_endpoint_import (file : string) :
  Page.enhanced_endpoint (Net.Request "POST" "/api/import-csv" (Net.FormFile file)).
Proof. right; right; left. by exists file. Qed.

Lemma enhanced_endpoint_collections :
  Page.enhanced_endpoint (Net.Request "GET" "/api/collections" Net.NoBody).
Proof. by right; right; right. Qed.

#[local] Hint Resolve legacy_fetch_logs enhanced_fetch_logs legacy_endpoint_setup
  legacy_endpoint_import legacy_endpoint_query enhanced_endpoint_query
  enhanced_endpoint_import enhanced_endpoint_collections : paced.

Lemma legacy_run_listeners_steps (R : Legacy.ui → Legacy.ui → Prop) `{!PreOrder R}
  (w : Net.world) (n : nat) (ls : list (nat * list Js.jsval)) :
  (∀ rawData, Page.steps R (Legacy.downloadCSV w rawData)) →
  Page.steps R (Legacy.run_listeners w n ls).
Proof.
  intros Hd. induction ls as [|[n' rawData] ls IH]; simpl; [by apply steps_ret |].
  apply steps_bind; [done | | by intros].
  destruct (decide (n' = n)); [|by apply steps_ret].
  apply steps_try_catch; [done | apply Hd | intros; by apply steps_ret].
Qed.

Lemma enhanced_run_listeners_steps (R : Enhanced.ui → Enhanced.ui → Prop)
  `{!PreOrder R} (w : Net.world) (n : nat) (ls : list (nat * string)) :
  (∀ i, Page.steps R (Enhanced.download_click w i)) →
  Page.steps R (Enhanced.run_listeners w n ls).
Proof.
  intros Hd. induction ls as [|[n' i] ls IH]; simpl; [by apply steps_ret |].
  apply steps_bind; [done | | by intros].
  destruct (decide (n' = n)); [|by apply steps_ret].
  apply steps_try_catch; [done | apply Hd | intros; by apply steps_ret].
Qed.

Lemma legacy_handle_logs (w : Net.world) (e : Legacy.event) :
  Page.steps (Page.log_extended Legacy.requests Page.legacy_endpoint)
    (Legacy.handle w e).
Proof.
  destruct e; simpl; try (steps_auto log_unchanged).
  apply steps_bind; [tc_solve | apply steps_gets; tc_solve |].
  intros ls. apply legacy_run_listeners_steps; [tc_solve |].
  intros rawData. steps_auto log_unchanged.
Qed.

Lemma legacy_run_task_logs (t : Legacy.task) :
  Page.steps (Page.log_extended Legacy.requests Page.legacy_endpoint)
    (Legacy.run_task t).
Proof. steps_auto log_unchanged. Qed.

Lemma enhanced_handle_logs (w : Net.world) (e : Enhanced.event) :
  Page.steps (Page.log_extended Enhanced.requests Page.enhanced_endpoint)
    (Enhanced.handle w e).
Proof.
  destruct e; simpl; try (steps_auto log_unchanged).
  apply steps_bind; [tc_solve | apply steps_gets; tc_solve |].
  intros ls. apply enhanced_run_listeners_steps; [tc_solve |].
  intros i. steps_auto log_unchanged.
Qed.

Lemma enhanced_run_task_logs (w : Net.world) (t : Enhanced.task) :
  Page.steps (Page.log_extended Enhanced.requests Page.enhanced_endpoint)
    (Enhanced.run_task w t).
Proof. steps_auto log_unchanged. Qed.

Lemma enhanced_init_logs (w : Net.world) :
  Page.steps (Page.log_extended Enhanced.requests Page.enhanced_endpoint)
    (Enhanced.init w).
Proof. steps_auto log_unchanged. Qed.

(** X10.  The pages talk to the backend only in the ways they are written to.
    Whatever the user does and whatever the backend answers, a handler or a
    deferred task only appends to the list of requests sent, and what it
    appends is, in [script.js], [POST /api/setup] without a body, [POST
    /api/import-csv] with the chosen file or [POST /api/query] with the
    body [{question}]; in the enhanced script, [POST /api/query] with
    [{question, mode: database}], [POST /api/search] with [{query, limit:
    10}], [POST /api/import-csv] with the chosen file or [GET
    /api/collections]. *)
Theorem requests_go_to_the_known_endpoints (w : Net.world) :
  (∀ e s, Page.log_extended Legacy.requests Page.legacy_endpoint
            s (Eff.exec (Legacy.handle w e) s))
  ∧ (∀ t s, Page.log_extended Legacy.requests Page.legacy_endpoint
              s (Eff.exec (Legacy.run_task t) s))
  ∧ (∀ e s, Page.log_extended Enhanced.requests Page.enhanced_endpoint
              s (Eff.exec (Enhanced.handle w e) s))
  ∧ (∀ t s, Page.log_extended Enhanced.requests Page.enhanced_endpoint
              s (Eff.exec (Enhanced.run_task w t) s))
  ∧ (∀ s, Page.log_extended Enhanced.requests Page.enhanced_endpoint
            s (Eff.exec (Enhanced.init w) s)).
Proof.
  split; [exact (legacy_handle_logs w) |].
  split; [exact legacy_run_task_logs |].
  split; [exact (enhanced_handle_logs w) |].
  split; [exact (enhanced_run_task_logs w) |].
  exact (enhanced_init_logs w).
Qed.

(** ** The rows kept for download *)

#[local] Instance rows_kept_preorder : PreOrder Page.rows_kept.
Proof.
  split.
  - intros s. unfold Page.rows_kept. set_solver.
  - intros s1 s2 s3 H1 H2. unfold Page.rows_kept in *. set_solver.
Qed.

Ltac rows_kept_ok :=
  unfold Page.rows_kept; simpl;
  first [ rewrite dom_insert_L; set_solver | set_solver ].

Lemma enhanced_handle_keeps_rows (w : Net.world) (e : Enhanced.event) :
  Page.steps Page.rows_kept (Enhanced.handle w e).
Proof.
  destruct e; simpl; try (steps_auto rows_kept_ok).
  apply steps_bind; [tc_solve | apply steps_gets; tc_solve |].
  intros ls. apply enhanced_run_listeners_steps; [tc_solve |].
  intros i. steps_auto rows_kept_ok.
Qed.

Lemma enhanced_run_task_keeps_rows (w : Net.world) (t : Enhanced.task) :
  Page.steps Page.rows_kept (Enhanced.run_task w t).
Proof. steps_auto rows_kept_ok. Qed.

(** X11.  The enhanced script never forgets the rows of a message: no user
    action and no deferred task removes an entry from the map from message
    ids to rows, the New chat button included, which empties the chat but
    leaves the rows of every message it removes in the map. *)
Theorem download_rows_are_never_dropped (w : Net.world) :
  (∀ e s i, is_Some (Enhanced.messageDownloadData s !! i) →
            is_Some (Enhanced.messageDownloadData
                       (Eff.exec (Enhanced.handle w e) s) !! i))
  ∧ (∀ t s i, is_Some (Enhanced.messageDownloadData s !! i) →
              is_Some (Enhanced.messageDownloadData
                         (Eff.exec (Enhanced.run_task w t) s) !! i))
  ∧ (∀ s, Enhanced.messagesWrapper (Eff.exec (Enhanced.new_chat) s) = []
          ∧ Enhanced.messageDownloadData (Eff.exec (Enhanced.new_chat) s)
            = Enhanced.messageDownloadData s).
Proof.
  split; [|split].
  - intros e s i Hi. apply elem_of_dom. apply elem_of_dom in Hi.
    by apply (enhanced_handle_keeps_rows w e s).
  - intros t s i Hi. apply elem_of_dom. apply elem_of_dom in Hi.
    by apply (enhanced_run_task_keeps_rows w t s).
  - done.
Qed.

Lemma download_rows_are_never_dropped_witness :
  is_Some
    (Enhanced.messageDownloadData
       (Eff.exec
          (Enhanced.handle
             (Net.World (fun _ => Net.Rejected "offline") (fun _ => 0%Z) (fun _ => ""))
             Enhanced.ClickNewChat)
          (Enhanced.set_messageDownloadData
             (<["msg-1" := [Js.JObj [("a", Js.JNum 1)]]]> ∅) Enhanced.initial))
     !! "msg-1").
Proof.
  apply (proj1 (download_rows_are_never_dropped
                  (Net.World (fun _ => Net.Rejected "offline") (fun _ => 0%Z)
                     (fun _ => "")))).
  by eexists.
Defined.

(** ** The send button and the input *)

Lemma enhanced_run_listeners_keeps {X : Type} (proj : Enhanced.ui → X)
  (w : Net.world) (n : nat) (ls : list (nat * string)) :
  (∀ i, Traffic.keeps proj (Enhanced.download_click w i)) →
  Traffic.keeps proj (Enhanced.run_listeners w n ls).
Proof.
  intros Hd. induction ls as [|[n' i] ls IH]; simpl; [apply keeps_ret |].
  apply keeps_bind; [|by intros].
  destruct (decide (n' = n)); [|apply keeps_ret].
  apply keeps_try_catch; [apply Hd | intros; apply keeps_ret].
Qed.

Lemma updateSendButton_formula (t : string) :
  negb (bool_decide (0 < String.length t)) = bool_decide (t = "").
Proof.
  destruct t as [|a t]; [done |].
  rewrite bool_decide_eq_true_2 by (simpl; lia).
  by rewrite bool_decide_eq_false_2.
Qed.

Lemma updateSendButton_sync (s : Enhanced.ui) :
  Page.button_in_sync (Eff.exec Enhanced.updateSendButton s).
Proof. unfold Page.button_in_sync. simpl. apply updateSendButton_formula. Qed.

Lemma button_in_sync_frame (s s1 : Enhanced.ui) :
  Page.input_and_button s1 = Page.input_and_button s →
  Page.button_in_sync s → Page.button_in_sync s1.
Proof.
  unfold Page.input_and_button, Page.button_in_sync.
  intros [= -> ->]. done.
Qed.

(** A question that is sent leaves the input empty and the button
    disabled, whatever comes back. *)
Lemma enhanced_sendMessage_clears_input (w : Net.world) (s : Enhanced.ui) :
  Js.trim (Enhanced.userInput s) ≠ "" →
  Page.input_and_button (Eff.exec (Enhanced.sendMessage w) s) = ("", true).
Proof.
  intros Hq. apply post_exec. unfold Enhanced.sendMessage.
  apply post_bind, post_gets. rewrite (bool_decide_eq_false_2 _ Hq).
  apply post_bind.
  destruct (never_throws_run
              (Enhanced.addMessage w (Js.JStr (Js.trim (Enhanced.userInput s)))
                 "user" Js.JNull) s) as [m Hrun]; [never_throws_auto |].
  apply (post_run _ _ _ _ _ Hrun).
  apply post_bind, post_modify.
  unfold Enhanced.updateSendButton.
  apply post_bind, post_bind, post_gets, post_modify.
  match goal with
  | |- Traffic.post ?rest _ _ =>
      assert (Hrest : Traffic.keeps Page.input_and_button rest) by keeps_deep
  end.
  apply (post_keeps _ _ _ _ Hrest). intros _ s2 ->. reflexivity.
Qed.

Lemma enhanced_sendMessage_blank (w : Net.world) (s : Enhanced.ui) :
  Js.trim (Enhanced.userInput s) = "" → Enhanced.sendMessage w s = (Js.Ok tt, s).
Proof.
  intros Hq. unfold Enhanced.sendMessage. run_monad.
  by rewrite bool_decide_eq_true_2.
Qed.

Lemma enhanced_sendMessage_sync (w : Net.world) (s : Enhanced.ui) :
  Page.button_in_sync s → Page.button_in_sync (Eff.exec (Enhanced.sendMessage w) s).
Proof.
  intros Hs. destruct (decide (Js.trim (Enhanced.userInput s) = "")) as [Hq|Hq].
  - unfold Eff.exec. by rewrite enhanced_sendMessage_blank.
  - pose proof (enhanced_sendMessage_clears_input w s Hq) as Hclear.
    unfold Page.input_and_button in Hclear. injection Hclear as Hin Hbtn.
    unfold Page.button_in_sync. by rewrite Hin, Hbtn.
Qed.

Lemma enhanced_handle_sync (w : Net.world) (e : Enhanced.event) (s : Enhanced.ui) :
  Page.button_in_sync s → Page.button_in_sync (Eff.exec (Enhanced.handle w e) s).
Proof.
  intros Hs. destruct e as [| |value|key shiftKey| |file| |n]; simpl Enhanced.handle.
  - apply (updateSendButton_sync
             (Enhanced.set_userInput "" (Enhanced.set_currentMode Enhanced.Database s))).
  - apply (updateSendButton_sync
             (Enhanced.set_userInput "" (Enhanced.set_currentMode Enhanced.Serpapi s))).
  - apply (updateSendButton_sync (Enhanced.set_userInput value s)).
  - destruct (bool_decide (key = "Enter") && negb shiftKey); [|done].
    change (Page.button_in_sync
              (Eff.exec (if Enhanced.sendBtn_disabled s then mret tt
                         else Enhanced.sendMessage w) s)).
    destruct (Enhanced.sendBtn_disabled s) eqn:Hd; [done |].
    by apply enhanced_sendMessage_sync.
  - change (Page.button_in_sync
              (Eff.exec (if Enhanced.sendBtn_disabled s then mret tt
                         else Enhanced.sendMessage w) s)).
    destruct (Enhanced.sendBtn_disabled s) eqn:Hd; [done |].
    by apply enhanced_sendMessage_sync.
  - apply (button_in_sync_frame s); [|done].
    assert (Hk : Traffic.keeps Page.input_and_button (Enhanced.csv_change w file))
      by keeps_deep.
    apply Hk.
  - apply (updateSendButton_sync
             (Enhanced.set_userInput ""
                (Enhanced.set_welcome_hidden false
                   (Enhanced.set_messagesWrapper [] s)))).
  - apply (button_in_sync_frame s); [|done].
    assert (Hk : Traffic.keeps Page.input_and_button
                   (ls ← Eff.gets Enhanced.listeners; Enhanced.run_listeners w n ls)).
    { apply keeps_bind; [apply keeps_gets |]. intros ls.
      apply enhanced_run_listeners_keeps. intros i. keeps_deep. }
    apply Hk.
Qed.

Lemma enhanced_run_task_sync (w : Net.world) (t : Enhanced.task) (s : Enhanced.ui) :
  Page.button_in_sync s → Page.button_in_sync (Eff.exec (Enhanced.run_task w t) s).
Proof.
  intros Hs. apply (button_in_sync_frame s); [|done].
  assert (Hk : Traffic.keeps Page.input_and_button (Enhanced.run_task w t))
    by keeps_deep.
  apply Hk.
Qed.

Lemma enhanced_init_sync (w : Net.world) (s0 : Enhanced.ui) :
  Page.button_in_sync (Eff.exec (Enhanced.init w) s0).
Proof.
  unfold Enhanced.init.
  destruct (never_throws_run (Enhanced.loadCollections w) s0
              (enhanced_loadCollections_returns w)) as [[] Hrun].
  unfold Eff.exec at 1. run_monad. rewrite Hrun. simpl.
  apply updateSendButton_formula.
Qed.

(** X12.  In every state the enhanced page can reach once it has initialised,
    whatever the user does, whatever timers fire and whatever the backend
    answers, the send button is disabled exactly when the input is empty
    or all white space. *)
Theorem send_button_follows_the_input (w : Net.world) (s : Enhanced.ui) :
  Page.reachable w s →
  Enhanced.sendBtn_disabled s = bool_decide (Js.trim (Enhanced.userInput s) = "").
Proof.
  induction 1 as [s0 | e s _ IH | delay t s _ IH _].
  - apply enhanced_init_sync.
  - by apply enhanced_handle_sync.
  - by apply enhanced_run_task_sync.
Qed.

Lemma send_button_follows_the_input_witness :
  Enhanced.sendBtn_disabled
    (Eff.exec
       (Enhanced.handle
          (Net.World (fun _ => Net.Rejected "offline") (fun _ => 0%Z) (fun _ => ""))
          (Enhanced.Input " hi "))
       (Eff.exec
          (Enhanced.init
             (Net.World (fun _ => Net.Rejected "offline") (fun _ => 0%Z) (fun _ => "")))
          Enhanced.initial))
  = bool_decide
      (Js.trim
         (Enhanced.userInput
            (Eff.exec
               (Enhanced.handle
                  (Net.World (fun _ => Net.Rejected "offline") (fun _ => 0%Z)
                     (fun _ => ""))
                  (Enhanced.Input " hi "))
               (Eff.exec
                  (Enhanced.init
                     (Net.World (fun _ => Net.Rejected "offline") (fun _ => 0%Z)
                        (fun _ => "")))
                  Enhanced.initial)))
       = "").
Proof.
  apply (send_button_follows_the_input
           (Net.World (fun _ => Net.Rejected "offline") (fun _ => 0%Z) (fun _ => ""))).
  apply Page.reachable_event. apply Page.reachable_init.
Defined.

(** ** One question, one answer *)

Section RepliesOnce.
Context {S X : Type} (chat : S → list X) (P : X → Prop).

(** Steps that leave the chat alone, then a reply. *)
Lemma replies_once_after {A B} (m : Eff.M S A) (k : A → Eff.M S B) :
  Traffic.keeps chat m → (∀ a, Page.replies_once chat P (k a)) →
  Page.replies_once chat P (m ≫= k).
Proof.
  intros Hm Hk s. specialize (Hm s). run_monad.
  destruct (m s) as [[a|e] s1]; simpl in *; [|done].
  specialize (Hk a s1). rewrite Hm in Hk. exact Hk.
Qed.

(** A reply, then steps that leave the chat alone and return. *)
Lemma replies_once_before {A B} (m : Eff.M S A) (k : A → Eff.M S B) :
  Page.replies_once chat P m →
  (∀ a, Page.never_throws (k a)) → (∀ a, Traffic.keeps chat (k a)) →
  Page.replies_once chat P (m ≫= k).
Proof.
  intros Hm Hr Hk s. specialize (Hm s). run_monad.
  destruct (m s) as [[a|e] s1]; simpl in *; [|done].
  specialize (Hr a s1). specialize (Hk a s1).
  unfold Eff.returns, Eff.exec in *.
  destruct (k a s1) as [[b|e] s2]; simpl in *; [|done].
  by rewrite Hk.
Qed.

Lemma replies_once_post {A} (m : Eff.M S A) (s : S) (before : list X)
  (Q : Js.result A → S → Prop) :
  Page.replies_once chat P m → chat s = before →
  (∀ a s1 reply, chat s1 = before ++ [reply] → P reply → Q (Js.Ok a) s1) →
  (∀ e s1, chat s1 = before → Q (Js.Throw e) s1) →
  Traffic.post m s Q.
Proof.
  intros Hm <- Hok Hthrow. specialize (Hm s). unfold Traffic.post.
  destruct (m s) as [[a|e] s1]; simpl.
  - destruct Hm as (reply & Hchat & HP). by eapply Hok.
  - by apply Hthrow.
Qed.

End RepliesOnce.

Create HintDb replied discriminated.

(** Decompose a goal [replies_once chat P m] for an [m] that takes steps
    which leave the chat alone, adds one message and winds up. *)
Ltac replies_auto :=
  cbv beta iota zeta;
  lazymatch goal with
  | |- Page.replies_once _ _ (_ ≫= _) =>
      first
        [ apply replies_once_after; [solve [keeps_deep] | intros; replies_auto]
        | apply replies_once_before;
          [replies_auto | intros; solve [never_throws_auto]
          | intros; solve [keeps_deep]] ]
  | |- Page.replies_once _ _ (match ?x with _ => _ end) =>
      destruct x; replies_auto
  | |- Page.replies_once _ _ ?m =>
      first [ solve [eauto 2 with replied]
            | let h := head_of m in unfold h; replies_auto ]
  end.

(** *** The enhanced script *)

Lemma enhanced_addMessage_replies (w : Net.world) (text : Js.jsval) (type : string)
  (downloadData : Js.jsval) :
  type = "assistant" ∨ type = "error" →
  Page.replies_once Enhanced.messagesWrapper Page.enhanced_reply
    (Enhanced.addMessage w text type downloadData).
Proof.
  intros Htype s.
  destruct (enhanced_addMessage_ok w text type downloadData s)
    as (m & s1 & -> & _ & _ & _ & Hchat & Hclass & _).
  exists m. split; [done |].
  unfold Page.enhanced_reply. rewrite Hclass.
  destruct Htype as [-> | ->]; [by left | by right].
Qed.

Lemma enhanced_addMessage_assistant (w : Net.world) (text downloadData : Js.jsval) :
  Page.replies_once Enhanced.messagesWrapper Page.enhanced_reply
    (Enhanced.addMessage w text "assistant" downloadData).
Proof. apply enhanced_addMessage_replies. by left. Qed.

Lemma enhanced_addMessage_error (w : Net.world) (text downloadData : Js.jsval) :
  Page.replies_once Enhanced.messagesWrapper Page.enhanced_reply
    (Enhanced.addMessage w text "error" downloadData).
Proof. apply enhanced_addMessage_replies. by right. Qed.

#[local] Hint Resolve enhanced_addMessage_assistant enhanced_addMessage_error
  : replied.

Lemma enhanced_show_response_replies (w : Net.world) (data : Js.jsval) :
  Page.replies_once Enhanced.messagesWrapper Page.enhanced_reply
    (Enhanced.show_response w data).
Proof. replies_auto. Qed.

Lemma replies_once_of_post {S X A : Type} (chat : S → list X) (P : X → Prop)
  (m : Eff.M S A) :
  (∀ s, Traffic.post m s
          (fun r s1 =>
             match r with
             | Js.Ok _ => ∃ reply, chat s1 = chat s ++ [reply] ∧ P reply
             | Js.Throw _ => chat s1 = chat s
             end)) →
  Page.replies_once chat P m.
Proof.
  intros H s. specialize (H s). unfold Traffic.post in H.
  by destruct (m s) as [[a|e] s1].
Qed.

(** The part of [sendMessage] inside [try], from the request on. *)
Lemma enhanced_sendMessage_body_replies (w : Net.world) (question : string) :
  Page.replies_once Enhanced.messagesWrapper Page.enhanced_reply
    (m ← Eff.gets Enhanced.currentMode;
     response ← Enhanced.fetch w (Enhanced.query_request m question);
     Enhanced.hideProcessing;;
     if negb (Net.ok response)
     then
       errorData ← Eff.try_catch (Enhanced.json response)
                     (fun _ => mret (Js.JObj [("error", Js.JStr "Unknown error")]));
       e ← Eff.lift (Js.get errorData "error");
       _ ← Enhanced.addMessage w
             (Js.JStr ("Error: " +:+ Js.String_ (Js.or_else e (Js.JStr "Request failed"))))
             "error" Js.JNull;
       mret tt
     else
       parsed ← Eff.try_catch (data ← Enhanced.json response; mret (Some data))
                  (fun jsonError =>
                     _ ← Enhanced.addMessage w
                           (Js.JStr ("Error: Failed to parse server response. "
                                     +:+ jsonError)) "error" Js.JNull;
                     mret None);
       match parsed with
       | None => mret tt
       | Some data => Enhanced.show_response w data
       end).
Proof.
  apply replies_once_after; [keeps_deep |]. intros m.
  apply replies_once_after; [keeps_deep |]. intros response.
  apply replies_once_after; [keeps_deep |]. intros _.
  destruct (Net.ok response); simpl negb; cbv iota; [|replies_auto].
  apply replies_once_of_post. intros s.
  apply post_bind, post_try_catch, post_bind. unfold Enhanced.json.
  destruct (Net.parsed response) as [e|data].
  - apply post_throw, post_bind.
    apply (replies_once_post Enhanced.messagesWrapper Page.enhanced_reply
             _ _ _ _ (enhanced_addMessage_error w _ _) eq_refl).
    + intros a s1 reply Hchat Hreply. apply post_ret, post_ret. by exists reply.
    + by intros e' s1 Hchat.
  - apply post_ret, post_ret.
    apply (replies_once_post Enhanced.messagesWrapper Page.enhanced_reply
             _ _ _ _ (enhanced_show_response_replies w data) eq_refl).
    + intros a s1 reply Hchat Hreply. by exists reply.
    + by intros e' s1 Hchat.
Qed.

Lemma enhanced_sendMessage_chat (w : Net.world) (s : Enhanced.ui) :
  Js.trim (Enhanced.userInput s) ≠ "" →
  ∃ question reply,
    Enhanced.messagesWrapper (Eff.exec (Enhanced.sendMessage w) s)
    = Enhanced.messagesWrapper s ++ [question; reply]
    ∧ Enhanced.className question = "message user"
    ∧ Enhanced.shown question
      = (if Enhanced.is_markup (Js.trim (Enhanced.userInput s))
         then Enhanced.Html (Js.trim (Enhanced.userInput s))
         else Enhanced.Text (Js.trim (Enhanced.userInput s)))
    ∧ Page.enhanced_reply reply.
Proof.
  intros Hq.
  refine (post_exec _ _
            (fun s1 => ∃ question reply,
                 Enhanced.messagesWrapper s1
                 = Enhanced.messagesWrapper s ++ [question; reply] ∧ _) _).
  unfold Enhanced.sendMessage.
  apply post_bind, post_gets. rewrite (bool_decide_eq_false_2 _ Hq).
  set (question := Js.trim (Enhanced.userInput s)).
  apply post_bind.
  destruct (enhanced_addMessage_ok w (Js.JStr question) "user" Js.JNull s)
    as (m & s1 & Hrun & _ & _ & _ & Hchat & Hclass & Hshown & _).
  apply (post_run _ _ _ _ _ Hrun).
  apply post_bind, post_modify.
  unfold Enhanced.updateSendButton.
  apply post_bind, post_bind, post_gets, post_modify.
  unfold Enhanced.showProcessing. apply post_bind, post_modify.
  apply post_try_catch.
  apply (replies_once_post Enhanced.messagesWrapper Page.enhanced_reply
           _ _ (Enhanced.messagesWrapper s ++ [m]) _
           (enhanced_sendMessage_body_replies w question)); [exact Hchat | |].
  - intros [] s2 reply Hs2 Hreply. exists m, reply.
    rewrite Hs2, <- app_assoc. done.
  - intros e s2 Hs2. unfold Enhanced.hideProcessing.
    apply post_bind, post_modify, post_bind.
    destruct (enhanced_addMessage_ok w (Js.JStr ("Error: " +:+ e)) "error" Js.JNull
                (Enhanced.set_processing_hidden true s2))
      as (reply & s3 & Hrun3 & _ & _ & _ & Hchat3 & Hclass3 & _).
    apply (post_run _ _ _ _ _ Hrun3), post_ret.
    exists m, reply. simpl in Hchat3. rewrite Hchat3, Hs2, <- app_assoc.
    repeat split; try done. by right.
Qed.

Lemma enhanced_sendMessage_hides_processing (w : Net.world) (s : Enhanced.ui) :
  Js.trim (Enhanced.userInput s) ≠ "" →
  Enhanced.processing_hidden (Eff.exec (Enhanced.sendMessage w) s) = true.
Proof.
  intros Hq. apply post_exec. unfold Enhanced.sendMessage.
  apply post_bind, post_gets. rewrite (bool_decide_eq_false_2 _ Hq).
  apply post_bind.
  destruct (never_throws_run
              (Enhanced.addMessage w (Js.JStr (Js.trim (Enhanced.userInput s)))
                 "user" Js.JNull) s) as [m Hrun]; [never_throws_auto |].
  apply (post_run _ _ _ _ _ Hrun).
  apply post_bind, post_modify.
  unfold Enhanced.updateSendButton.
  apply post_bind, post_bind, post_gets, post_modify.
  unfold Enhanced.showProcessing. apply post_bind, post_modify.
  assert (Hcatch : ∀ e s',
            Traffic.post
              (Enhanced.hideProcessing;;
               _ ← Enhanced.addMessage w (Js.JStr ("Error: " +:+ e)) "error" Js.JNull;
               mret tt) s'
              (fun _ s1 => Enhanced.processing_hidden s1 = true)).
  { intros e s'. unfold Enhanced.hideProcessing. apply post_bind, post_modify.
    match goal with
    | |- Traffic.post ?rest _ _ =>
        assert (Hrest : Traffic.keeps Enhanced.processing_hidden rest) by keeps_deep
    end.
    apply (post_keeps _ _ _ _ Hrest). by intros _ s2 ->. }
  apply post_try_catch, post_bind, post_gets, post_bind. unfold Enhanced.fetch.
  apply post_bind, post_modify.
  destruct (Net.server w _) as [e | response].
  - apply post_throw. apply Hcatch.
  - apply post_ret. unfold Enhanced.hideProcessing.
    apply post_bind, post_modify.
    match goal with
    | |- Traffic.post ?rest _ _ =>
        assert (Hrest : Traffic.keeps Enhanced.processing_hidden rest) by keeps_deep
    end.
    apply (post_keeps _ _ _ _ Hrest). intros [[] | e] s2 Hs2.
    + by rewrite Hs2.
    + apply Hcatch.
Qed.

#[local] Instance welcome_stays_hidden_preorder : PreOrder Page.welcome_stays_hidden.
Proof.
  split.
  - intros s H. exact H.
  - intros s1 s2 s3 H1 H2 H. by apply H2, H1.
Qed.

Ltac welcome_ok :=
  unfold Page.welcome_stays_hidden; simpl; first [ done | by intros ].

Lemma enhanced_sendMessage_hides_welcome (w : Net.world) (s : Enhanced.ui) :
  Js.trim (Enhanced.userInput s) ≠ "" →
  Enhanced.welcome_hidden (Eff.exec (Enhanced.sendMessage w) s) = true.
Proof.
  intros Hq. apply post_exec. unfold Enhanced.sendMessage.
  apply post_bind, post_gets. rewrite (bool_decide_eq_false_2 _ Hq).
  apply post_bind.
  destruct (never_throws_run
              (Enhanced.addMessage w (Js.JStr (Js.trim (Enhanced.userInput s)))
                 "user" Js.JNull) s) as [m Hrun]; [never_throws_auto |].
  apply (post_run _ _ _ _ _ Hrun).
  match goal with
  | |- Traffic.post ?rest _ _ =>
      assert (Hrest : Page.steps Page.welcome_stays_hidden rest)
        by steps_auto welcome_ok
  end.
  apply (Hrest _). reflexivity.
Qed.

(** X13.  A question sent in the enhanced script is always answered, whatever
    the backend does: [sendMessage] on a non-blank input puts the question and
    then exactly one reply, an assistant message or an error message, at the
    end of the chat; the question is shown as text, unless it holds a table
    tag or the summary marker, in which case it is inserted as markup; and
    when [sendMessage] is done the input is empty, the send button disabled,
    the processing indicator hidden again and the welcome screen hidden. *)
Theorem sendMessage_always_answers (w : Net.world) (s : Enhanced.ui) :
  Js.trim (Enhanced.userInput s) ≠ "" →
  (∃ question reply,
     Enhanced.messagesWrapper (Eff.exec (Enhanced.sendMessage w) s)
     = Enhanced.messagesWrapper s ++ [question; reply]
     ∧ Enhanced.className question = "message user"
     ∧ Enhanced.shown question
       = (if Enhanced.is_markup (Js.trim (Enhanced.userInput s))
          then Enhanced.Html (Js.trim (Enhanced.userInput s))
          else Enhanced.Text (Js.trim (Enhanced.userInput s)))
     ∧ (Enhanced.className reply = "message assistant"
        ∨ Enhanced.className reply = "message error"))
  ∧ Enhanced.userInput (Eff.exec (Enhanced.sendMessage w) s) = ""
  ∧ Enhanced.sendBtn_disabled (Eff.exec (Enhanced.sendMessage w) s) = true
  ∧ Enhanced.processing_hidden (Eff.exec (Enhanced.sendMessage w) s) = true
  ∧ Enhanced.welcome_hidden (Eff.exec (Enhanced.sendMessage w) s) = true.
Proof.
  intros Hq.
  split; [by apply enhanced_sendMessage_chat |].
  pose proof (enhanced_sendMessage_clears_input w s Hq) as Hclear.
  unfold Page.input_and_button in Hclear. injection Hclear as Hin Hbtn.
  split; [done |]. split; [done |].
  split; [by apply enhanced_sendMessage_hides_processing |].
  by apply enhanced_sendMessage_hides_welcome.
Qed.

Lemma sendMessage_always_answers_witness :
  Enhanced.processing_hidden
    (Eff.exec
       (Enhanced.sendMessage
          (Net.World
             (fun _ => Net.Responded (Net.Response true (inl "Unexpected token <")))
             (fun _ => 0%Z) (fun _ => "")))
       (Enhanced.set_userInput "how many patents?" Enhanced.initial))
  = true.
Proof.
  apply (sendMessage_always_answers
           (Net.World
              (fun _ => Net.Responded (Net.Response true (inl "Unexpected token <")))
              (fun _ => 0%Z) (fun _ => ""))
           (Enhanced.set_userInput "how many patents?" Enhanced.initial)).
  discriminate.
Defined.

(** *** [script.js] *)

Lemma legacy_addMessage_run (w : Net.world) (text type : string) (s : Legacy.ui) :
  Legacy.addMessage w (Js.JStr text) type s
  = (Js.Ok (pretty (Net.Date_now w (Legacy.clock s))),
     Legacy.set_chatMessages
       (Legacy.chatMessages s
        ++ [Legacy.Message (Legacy.nodes s) (pretty (Net.Date_now w (Legacy.clock s)))
              ("message " +:+ type)
              (if Js.startsWith Legacy.summary_open text || Js.startsWith "<table" text
               then text
               else "<pre>" +:+ Legacy.escapeHtml (Js.JStr text) +:+ "</pre>")])
       (Legacy.set_clock (S (Legacy.clock s))
          (Legacy.set_nodes (S (Legacy.nodes s)) s))).
Proof. reflexivity. Qed.

Lemma legacy_addMessage_replies (w : Net.world) (text : Js.jsval) (type : string) :
  type = "system" ∨ type = "error" →
  Page.replies_once Legacy.chatMessages Page.legacy_reply
    (Legacy.addMessage w text type).
Proof.
  intros Htype s. unfold Legacy.addMessage, Legacy.createElement, Legacy.Date_now.
  run_monad.
  assert (Hclass : ∀ i n html,
            Page.legacy_reply (Legacy.Message n i ("message " +:+ type) html)).
  { intros. destruct Htype as [-> | ->]; [by left | by right]. }
  destruct text; try (destruct (Js.JSON_stringify _); simpl);
    try done; eexists; split; try reflexivity; apply Hclass.
Qed.

Lemma legacy_addMessage_system (w : Net.world) (text : Js.jsval) :
  Page.replies_once Legacy.chatMessages Page.legacy_reply
    (Legacy.addMessage w text "system").
Proof. apply legacy_addMessage_replies. by left. Qed.

Lemma legacy_addMessage_error (w : Net.world) (text : Js.jsval) :
  Page.replies_once Legacy.chatMessages Page.legacy_reply
    (Legacy.addMessage w text "error").
Proof. apply legacy_addMessage_replies. by right. Qed.

#[local] Hint Resolve legacy_addMessage_system legacy_addMessage_error : replied.

Lemma legacy_show_results_replies (w : Net.world) (data : Js.jsval) :
  Page.replies_once Legacy.chatMessages Page.legacy_reply
    (Legacy.show_results w data).
Proof. replies_auto. Qed.

#[local] Hint Resolve legacy_show_results_replies : replied.

(** The chat after [sendQuery]: the question and the placeholder are added,
    the placeholder's id is taken out once or, when the handler throws after
    it has done so, twice, and one reply is added. *)
Lemma legacy_sendQuery_chat (w : Net.world) (s : Legacy.ui) :
  Js.trim (Legacy.userInput s) ≠ "" →
  ∃ reply,
    Page.legacy_reply reply
    ∧ ∃ shown,
        (shown
         = Legacy.remove_first (pretty (Net.Date_now w (S (Legacy.clock s))))
             (Legacy.chatMessages s
              ++ [Legacy.Message (Legacy.nodes s)
                    (pretty (Net.Date_now w (Legacy.clock s))) "message user"
                    (if Js.startsWith Legacy.summary_open (Js.trim (Legacy.userInput s))
                        || Js.startsWith "<table" (Js.trim (Legacy.userInput s))
                     then Js.trim (Legacy.userInput s)
                     else "<pre>"
                          +:+ Legacy.escapeHtml (Js.JStr (Js.trim (Legacy.userInput s)))
                          +:+ "</pre>");
                  Legacy.Message (S (Legacy.nodes s))
                    (pretty (Net.Date_now w (S (Legacy.clock s)))) "message system"
                    "<pre>Processing your question...</pre>"])
         ∨ shown
           = Legacy.remove_first (pretty (Net.Date_now w (S (Legacy.clock s))))
               (Legacy.remove_first (pretty (Net.Date_now w (S (Legacy.clock s))))
                  (Legacy.chatMessages s
                   ++ [Legacy.Message (Legacy.nodes s)
                         (pretty (Net.Date_now w (Legacy.clock s))) "message user"
                         (if Js.startsWith Legacy.summary_open
                               (Js.trim (Legacy.userInput s))
                             || Js.startsWith "<table" (Js.trim (Legacy.userInput s))
                          then Js.trim (Legacy.userInput s)
                          else "<pre>"
                               +:+ Legacy.escapeHtml
                                     (Js.JStr (Js.trim (Legacy.userInput s)))
                               +:+ "</pre>");
                       Legacy.Message (S (Legacy.nodes s))
                         (pretty (Net.Date_now w (S (Legacy.clock s))))
                         "message system"
                         "<pre>Processing your question...</pre>"])))
        ∧ Legacy.chatMessages (Eff.exec (Legacy.sendQuery w) s) = shown ++ [reply].
Proof.
  intros Hq.
  set (question := Js.trim (Legacy.userInput s)).
  set (l := pretty (Net.Date_now w (S (Legacy.clock s)))).
  match goal with
  | |- ∃ reply, _ ∧ ∃ shown, (shown = Legacy.remove_first l ?c ∨ _) ∧ _ =>
      set (chat1 := c)
  end.
  refine (post_exec _ _
            (fun s1 => ∃ reply,
                 Page.legacy_reply reply
                 ∧ ∃ shown,
                     (shown = Legacy.remove_first l chat1
                      ∨ shown = Legacy.remove_first l (Legacy.remove_first l chat1))
                     ∧ Legacy.chatMessages s1 = shown ++ [reply]) _).
  unfold Legacy.sendQuery.
  apply post_bind, post_gets. fold question. rewrite (bool_decide_eq_false_2 _ Hq).
  apply post_bind.
  apply (post_run _ _ _ _ _ (legacy_addMessage_run w question "user" s)).
  apply post_bind, post_modify, post_bind.
  apply (post_run _ _ _ _ _
           (legacy_addMessage_run w "Processing your question..." "system" _)).
  simpl Legacy.clock. simpl Legacy.nodes. simpl Legacy.chatMessages. fold l.
  assert (Hcatch : ∀ e s' (shown : list Legacy.message),
            Legacy.chatMessages s' = shown →
            Traffic.post
              (Legacy.removeMessage l;;
               _ ← Legacy.addMessage w
                     (Js.JStr ("Error processing your query: " +:+ e)) "error";
               mret tt) s'
              (fun _ s1 => ∃ reply,
                   Page.legacy_reply reply
                   ∧ Legacy.chatMessages s1 = Legacy.remove_first l shown ++ [reply])).
  { intros e s' shown Hs'. unfold Legacy.removeMessage.
    apply post_bind, post_modify, post_bind.
    apply (post_run _ _ _ _ _ (legacy_addMessage_run w _ "error" _)), post_ret.
    eexists. split; [|simpl; rewrite Hs'; reflexivity]. by right. }
  match goal with
  | |- Traffic.post _ ?s2 _ => set (s2' := s2)
  end.
  assert (Hchat1 : Legacy.chatMessages s2' = chat1).
  { unfold s2', chat1. simpl. by rewrite <- app_assoc. }
  clearbody s2'.
  apply post_try_catch. unfold Legacy.fetch.
  apply post_bind, post_bind, post_modify.
  destruct (Net.server w _) as [e | response].
  { apply post_throw.
    eapply (post_run _ _ _ _ _ (surjective_pairing _)).
    destruct (Hcatch e (Legacy.set_requests
                          (Legacy.requests s2'
                           ++ [Net.Request "POST" "/api/query"
                                 (Net.JsonBody (Js.JObj [("question", Js.JStr question)]))])
                          s2') chat1 Hchat1)
      as (reply & Hreply & Hfinal).
    exists reply. split; [done |]. eexists. split; [by left |]. exact Hfinal. }
  apply post_ret, post_bind. unfold Legacy.json.
  destruct (Net.parsed response) as [e | data].
  { apply post_throw.
    eapply (post_run _ _ _ _ _ (surjective_pairing _)).
    destruct (Hcatch e (Legacy.set_requests
                          (Legacy.requests s2'
                           ++ [Net.Request "POST" "/api/query"
                                 (Net.JsonBody (Js.JObj [("question", Js.JStr question)]))])
                          s2') chat1 Hchat1)
      as (reply & Hreply & Hfinal).
    exists reply. split; [done |]. eexists. split; [by left |]. exact Hfinal. }
  apply post_ret. unfold Legacy.removeMessage at 1.
  apply post_bind, post_modify.
  match goal with
  | |- Traffic.post ?rest _ _ =>
      assert (Hrest : Page.replies_once Legacy.chatMessages Page.legacy_reply rest)
        by replies_auto
  end.
  apply (replies_once_post Legacy.chatMessages Page.legacy_reply
           _ _ (Legacy.remove_first l chat1) _ Hrest).
  - simpl. by rewrite Hchat1.
  - intros [] s3 reply Hs3 Hreply.
    exists reply. split; [done |]. eexists. split; [by left |]. exact Hs3.
  - intros e s3 Hs3.
    eapply (post_run _ _ _ _ _ (surjective_pairing _)).
    destruct (Hcatch e s3 _ Hs3) as (reply & Hreply & Hfinal).
    exists reply. split; [done |]. eexists. split; [by right |]. exact Hfinal.
Qed.

Lemma unused_id_app (i : string) (ms ms' : list Legacy.message) :
  Page.unused_id i ms → Page.unused_id i ms' → Page.unused_id i (ms ++ ms').
Proof. unfold Page.unused_id. intros. by apply Forall_app. Qed.

(** X14.  [sendQuery] of [script.js] names a message by the reading of
    [Date.now()] at the time it is added.  When the reading for the
    placeholder differs from the one for the question and no message of the
    chat carries it yet, a non-blank question leaves the chat with the
    question and one reply, a system message or an error message, added at
    its end and the placeholder gone, whatever the backend answers. *)
Theorem sendQuery_answers_when_the_ids_differ (w : Net.world) (s : Legacy.ui) :
  Js.trim (Legacy.userInput s) ≠ "" →
  Net.Date_now w (Legacy.clock s) ≠ Net.Date_now w (S (Legacy.clock s)) →
  Page.unused_id (pretty (Net.Date_now w (S (Legacy.clock s))))
    (Legacy.chatMessages s) →
  ∃ reply,
    Legacy.chatMessages (Eff.exec (Legacy.sendQuery w) s)
    = Legacy.chatMessages s
      ++ [Legacy.Message (Legacy.nodes s)
            (pretty (Net.Date_now w (Legacy.clock s))) "message user"
            (if Js.startsWith Legacy.summary_open (Js.trim (Legacy.userInput s))
                || Js.startsWith "<table" (Js.trim (Legacy.userInput s))
             then Js.trim (Legacy.userInput s)
             else "<pre>"
                  +:+ Legacy.escapeHtml (Js.JStr (Js.trim (Legacy.userInput s)))
                  +:+ "</pre>");
          reply]
    ∧ (Legacy.className reply = "message system"
       ∨ Legacy.className reply = "message error").
Proof.
  intros Hq Hnow Hfresh.
  destruct (legacy_sendQuery_chat w s Hq) as (reply & Hreply & shown & Hshown & Hchat).
  exists reply. split; [|exact Hreply].
  rewrite Hchat.
  set (l := pretty (Net.Date_now w (S (Legacy.clock s)))) in *.
  match type of Hshown with
  | _ = Legacy.remove_first l (_ ++ [?u; ?p]) ∨ _ => set (U := u) in *; set (L := p) in *
  end.
  assert (HU : Page.unused_id l (Legacy.chatMessages s ++ [U])).
  { apply unused_id_app; [done |]. repeat constructor. simpl.
    intros Heq. apply Hnow. by apply (inj pretty). }
  assert (H1 : Legacy.remove_first l (Legacy.chatMessages s ++ [U; L])
               = Legacy.chatMessages s ++ [U]).
  { change (Legacy.chatMessages s ++ [U; L])
      with (Legacy.chatMessages s ++ [U] ++ [L]).
    rewrite app_assoc, remove_first_app by done. by rewrite app_nil_r. }
  rewrite H1, (remove_first_unused _ _ HU) in Hshown.
  destruct Hshown as [-> | ->]; by rewrite <- app_assoc.
Qed.

Lemma sendQuery_answers_when_the_ids_differ_witness :
  ∃ reply,
    Legacy.chatMessages
      (Eff.exec
         (Legacy.sendQuery
            (Net.World (fun _ => Net.Rejected "offline") (fun n => Z.of_nat n)
               (fun _ => "")))
         (Legacy.set_userInput "how many?" Legacy.initial))
    = [] ++ [Legacy.Message 0 "0" "message user" "<pre>how many?</pre>"; reply]
    ∧ (Legacy.className reply = "message system"
       ∨ Legacy.className reply = "message error").
Proof.
  apply (sendQuery_answers_when_the_ids_differ
           (Net.World (fun _ => Net.Rejected "offline") (fun n => Z.of_nat n)
              (fun _ => ""))
           (Legacy.set_userInput "how many?" Legacy.initial)).
  - discriminate.
  - discriminate.
  - constructor.
Defined.

(** X15.  When the two readings of [Date.now()] that [sendQuery] of
    [script.js] takes for the question and for the placeholder are the same
    millisecond, the two messages carry the same id, and [removeMessage]
    takes out the first of them: the question.  The chat then ends with the
    placeholder [Processing your question...] and the reply, or, when the
    handler throws after the removal and removes once more, with the reply
    alone; the question the user asked is not shown in either case. *)
Theorem sendQuery_drops_the_question_when_the_ids_collide
  (w : Net.world) (s : Legacy.ui) :
  Js.trim (Legacy.userInput s) ≠ "" →
  Net.Date_now w (Legacy.clock s) = Net.Date_now w (S (Legacy.clock s)) →
  Page.unused_id (pretty (Net.Date_now w (Legacy.clock s))) (Legacy.chatMessages s) →
  ∃ reply,
    (Legacy.className reply = "message system"
     ∨ Legacy.className reply = "message error")
    ∧ (Legacy.chatMessages (Eff.exec (Legacy.sendQuery w) s)
       = Legacy.chatMessages s
         ++ [Legacy.Message (S (Legacy.nodes s))
               (pretty (Net.Date_now w (Legacy.clock s))) "message system"
               "<pre>Processing your question...</pre>";
             reply]
       ∨ Legacy.chatMessages (Eff.exec (Legacy.sendQuery w) s)
         = Legacy.chatMessages s ++ [reply]).
Proof.
  intros Hq Hnow Hfresh.
  destruct (legacy_sendQuery_chat w s Hq) as (reply & Hreply & shown & Hshown & Hchat).
  exists reply. split; [exact Hreply |].
  rewrite Hchat. rewrite <- Hnow in Hshown.
  set (l := pretty (Net.Date_now w (Legacy.clock s))) in *.
  match type of Hshown with
  | _ = Legacy.remove_first l (_ ++ [?u; ?p]) ∨ _ => set (U := u) in *; set (L := p) in *
  end.
  assert (H1 : Legacy.remove_first l (Legacy.chatMessages s ++ [U; L])
               = Legacy.chatMessages s ++ [L])
    by (by apply remove_first_app).
  assert (H2 : Legacy.remove_first l (Legacy.chatMessages s ++ [L])
               = Legacy.chatMessages s).
  { rewrite remove_first_app by done. by rewrite app_nil_r. }
  rewrite H1, H2 in Hshown.
  destruct Hshown as [-> | ->]; [left | right]; [|done].
  by rewrite <- app_assoc.
Qed.

Lemma sendQuery_drops_the_question_when_the_ids_collide_witness :
  ∃ reply,
    (Legacy.className reply = "message system"
     ∨ Legacy.className reply = "message error")
    ∧ (Legacy.chatMessages
         (Eff.exec
            (Legacy.sendQuery
               (Net.World
                  (fun _ => Net.Responded
                              (Net.Response true
                                 (inr (Js.JObj [("result", Js.JNum 42)]))))
                  (fun _ => 1700000000000%Z) (fun _ => "")))
            (Legacy.set_userInput "how many?" Legacy.initial))
       = [] ++ [Legacy.Message 1 "1700000000000" "message system"
                  "<pre>Processing your question...</pre>";
                reply]
       ∨ Legacy.chatMessages
           (Eff.exec
              (Legacy.sendQuery
                 (Net.World
                    (fun _ => Net.Responded
                                (Net.Response true
                                   (inr (Js.JObj [("result", Js.JNum 42)]))))
                    (fun _ => 1700000000000%Z) (fun _ => "")))
              (Legacy.set_userInput "how many?" Legacy.initial))
         = [] ++ [reply]).
Proof.
  apply (sendQuery_drops_the_question_when_the_ids_collide
           (Net.World
              (fun _ => Net.Responded
                          (Net.Response true (inr (Js.JObj [("result", Js.JNum 42)]))))
              (fun _ => 1700000000000%Z) (fun _ => ""))
           (Legacy.set_userInput "how many?" Legacy.initial)).
  - discriminate.
  - reflexivity.
  - constructor.
Defined.

(** ** The length of an array *)

Lemma pretty_N_go_digits (x : N) (s : string) :
  Js.all_digits s = true → Js.all_digits (pretty_N_go x s) = true.
Proof.
  revert s. induction (N.lt_wf_0 x) as [x _ IH]; intros s Hs.
  assert (x = 0 ∨ 0 < x)%N as [->|Hx] by lia; [by rewrite pretty_N_go_0 |].
  rewrite pretty_N_go_step by done. apply IH; [by apply N.div_lt |].
  simpl. rewrite Hs, andb_true_r.
  unfold pretty_N_char. by repeat case_match.
Qed.

Lemma pretty_nat_digits (n : nat) : Js.all_digits (pretty n) = true.
Proof.
  unfold pretty, pretty_nat, pretty, pretty_N.
  case_decide; [done |]. by apply pretty_N_go_digits.
Qed.

(** No array index is spelled [length]: reading [length] off an array gives
    the number of its elements. *)
Lemma indexed_length (elems : list Js.jsval) :
  Js.indexed elems "length" = Js.JNum (Z.of_nat (length elems)).
Proof.
  unfold Js.indexed, Js.index_of_key.
  assert (Hnone : list_find (fun i : nat => pretty i = "length")
                    (seq 0 (length elems)) = None).
  { apply list_find_None, Forall_forall. intros i _ Hi.
    pose proof (pretty_nat_digits i) as Hd. by rewrite Hi in Hd. }
  by rewrite Hnone.
Qed.

(** ** The collections list *)

(** X16.  What [loadCollections] shows for a response with an ok status and
    a JSON object as body: the line [No data loaded] when [collections] is
    missing, falsy or an empty array; one item for every collection, in
    order, when it is a non-empty array whose items can be rendered; and
    the line [Error loading collections] when it is anything else without a
    [length] of zero (a number, a text, an object), since [map] is then not a
    function.  In the first two cases the script also keeps the array. *)
Theorem loadCollections_shows_the_collections
  (w : Net.world) (s : Enhanced.ui) (props : list (string * Js.jsval)) :
  Net.server w (Net.Request "GET" "/api/collections" Net.NoBody)
  = Net.Responded (Net.Response true (inr (Js.JObj props))) →
  (Js.truthy (Js.assoc "collections" props) = false
   ∨ Js.assoc "collections" props = Js.JArr [] →
   Enhanced.collectionsList (Eff.exec (Enhanced.loadCollections w) s)
   = "<div class=" +:+ Js.DQ +:+ "collection-item empty" +:+ Js.DQ
     +:+ ">No data loaded</div>"
   ∧ Enhanced.collections (Eff.exec (Enhanced.loadCollections w) s) = Js.JArr [])
  ∧ (∀ item items rendered,
       Js.assoc "collections" props = Js.JArr (item :: items) →
       Js.mapM Enhanced.collection_item (item :: items) = Js.Ok rendered →
       Enhanced.collectionsList (Eff.exec (Enhanced.loadCollections w) s)
       = Js.join "" rendered
       ∧ length rendered = S (length items)
       ∧ Enhanced.collections (Eff.exec (Enhanced.loadCollections w) s)
         = Js.JArr (item :: items))
  ∧ (Js.truthy (Js.assoc "collections" props) = true →
     Js.isArray (Js.assoc "collections" props) = false →
     Js.get (Js.assoc "collections" props) "length" ≠ Js.Ok (Js.JNum 0) →
     Enhanced.collectionsList (Eff.exec (Enhanced.loadCollections w) s)
     = Enhanced.collections_error).
Proof.
  intros Hserver.
  unfold Enhanced.loadCollections, Enhanced.fetch, Enhanced.json.
  run_monad. rewrite Hserver. simpl. unfold Js.or_else.
  split; [|split].
  - intros [Hc | Hc]; rewrite Hc; [done |]. done.
  - intros item items rendered Hc Hr. rewrite Hc. simpl.
    simpl in Hr. rewrite Hr. rewrite indexed_length. simpl.
    split; [done |]. split; [|done].
    change (length rendered = length (item :: items)).
    by eapply mapM_length.
  - intros Ht Ha Hlen. rewrite Ht.
    destruct (Js.assoc "collections" props) as [| |b|n|t|elems|ps];
      try done; simpl in *.
    + destruct (Js.indexed (Js.string_chars t) "length") as [| |?|[]|?|?|?]; done.
    + destruct (Js.assoc "length" ps) as [| |?|[]|?|?|?]; done.
Qed.

Lemma loadCollections_shows_the_collections_witness :
  Enhanced.collectionsList
    (Eff.exec
       (Enhanced.loadCollections
          (Net.World
             (fun _ => Net.Responded
                         (Net.Response true
                            (inr (Js.JObj [("collections", Js.JStr "patents")]))))
             (fun _ => 0%Z) (fun _ => "")))
       Enhanced.initial)
  = Enhanced.collections_error.
Proof.
  apply (proj2 (proj2 (loadCollections_shows_the_collections
                         (Net.World
                            (fun _ => Net.Responded
                                        (Net.Response true
                                           (inr (Js.JObj [("collections",
                                                           Js.JStr "patents")]))))
                            (fun _ => 0%Z) (fun _ => ""))
                         Enhanced.initial
                         [("collections", Js.JStr "patents")] eq_refl)));
    [reflexivity | reflexivity | discriminate].
Defined.

(** ** The mode and the endpoint *)

Lemma enhanced_typed_question_is_sent (w : Net.world) (m : Enhanced.mode)
  (q : string) (s : Enhanced.ui) :
  Js.trim q ≠ "" →
  Enhanced.requests
    (Eff.exec (Enhanced.handle w Enhanced.ClickSend)
       (Eff.exec (Enhanced.handle w (Enhanced.Input q))
          (Eff.exec (Enhanced.switchMode m) s)))
  = Enhanced.requests s ++ [Enhanced.query_request m (Js.trim q)].
Proof.
  intros Hq.
  set (s1 := Eff.exec (Enhanced.handle w (Enhanced.Input q))
               (Eff.exec (Enhanced.switchMode m) s)).
  assert (Hin : Enhanced.userInput s1 = q) by done.
  assert (Hmode : Enhanced.currentMode s1 = m) by done.
  assert (Hreq : Enhanced.requests s1 = Enhanced.requests s) by done.
  assert (Hbtn : Enhanced.sendBtn_disabled s1 = false).
  { change (negb (bool_decide (0 < String.length (Js.trim q))) = false).
    rewrite updateSendButton_formula. by apply bool_decide_eq_false_2. }
  clearbody s1.
  change (Enhanced.requests
            (Eff.exec (if Enhanced.sendBtn_disabled s1 then mret tt
                       else Enhanced.sendMessage w) s1)
          = Enhanced.requests s ++ [Enhanced.query_request m (Js.trim q)]).
  rewrite Hbtn. rewrite enhanced_sendMessage_request by (by rewrite Hin).
  by rewrite Hreq, Hmode, Hin.
Qed.

(** X17.  The mode button pressed last decides where a question goes: after
    a click on the web search button, whatever mode the page was in and
    whatever was typed before, a question typed and sent goes out as [POST
    /api/search] with the body [{query, limit: 10}] holding the trimmed
    question, and after a click on the database button as [POST /api/query]
    with [{question, mode: database}]; the click itself also discards what
    was in the input and disables the send button. *)
Theorem the_mode_chosen_last_decides_the_endpoint
  (w : Net.world) (q : string) (s : Enhanced.ui) :
  Js.trim q ≠ "" →
  Enhanced.requests
    (Eff.exec (Enhanced.handle w Enhanced.ClickSend)
       (Eff.exec (Enhanced.handle w (Enhanced.Input q))
          (Eff.exec (Enhanced.handle w Enhanced.ClickModeSerpapi) s)))
  = Enhanced.requests s
    ++ [Net.Request "POST" "/api/search"
          (Net.JsonBody (Js.JObj [("query", Js.JStr (Js.trim q));
                                  ("limit", Js.JNum 10)]))]
  ∧ Enhanced.requests
      (Eff.exec (Enhanced.handle w Enhanced.ClickSend)
         (Eff.exec (Enhanced.handle w (Enhanced.Input q))
            (Eff.exec (Enhanced.handle w Enhanced.ClickModeDatabase) s)))
    = Enhanced.requests s
      ++ [Net.Request "POST" "/api/query"
            (Net.JsonBody (Js.JObj [("question", Js.JStr (Js.trim q));
                                    ("mode", Js.JStr "database")]))]
  ∧ Enhanced.userInput (Eff.exec (Enhanced.handle w Enhanced.ClickModeSerpapi) s) = ""
  ∧ Enhanced.sendBtn_disabled
      (Eff.exec (Enhanced.handle w Enhanced.ClickModeSerpapi) s) = true.
Proof.
  intros Hq.
  split; [exact (enhanced_typed_question_is_sent w Enhanced.Serpapi q s Hq) |].
  split; [exact (enhanced_typed_question_is_sent w Enhanced.Database q s Hq) |].
  done.
Qed.

Lemma the_mode_chosen_last_decides_the_endpoint_witness :
  Enhanced.userInput
    (Eff.exec
       (Enhanced.handle
          (Net.World (fun _ => Net.Rejected "offline") (fun _ => 0%Z) (fun _ => ""))
          Enhanced.ClickModeSerpapi)
       (Enhanced.set_userInput "half a question" Enhanced.initial))
  = "".
Proof.
  apply (the_mode_chosen_last_decides_the_endpoint
           (Net.World (fun _ => Net.Rejected "offline") (fun _ => 0%Z) (fun _ => ""))
           " lasers "
           (Enhanced.set_userInput "half a question" Enhanced.initial)).
  discriminate.
Defined.

(** ** The collections a database answer names *)

Lemma toLowerCase_app (a b : string) :
  Js.toLowerCase (a +:+ b) = Js.toLowerCase a +:+ Js.toLowerCase b.
Proof. induction a as [|x a IH]; norm_app; simpl; [done | by rewrite IH]. Qed.

Lemma prefix_toLowerCase (p s : string) :
  String.prefix p s = true →
  String.prefix (Js.toLowerCase p) (Js.toLowerCase s) = true.
Proof.
  revert s. induction p as [|x p IH]; intros s; [intros _; apply prefix_empty |].
  destruct s as [|y s]; [done |]. simpl.
  destruct (Ascii.ascii_dec x y) as [-> | Hne]; [|done].
  intros Hp. rewrite (IH _ Hp).
  by destruct (Ascii.ascii_dec (Js.lower_char y) (Js.lower_char y)).
Qed.

Lemma includes_toLowerCase (p s : string) :
  Js.includes p s = true →
  Js.includes (Js.toLowerCase p) (Js.toLowerCase s) = true.
Proof.
  induction s as [|y s IH].
  - by destruct p.
  - change (Js.includes p (String y s))
      with (String.prefix p (String y s) || Js.includes p s).
    change (Js.includes (Js.toLowerCase p) (Js.toLowerCase (String y s)))
      with (String.prefix (Js.toLowerCase p) (Js.toLowerCase (String y s))
            || Js.includes (Js.toLowerCase p) (Js.toLowerCase s)).
    intros [Hp | Hs]%orb_true_iff.
    + by rewrite (prefix_toLowerCase _ _ Hp).
    + rewrite (IH Hs). apply orb_true_r.
Qed.

Lemma includes_collection_lower (t : string) :
  Js.includes "collection" t = true →
  Js.includes "collection" (Js.toLowerCase t) = true.
Proof. intros H. exact (includes_toLowerCase "collection" t H). Qed.

Lemma includes_nonempty (p : string) (a : ascii) (s : string) :
  Js.includes (String a p) s = true → Js.truthy (Js.JStr s) = true.
Proof. by destruct s. Qed.

Lemma truthy_app (a b : string) :
  Js.truthy (Js.JStr b) = true → Js.truthy (Js.JStr (a +:+ b)) = true.
Proof. by destruct a. Qed.

(** The summary with the searched collections appended mentions them. *)
Lemma searched_summary_mentions_collections (a n joined : string) :
  Js.includes "collection"
    (Js.toLowerCase
       (a +:+ Js.NL +:+ Js.NL +:+ "Searched " +:+ n +:+ " collection(s): " +:+ joined))
  = true.
Proof.
  rewrite !toLowerCase_app.
  do 4 apply includes_app_r.
  apply includes_app_r. done.
Qed.

(** X18.  In database mode the table of the enhanced script never holds the
    block [Collections searched]: when the answer names collections,
    [sendMessage] has either found the word [collection] in the summary or
    appended the line [Searched N collection(s)] to it, and [formatResults]
    leaves the block out of a table whose summary mentions collections. *)
Theorem database_mode_never_shows_the_collections_block
  (props : list (string * Js.jsval)) (summary es : Js.jsval) (block : string) :
  Enhanced.enhance_summary Enhanced.Database summary
    (Js.or_else (Js.assoc "collections_searched" props) (Js.JArr []))
  = Js.Ok es →
  Enhanced.collections_block es (Js.JObj props) = Js.Ok block →
  block = "".
Proof.
  unfold Enhanced.enhance_summary, Enhanced.collections_block, Js.or_else.
  change (negb (Js.truthy (Js.JObj props))) with false.
  change (Js.get (Js.JObj props) "collections_searched")
    with (Js.Ok (Js.assoc "collections_searched" props)).
  unfold mbind, mret, Js.result_bind, Js.result_ret. cbv beta iota.
  destruct (Js.truthy (Js.assoc "collections_searched" props)) eqn:Hcs; simpl;
    [|by intros _ [= <-]].
  destruct (Js.get (Js.assoc "collections_searched" props) "length")
    as [len | e]; simpl; [|done].
  destruct (Js.gt_zero len); simpl; [|by intros _ [= <-]].
  destruct (Js.join_method "data.collections_searched" _ ", ") as [info | e];
    simpl; [|done].
  destruct summary as [| |b|n|t|elems|ps]; simpl; try done.
  - destruct (Js.includes "collection" t) eqn:Ht; simpl.
    + intros [= <-]. rewrite (includes_nonempty _ _ _ Ht). simpl.
      rewrite (includes_collection_lower t Ht). simpl. by intros [= <-].
    + destruct (Js.join_method "collectionsSearched" _ ", ") as [joined | e];
        simpl; [|done].
      intros [= <-]. rewrite truthy_app by done. simpl.
      rewrite searched_summary_mentions_collections. simpl. by intros [= <-].
  - destruct (existsb _ elems); simpl.
    + by intros [= <-].
    + destruct (Js.join_method "collectionsSearched" _ ", ") as [joined | e];
        simpl; [|done].
      intros [= <-]. rewrite truthy_app by done. simpl.
      rewrite searched_summary_mentions_collections. simpl. by intros [= <-].
Qed.

Lemma database_mode_never_shows_the_collections_block_witness :
  Enhanced.collections_block
    (Js.JStr ("3 rows" +:+ Js.NL +:+ Js.NL +:+ "Searched 1 collection(s): patents"))
    (Js.JObj [("collections_searched", Js.JArr [Js.JStr "patents"])])
  = Js.Ok "".
Proof.
  transitivity
    (Js.Ok (A := string)
       (match
          Enhanced.collections_block
            (Js.JStr ("3 rows" +:+ Js.NL +:+ Js.NL
                      +:+ "Searched 1 collection(s): patents"))
            (Js.JObj [("collections_searched", Js.JArr [Js.JStr "patents"])])
        with
        | Js.Ok b => b
        | Js.Throw e => e
        end)); [reflexivity |].
  refine (f_equal Js.Ok _).
  apply (database_mode_never_shows_the_collections_block
           [("collections_searched", Js.JArr [Js.JStr "patents"])]
           (Js.JStr "3 rows")
           (Js.JStr ("3 rows" +:+ Js.NL +:+ Js.NL
                     +:+ "Searched 1 collection(s): patents")));
    reflexivity.
Defined.

(** ** Answers that are not rows *)

Lemma digit_is_plain (a : ascii) :
  is_Some (Ascii.is_nat a) → Spec.entity a = String a "".
Proof.
  intros [n Hn].
  destruct a as [[] [] [] [] [] [] [] []]; try done; by vm_compute in Hn.
Qed.

Lemma escape_digits (s : string) :
  Js.all_digits s = true → Spec.escape s = s.
Proof.
  induction s as [|a s IH]; [done |].
  simpl. intros [Ha Hs]%andb_true_iff. apply bool_decide_eq_true in Ha.
  by rewrite (digit_is_plain a Ha), (IH Hs).
Qed.

Lemma escape_app (a b : string) :
  Spec.escape (a +:+ b) = Spec.escape a +:+ Spec.escape b.
Proof.
  induction a as [|x a IH]; norm_app; simpl; [done |].
  by rewrite IH, app_assoc_s.
Qed.

Lemma pretty_positive_digits (p : positive) : Js.all_digits (pretty p) = true.
Proof.
  unfold pretty, pretty_positive, pretty, pretty_N.
  case_decide; [done |]. by apply pretty_N_go_digits.
Qed.

(** A number is written with digits and a sign: escaping leaves it as it
    is. *)
Lemma escape_pretty_Z (n : Z) : Spec.escape (pretty n) = pretty n.
Proof.
  destruct n as [|p|p]; [done | |].
  - apply escape_digits, pretty_positive_digits.
  - change (pretty (Z.neg p)) with ("-" +:+ pretty p).
    rewrite escape_app, (escape_digits (pretty p)) by apply pretty_positive_digits.
    done.
Qed.



(** ** Setting up and importing *)

(** X20.  The success path of the two buttons of [script.js]: an ok response
    with a JSON object puts [data.message] on the green setup banner (an
    empty text when the field is missing), respectively the line [CSV
    imported successfully into collection:] followed by [String(data.collection)]
    on the green import banner; a click on the import button while no file is
    chosen shows the notice on the orange banner and sends nothing. *)
Theorem setup_and_import_report_success
  (w : Net.world) (s : Legacy.ui) (props : list (string * Js.jsval)) :
  (Net.server w (Net.Request "POST" "/api/setup" Net.NoBody)
   = Net.Responded (Net.Response true (inr (Js.JObj props))) →
   Legacy.setupMessage (Eff.exec (Legacy.setup_click w) s)
   = Legacy.Banner
       (if Js.is_nullish (Js.assoc "message" props) then ""
        else Js.String_ (Js.assoc "message" props))
       "#e8f5e9")
  ∧ (∀ file,
       Legacy.csvFile s = Some file →
       Net.server w (Net.Request "POST" "/api/import-csv" (Net.FormFile file))
       = Net.Responded (Net.Response true (inr (Js.JObj props))) →
       Legacy.importMessage (Eff.exec (Legacy.import_click w) s)
       = Legacy.Banner
           ("✅ CSV imported successfully into collection: "
            +:+ Js.String_ (Js.assoc "collection" props))
           "#e8f5e9"
       ∧ Legacy.requests (Eff.exec (Legacy.import_click w) s)
         = Legacy.requests s
           ++ [Net.Request "POST" "/api/import-csv" (Net.FormFile file)])
  ∧ (Legacy.csvFile s = None →
     Legacy.importMessage (Eff.exec (Legacy.import_click w) s)
     = Legacy.Banner "Please select a CSV file first." "#fff3e0"
     ∧ Legacy.requests (Eff.exec (Legacy.import_click w) s) = Legacy.requests s).
Proof.
  split; [|split].
  - intros Hserver.
    unfold Legacy.setup_click, Legacy.fetch, Legacy.json. run_monad.
    by rewrite Hserver.
  - intros file Hfile Hserver.
    unfold Legacy.import_click, Legacy.fetch, Legacy.json. run_monad.
    rewrite Hfile. simpl. by rewrite Hserver.
  - intros Hfile. unfold Legacy.import_click. run_monad. by rewrite Hfile.
Qed.

Lemma setup_and_import_report_success_witness :
  Legacy.setupMessage
    (Eff.exec
       (Legacy.setup_click
          (Net.World
             (fun _ => Net.Responded
                         (Net.Response true
                            (inr (Js.JObj [("message", Js.JStr "Sample data loaded")]))))
             (fun _ => 0%Z) (fun _ => "")))
       Legacy.initial)
  = Legacy.Banner "Sample data loaded" "#e8f5e9"
  ∧ Legacy.requests
      (Eff.exec
         (Legacy.import_click
            (Net.World
               (fun _ => Net.Responded
                           (Net.Response true
                              (inr (Js.JObj [("message", Js.JStr "Sample data loaded")]))))
               (fun _ => 0%Z) (fun _ => "")))
         Legacy.initial)
    = Legacy.requests Legacy.initial.
Proof.
  split.
  - apply (proj1 (setup_and_import_report_success
                    (Net.World
                       (fun _ => Net.Responded
                                   (Net.Response true
                                      (inr (Js.JObj [("message",
                                                      Js.JStr "Sample data loaded")]))))
                       (fun _ => 0%Z) (fun _ => ""))
                    Legacy.initial [("message", Js.JStr "Sample data loaded")])).
    reflexivity.
  - apply (proj2 (proj2 (setup_and_import_report_success
                           (Net.World
                              (fun _ => Net.Responded
                                          (Net.Response true
                                             (inr (Js.JObj [("message",
                                                             Js.JStr "Sample data loaded")]))))
                              (fun _ => 0%Z) (fun _ => ""))
                           Legacy.initial [("message", Js.JStr "Sample data loaded")]))).
    reflexivity.
Defined.

(** ** From the question to the downloaded file *)

Lemma legacy_data_cells_objects (props : list (string * Js.jsval)) (keys : list string) :
  ∃ cells, Js.mapM (Legacy.data_cell (Js.JObj props)) keys = Js.Ok cells.
Proof.
  induction keys as [|k keys [cells IH]]; [by eexists |].
  simpl. rewrite IH. by eexists.
Qed.

Lemma legacy_append_rows_objects (keys : list string)
  (rows : list (list (string * Js.jsval))) (table : string) :
  ∃ out, Legacy.append_rows keys (map Js.JObj rows) table = Js.Ok out.
Proof.
  revert table. induction rows as [|r rows IH]; intros table; [by eexists |].
  simpl. destruct (legacy_data_cells_objects r keys) as [cells ->]. simpl.
  apply IH.
Qed.

(** A list of row objects can always be rendered. *)
Lemma legacy_table_html_objects (rows : list (list (string * Js.jsval)))
  (summary : Js.jsval) :
  ∃ html, Legacy.table_html (map Js.JObj rows) summary = Js.Ok html.
Proof.
  unfold Legacy.table_html, Legacy.table_keys.
  rewrite flatMap_keys_objects. simpl.
  destruct (legacy_append_rows_objects
              (Js.new_Set (concat (map (map fst) rows))) rows
              (Legacy.summary_open +:+ Legacy.escapeHtml summary +:+ "</div>"
               +:+ "<table><tr>"
               +:+ Js.join "" (map Legacy.header_cell
                                 (Js.new_Set (concat (map (map fst) rows))))
               +:+ "</tr>")) as [out Hout].
  rewrite !app_assoc_s. rewrite Hout. by eexists.
Qed.

Lemma legacy_table_has_button (results : list Js.jsval) (summary : Js.jsval)
  (html : string) (i cls : string) (n : nat) :
  Legacy.table_html results summary = Js.Ok html →
  Legacy.has_download_button (Legacy.Message n i cls html) = true.
Proof.
  intros H.
  destruct (legacy_formatResults_escapes _ _ _ H) as (keys & cells & _ & _ & ->).
  unfold Legacy.has_download_button. simpl Legacy.innerHTML.
  do 8 apply includes_app_r. by vm_compute.
Qed.

Lemma exec_try_catch_quiet {S : Type} (m : Eff.M S unit) (s : S) :
  Eff.exec (Eff.try_catch m (fun _ => mret tt)) s = Eff.exec m s.
Proof. unfold Eff.exec, Eff.try_catch. by destruct (m s) as [[[]|e] s1]. Qed.

(** [sendQuery] on an answer with rows: the table is the last message of
    the chat, and one timer is set to attach the download. *)
Lemma legacy_sendQuery_table (w : Net.world) (s : Legacy.ui)
  (props : list (string * Js.jsval)) (row : Js.jsval) (rows : list Js.jsval)
  (html : string) :
  Js.trim (Legacy.userInput s) ≠ "" →
  Net.server w
    (Net.Request "POST" "/api/query"
       (Net.JsonBody (Js.JObj [("question", Js.JStr (Js.trim (Legacy.userInput s)))])))
  = Net.Responded (Net.Response true (inr (Js.JObj props))) →
  Js.truthy (Js.assoc "error" props) = false →
  Spec.first_truthy
    [Js.assoc "result" props; Js.assoc "sample_result" props] (Js.JArr [])
  = Js.JArr (row :: rows) →
  Legacy.table_html (row :: rows)
    (Spec.first_truthy [Js.assoc "result_summary" props] (Js.JStr ""))
  = Js.Ok html →
  ∃ before n i,
    Legacy.chatMessages (Eff.exec (Legacy.sendQuery w) s)
    = before ++ [Legacy.Message n i "message system" html]
    ∧ Legacy.timers (Eff.exec (Legacy.sendQuery w) s)
      = Legacy.timers s ++ [(50, Legacy.AttachDownload (row :: rows))]
    ∧ Legacy.listeners (Eff.exec (Legacy.sendQuery w) s) = Legacy.listeners s
    ∧ Legacy.downloads (Eff.exec (Legacy.sendQuery w) s) = Legacy.downloads s.
Proof.
  intros Hq Hserver Herr Hres Hhtml.
  refine (post_exec _ _
            (fun s1 => ∃ before n i,
                 Legacy.chatMessages s1
                 = before ++ [Legacy.Message n i "message system" html]
                 ∧ Legacy.timers s1
                   = Legacy.timers s ++ [(50, Legacy.AttachDownload (row :: rows))]
                 ∧ Legacy.listeners s1 = Legacy.listeners s
                 ∧ Legacy.downloads s1 = Legacy.downloads s) _).
  unfold Legacy.sendQuery.
  apply post_bind, post_gets. rewrite (bool_decide_eq_false_2 _ Hq).
  apply post_bind.
  apply (post_run _ _ _ _ _ (legacy_addMessage_run w _ "user" s)).
  apply post_bind, post_modify, post_bind.
  apply (post_run _ _ _ _ _
           (legacy_addMessage_run w "Processing your question..." "system" _)).
  apply post_try_catch. unfold Legacy.fetch.
  apply post_bind, post_bind, post_modify. cbv beta. rewrite Hserver.
  apply post_ret, post_bind. unfold Legacy.json. apply post_ret.
  unfold Legacy.removeMessage at 1. apply post_bind, post_modify.
  apply post_bind, post_bind, post_lift, post_ret.
  change (Js.truthy (Js.assoc "error" props)) with (Js.truthy (Js.assoc "error" props)).
  cbv beta iota. simpl Js.get. cbv beta iota.
  rewrite Herr.
  match goal with
  | |- Traffic.post _ ?st _ => set (s_mid := st)
  end.
  destruct (legacy_show_results_table w props s_mid row rows html Hres Hhtml)
    as [Hchat Htimers].
  assert (Hls : Traffic.keeps Legacy.listeners (Legacy.show_results w (Js.JObj props)))
    by keeps_deep.
  assert (Hds : Traffic.keeps Legacy.downloads (Legacy.show_results w (Js.JObj props)))
    by keeps_deep.
  specialize (Hls s_mid). specialize (Hds s_mid).
  pose proof (legacy_show_results_replies w (Js.JObj props) s_mid) as Hrep.
  unfold Eff.exec in *.
  destruct (Legacy.show_results w (Js.JObj props) s_mid) as [[[] | e] s1] eqn:Hrun;
    simpl in Hchat, Htimers, Hls, Hds, Hrep.
  - apply (post_run _ _ _ _ _ Hrun).
    eexists _, _, _. split; [exact Hchat |].
    split; [by rewrite Htimers |]. split; [by rewrite Hls | by rewrite Hds].
  - exfalso. rewrite Hrep in Hchat.
    apply (f_equal length) in Hchat. rewrite length_app in Hchat. simpl in Hchat. lia.
Qed.

Lemma run_listeners_one (w : Net.world) (n : nat) (rawData : list Js.jsval)
  (s : Legacy.ui) :
  Eff.exec (Legacy.run_listeners w n [(n, rawData)]) s
  = Eff.exec (Legacy.downloadCSV w rawData) s.
Proof.
  simpl. rewrite decide_True by done.
  unfold Eff.exec. run_monad.
  by destruct (Legacy.downloadCSV w rawData s) as [[[]|e] s1].
Qed.



(** *** The enhanced script *)

Lemma enhanced_addMessage_full (w : Net.world) (text : Js.jsval) (type : string)
  (downloadData : Js.jsval) (s : Enhanced.ui) :
  ∃ m s1,
    Enhanced.addMessage w text type downloadData s = (Js.Ok m, s1)
    ∧ Enhanced.node m = Enhanced.nodes s
    ∧ Enhanced.nodes s1 = S (Enhanced.nodes s)
    ∧ Enhanced.className m = "message " +:+ type
    ∧ Enhanced.shown m
      = match text with
        | Js.JStr t => if Enhanced.is_markup t then Enhanced.Html t else Enhanced.Text t
        | v => Enhanced.Text (Enhanced.text_of v)
        end
    ∧ Enhanced.messagesWrapper s1 = Enhanced.messagesWrapper s ++ [m]
    ∧ Enhanced.timers s1 = Enhanced.timers s ++ [(100, Enhanced.AttachDownload m)]
    ∧ Enhanced.listeners s1 = Enhanced.listeners s
    ∧ Enhanced.downloads s1 = Enhanced.downloads s
    ∧ Enhanced.currentMode s1 = Enhanced.currentMode s
    ∧ Enhanced.sendBtn_disabled s1 = Enhanced.sendBtn_disabled s
    ∧ Enhanced.messageDownloadData s1
      = match downloadData with
        | Js.JArr rows => <[Enhanced.id m := rows]> (Enhanced.messageDownloadData s)
        | _ => Enhanced.messageDownloadData s
        end.
Proof.
  unfold Enhanced.addMessage, Enhanced.createElement, Enhanced.Date_now,
    Enhanced.random_suffix, Enhanced.setTimeout.
  run_monad. destruct downloadData; eexists _, _; repeat split; reflexivity.
Qed.

Lemma enhanced_table_has_button (results : list Js.jsval) (summary data : Js.jsval)
  (html : string) (m : Enhanced.message) :
  Enhanced.table_html results summary data = Js.Ok html →
  Enhanced.shown m = Enhanced.Html html →
  Enhanced.has_download_button m = true.
Proof.
  unfold Enhanced.table_html, Enhanced.has_download_button.
  destruct (Enhanced.table_keys results) as [keys | e]; simpl; [|done].
  destruct (Enhanced.collections_block summary data) as [block | e]; simpl; [|done].
  destruct (Enhanced.append_rows _ results _) as [out | e]; simpl; [|done].
  intros [= <-] ->.
  apply includes_app_r. by vm_compute.
Qed.

(** [sendMessage] on an answer with rows: the table is the last message of
    the chat, its rows are stored under its id, and the timers of the two
    messages are set. *)
Lemma enhanced_sendMessage_table (w : Net.world) (s : Enhanced.ui)
  (props : list (string * Js.jsval)) (row : Js.jsval) (rows : list Js.jsval)
  (es : Js.jsval) (html : string) :
  Js.trim (Enhanced.userInput s) ≠ "" →
  Net.server w
    (Enhanced.query_request (Enhanced.currentMode s) (Js.trim (Enhanced.userInput s)))
  = Net.Responded (Net.Response true (inr (Js.JObj props))) →
  Js.truthy (Js.assoc "error" props) = false →
  Spec.first_truthy
    [Js.assoc "result" props; Js.assoc "patents" props;
     Js.assoc "sample_result" props] (Js.JArr [])
  = Js.JArr (row :: rows) →
  Enhanced.enhance_summary (Enhanced.currentMode s)
    (Spec.first_truthy
       [Js.assoc "result_summary" props; Js.assoc "summary" props] (Js.JStr ""))
    (Js.or_else (Js.assoc "collections_searched" props) (Js.JArr []))
  = Js.Ok es →
  Enhanced.table_html (row :: rows) es (Js.JObj props) = Js.Ok html →
  ∃ question answer before,
    Enhanced.messagesWrapper (Eff.exec (Enhanced.sendMessage w) s)
    = before ++ [answer]
    ∧ Enhanced.className answer = "message assistant"
    ∧ Enhanced.shown answer = Enhanced.Html html
    ∧ Enhanced.node question ≠ Enhanced.node answer
    ∧ Enhanced.timers (Eff.exec (Enhanced.sendMessage w) s)
      = Enhanced.timers s
        ++ [(100, Enhanced.AttachDownload question);
            (100, Enhanced.AttachDownload answer)]
    ∧ Enhanced.listeners (Eff.exec (Enhanced.sendMessage w) s)
      = Enhanced.listeners s
    ∧ Enhanced.downloads (Eff.exec (Enhanced.sendMessage w) s)
      = Enhanced.downloads s
    ∧ Enhanced.messageDownloadData (Eff.exec (Enhanced.sendMessage w) s)
      !! Enhanced.id answer
      = Some (row :: rows).
Proof.
  intros Hq Hserver Herr Hres Hsum Hhtml.
  refine (post_exec _ _
            (fun s1 => ∃ question answer before,
                 Enhanced.messagesWrapper s1 = before ++ [answer]
                 ∧ Enhanced.className answer = "message assistant"
                 ∧ Enhanced.shown answer = Enhanced.Html html
                 ∧ Enhanced.node question ≠ Enhanced.node answer
                 ∧ Enhanced.timers s1
                   = Enhanced.timers s
                     ++ [(100, Enhanced.AttachDownload question);
                         (100, Enhanced.AttachDownload answer)]
                 ∧ Enhanced.listeners s1 = Enhanced.listeners s
                 ∧ Enhanced.downloads s1 = Enhanced.downloads s
                 ∧ Enhanced.messageDownloadData s1 !! Enhanced.id answer
                   = Some (row :: rows)) _).
  unfold Enhanced.sendMessage.
  apply post_bind, post_gets. rewrite (bool_decide_eq_false_2 _ Hq).
  apply post_bind.
  destruct (enhanced_addMessage_full w (Js.JStr (Js.trim (Enhanced.userInput s)))
              "user" Js.JNull s)
    as (Q & s1 & Hrun1 & HnQ & Hn1 & _ & _ & Hchat1 & Htm1 & Hls1 & Hds1 & Hmode1
        & _ & Hmdd1).
  apply (post_run _ _ _ _ _ Hrun1).
  apply post_bind, post_modify.
  unfold Enhanced.updateSendButton.
  apply post_bind, post_bind, post_gets, post_modify.
  unfold Enhanced.showProcessing. apply post_bind, post_modify.
  apply post_try_catch, post_bind, post_gets. simpl Enhanced.currentMode.
  rewrite Hmode1. unfold Enhanced.fetch.
  apply post_bind, post_bind, post_modify. rewrite Hserver.
  apply post_ret. unfold Enhanced.hideProcessing. apply post_bind, post_modify.
  simpl Net.ok. cbv beta iota. simpl negb. cbv iota.
  apply post_bind, post_try_catch, post_bind. unfold Enhanced.json.
  simpl Net.parsed. cbv iota. apply post_ret, post_ret.
  match goal with
  | |- Traffic.post _ ?st _ => set (s_mid := st)
  end.
  assert (Hmode_mid : Enhanced.currentMode s_mid = Enhanced.currentMode s)
    by (unfold s_mid; simpl; exact Hmode1).
  rewrite <- Hmode_mid in Hsum.
  pose proof (enhanced_show_response_table w props s_mid row rows es html
                Herr Hres Hsum Hhtml) as Hexec.
  destruct (enhanced_addMessage_full w (Js.JStr html) "assistant"
              (Js.JArr (row :: rows)) s_mid)
    as (A & s2 & Hrun2 & HnA & Hn2 & HclsA & HshownA & Hchat2 & Htm2 & Hls2 & Hds2
        & _ & _ & Hmdd2).
  pose proof (enhanced_show_response_replies w (Js.JObj props) s_mid) as Hrep.
  unfold Eff.exec in Hexec. rewrite Hrun2 in Hexec. simpl in Hexec.
  destruct (Enhanced.show_response w (Js.JObj props) s_mid) as [[[] | e] s3] eqn:Hrun;
    simpl in Hexec; subst s3.
  - apply (post_run _ _ _ _ _ Hrun).
    exists Q, A, (Enhanced.messagesWrapper s_mid).
    split; [exact Hchat2 |]. split; [exact HclsA |].
    split.
    { rewrite HshownA.
      destruct (enhanced_table_html_shape _ _ _ _ Hhtml) as [_ ->]. done. }
    split.
    { rewrite HnQ, HnA. unfold s_mid. simpl. rewrite Hn1. lia. }
    split.
    { rewrite Htm2. unfold s_mid. simpl. rewrite Htm1, <- app_assoc. done. }
    split; [rewrite Hls2; unfold s_mid; simpl; exact Hls1 |].
    split; [rewrite Hds2; unfold s_mid; simpl; exact Hds1 |].
    rewrite Hmdd2. by rewrite lookup_insert_eq.
  - exfalso. rewrite Hchat2 in Hrep.
    apply (f_equal length) in Hrep. rewrite length_app in Hrep. simpl in Hrep. lia.
Qed.

Lemma enhanced_run_listeners_last (w : Net.world) (n : nat) (i : string)
  (others : list (nat * string)) (s : Enhanced.ui) :
  Forall (fun l => l.1 ≠ n) others →
  Eff.exec (Enhanced.run_listeners w n (others ++ [(n, i)])) s
  = Eff.exec (Enhanced.download_click w i) s.
Proof.
  induction 1 as [|[n' i'] others Hn' _ IH]; simpl.
  - rewrite decide_True by done. unfold Eff.exec. run_monad.
    by destruct (Enhanced.download_click w i s) as [[[]|e] s1].
  - simpl in Hn'. rewrite decide_False by done. exact IH.
Qed.



(** ** Answers without rows in the enhanced script *)



(** ** A row that is [null] *)

Lemma flatMap_keys_null (rows : list Js.jsval) :
  Js.JNull ∈ rows ∨ Js.JUndefined ∈ rows →
  Js.flatMap Js.Object_keys rows
  = Js.Throw "Cannot convert undefined or null to object".
Proof.
  induction rows as [|r rows IH]; [set_solver |].
  intros Hin. simpl.
  destruct r; try done;
    (rewrite IH by (rewrite !elem_of_cons in Hin; naive_solver)); done.
Qed.

Lemma flatMap_filtered_keys_null (rows : list Js.jsval) :
  Js.JNull ∈ rows ∨ Js.JUndefined ∈ rows →
  Js.flatMap (fun r => ks ← Js.Object_keys r;
                       mret (filter (fun k => k ∉ Enhanced.excludeKeys) ks)) rows
  = Js.Throw "Cannot convert undefined or null to object".
Proof.
  intros Hin. rewrite flatMap_keys_filter. by rewrite flatMap_keys_null.
Qed.

(** X24.  One row that is [null] (or [undefined]) spoils the whole answer:
    [formatResults] of either script then throws the [TypeError] of
    [Object.keys] before it has built anything, whatever the other rows
    hold. *)
Theorem formatResults_rejects_a_null_row
  (rows : list Js.jsval) (summary data : Js.jsval) :
  Js.JNull ∈ rows ∨ Js.JUndefined ∈ rows →
  Legacy.table_html rows summary
  = Js.Throw "Cannot convert undefined or null to object"
  ∧ Enhanced.table_html rows summary data
    = Js.Throw "Cannot convert undefined or null to object"
  ∧ Enhanced.formatResults (Js.JArr rows) summary data
    = Js.Throw "Cannot convert undefined or null to object".
Proof.
  intros Hin.
  assert (Hl : Legacy.table_html rows summary
               = Js.Throw "Cannot convert undefined or null to object").
  { unfold Legacy.table_html, Legacy.table_keys.
    by rewrite (flatMap_keys_null rows Hin). }
  assert (He : Enhanced.table_html rows summary data
               = Js.Throw "Cannot convert undefined or null to object").
  { unfold Enhanced.table_html, Enhanced.table_keys.
    by rewrite (flatMap_filtered_keys_null rows Hin). }
  split; [done |]. split; [done |].
  unfold Enhanced.formatResults.
  destruct rows as [|r rest]; [set_solver |]. by rewrite He.
Qed.

Lemma formatResults_rejects_a_null_row_witness :
  Legacy.table_html [Js.JObj [("a", Js.JNum 1)]; Js.JNull] (Js.JStr "two rows")
  = Js.Throw "Cannot convert undefined or null to object".
Proof.
  apply (formatResults_rejects_a_null_row
           [Js.JObj [("a", Js.JNum 1)]; Js.JNull] (Js.JStr "two rows") Js.JNull).
  left. apply elem_of_cons. right. apply elem_of_cons. by left.
Defined.

(** ** An upload and the reload it sets off *)

Lemma enhanced_fire_cons (w : Net.world) (d : nat) (t : Enhanced.task)
  (ts : list (nat * Enhanced.task)) (s : Enhanced.ui) :
  Eff.exec (Traffic.enhanced_fire w ((d, t) :: ts)) s
  = Eff.exec (Traffic.enhanced_fire w ts) (Eff.exec (Enhanced.run_task w t) s).
Proof.
  simpl. unfold Eff.exec. run_monad.
  by destruct (Enhanced.run_task w t s) as [[[]|e] s1].
Qed.

Lemma enhanced_loadCollections_request (w : Net.world) (s : Enhanced.ui) :
  Enhanced.requests (Eff.exec (Enhanced.loadCollections w) s)
  = Enhanced.requests s ++ [Net.Request "GET" "/api/collections" Net.NoBody].
Proof.
  apply post_exec. unfold Enhanced.loadCollections.
  apply post_try_catch, post_bind. unfold Enhanced.fetch.
  apply post_bind, post_modify.
  destruct (Net.server w _) as [e | response].
  - apply post_throw, post_modify. done.
  - apply post_ret.
    match goal with
    | |- Traffic.post ?rest _ _ =>
        assert (Hrest : Traffic.keeps Enhanced.requests rest) by keeps_deep
    end.
    apply (post_keeps _ _ _ _ Hrest). intros [[] | e] s1 Hs1.
    + by rewrite Hs1.
    + apply post_modify. simpl. by rewrite Hs1.
Qed.


